(** * Passport photo studio: crop geometry, curve editor, AI retry policy,
      generate pipeline and live-preview scheduler

    A shallow embedding of the TypeScript sources

      - [components/Cropper.tsx]          (module [Cropper])
      - [components/CurveAdjustment.tsx]  (module [CurveAdjustment])
      - [services/geminiService.ts]       (module [GeminiService])
      - [App.tsx]                         (modules [Pipeline] and [Preview])

    followed by the properties proved about them.

    Conventions.  JavaScript numbers are IEEE doubles.  Pixel geometry is
    modelled in exact rationals ([Q], compared with [==]); a number read
    from text is the double nearest to it ([JS.to_double]); control points,
    indices and milliseconds are integers ([Z] or [nat]).  Values are
    immutable here, so [JSON.parse(JSON.stringify(v))] (a deep copy) is the
    identity and comparing two [JSON.stringify] results is structural
    equality: every object of the editor is built with its keys in one fixed
    order. *)

From Stdlib Require Import ZArith QArith Qminmax Qround Lia Lqa.
From Stdlib Require Import Bool String Ascii List.
From Stdlib Require Import Sorting.Sorted Sorting.Permutation.
Import ListNotations.

Set Implicit Arguments.

(* ================================================================== *)
(** * Part I.  The embedding                                           *)
(* ================================================================== *)

(** ** JavaScript primitives used by the sources *)

Module JS.

(** A JavaScript number as far as the rotation field needs it: a finite
    value, an infinity, or [NaN]. *)
Inductive number : Type :=
| Fin (q : Q)
| Inf (negative : bool)
| NaN.

Definition isNaN (v : number) : bool :=
  match v with NaN => true | _ => false end.

(** [Math.round]: the nearest integer, halves rounded towards +oo. *)
Definition round (q : Q) : Z := Qfloor (q + (1 # 2)).

(** [Math.max] and [Math.min] on integers. *)
Definition clamp255 (v : Z) : Z := Z.max 0 (Z.min 255 v).

(** [s.includes(needle)]. *)
Fixpoint includes (needle s : string) : bool :=
  if String.prefix needle s then true
  else match s with
       | EmptyString => false
       | String _ rest => includes needle rest
       end.

(** [a || b] on a possibly missing string: [undefined] and the empty
    string are falsy. *)
Definition or_else (a : option string) (b : string) : string :=
  match a with
  | Some (String c r) => String c r
  | _ => b
  end.

(** A string or [null] used as a condition: [null] and the empty string
    are falsy. *)
Definition truthy (a : option string) : option string :=
  match a with
  | Some (String c r) => Some (String c r)
  | _ => None
  end.

(** *** [parseFloat]

    A string stands for the JavaScript string whose UTF-8 encoding it
    is.  Leading white space is skipped, then the longest prefix that is a
    decimal literal is read: an optional sign, then [Infinity], or digits
    with an optional fraction and an optional exponent.  Anything after
    that prefix is ignored; no such prefix gives [NaN].  The value is the
    double nearest to the decimal, ties to even, and an infinity when the
    decimal is out of range.  The sign of a zero is not kept: [-0] and [0]
    are the one value [Fin 0], which no handler of the sources tells
    apart. *)

(** The white space of one byte: TAB, LF, VT, FF, CR and the space. *)
Definition is_space (c : ascii) : bool :=
  let n := nat_of_ascii c in
  ((9 <=? n) && (n <=? 13))%nat || (n =? 32)%nat.

(** U+00A0, the no-break space (C2 A0). *)
Definition is_space2 (a b : ascii) : bool :=
  ((nat_of_ascii a =? 194) && (nat_of_ascii b =? 160))%nat.

(** The white space of three bytes: U+1680 (E1 9A 80), U+2000 to U+200A
    (E2 80 80 to E2 80 8A), the line and paragraph separators U+2028 and
    U+2029, U+202F, U+205F (E2 81 9F), U+3000 (E3 80 80) and the byte
    order mark U+FEFF (EF BB BF). *)
Definition is_space3 (a b c : ascii) : bool :=
  let a := nat_of_ascii a in
  let b := nat_of_ascii b in
  let c := nat_of_ascii c in
  ((a =? 225) && (b =? 154) && (c =? 128)
   || (a =? 226) && (b =? 128)
      && ((128 <=? c) && (c <=? 138) || (c =? 168) || (c =? 169) || (c =? 175))
   || (a =? 226) && (b =? 129) && (c =? 159)
   || (a =? 227) && (b =? 128) && (c =? 128)
   || (a =? 239) && (b =? 187) && (c =? 191))%nat.

Fixpoint skip_spaces (s : string) : string :=
  match s with
  | String a r =>
      if is_space a then skip_spaces r
      else
        match r with
        | String b r2 =>
            if is_space2 a b then skip_spaces r2
            else
              match r2 with
              | String c r3 => if is_space3 a b c then skip_spaces r3 else s
              | EmptyString => s
              end
        | EmptyString => s
        end
  | EmptyString => s
  end.

Definition digit_of (c : ascii) : option Z :=
  let n := nat_of_ascii c in
  if ((48 <=? n) && (n <=? 57))%nat then Some (Z.of_nat (n - 48)) else None.

(** Reads a run of digits: its value on top of [acc], how many digits
    were read on top of [n], and the rest of the string. *)
Fixpoint digits (s : string) (acc : Z) (n : nat) : Z * nat * string :=
  match s with
  | String c r =>
      match digit_of c with
      | Some d => digits r (10 * acc + d)%Z (S n)
      | None => (acc, n, s)
      end
  | EmptyString => (acc, n, s)
  end.

(** An optional sign: [true] for a minus. *)
Definition sign (s : string) : bool * string :=
  match s with
  | String c r =>
      if Ascii.eqb c "-" then (true, r)
      else if Ascii.eqb c "+" then (false, r)
      else (false, s)
  | EmptyString => (false, s)
  end.

(** The exponent part, [0] when there is none (an [e] that no digit
    follows is not part of the literal). *)
Definition exponent (s : string) : Z :=
  match s with
  | String c r =>
      if (Ascii.eqb c "e" || Ascii.eqb c "E")%bool then
        let '(neg, r') := sign r in
        let '(v, n, _) := digits r' 0%Z 0%nat in
        match n with
        | O => 0%Z
        | S _ => if neg then (- v)%Z else v
        end
      else 0%Z
  | EmptyString => 0%Z
  end.

(** *** The nearest double *)

(** For a positive [q], the exponent [e] with [2^e <= q < 2^(e+1)]. *)
Definition binade (q : Q) : Z :=
  let e := (Z.log2 (Qnum q) - Z.log2 (Zpos (Qden q)))%Z in
  if Qle_bool (Qpower 2 e) q then e else (e - 1)%Z.

(** The nearest integer, a half going to the even neighbour. *)
Definition round_half_even (q : Q) : Z :=
  let f := Qfloor q in
  match (q - inject_Z f ?= 1 # 2)%Q with
  | Lt => f
  | Gt => (f + 1)%Z
  | Eq => if Z.even f then f else (f + 1)%Z
  end.

(** The double nearest to a decimal of the given sign and magnitude.
    Doubles are spaced [2^(e - 52)] apart in the binade [e], and
    [2^(-1074)] apart below [2^(-1022)]; what rounds to [2^1024] is an
    infinity. *)
Definition to_double (negative : bool) (magnitude : Q) : number :=
  if Qle_bool magnitude 0 then Fin 0
  else
    let e := Z.max (binade magnitude) (-1022) in
    let ulp := Qpower 2 (e - 52) in
    let rounded := (inject_Z (round_half_even (magnitude / ulp)) * ulp)%Q in
    if Qle_bool (Qpower 2 1024) rounded then Inf negative
    else Fin (Qred (if negative then - rounded else rounded)).

(** The literal after the sign. *)
Definition decimal (negative : bool) (s : string) : number :=
  if String.prefix "Infinity" s then Inf negative
  else
    let '(int_part, n_int, s1) := digits s 0%Z 0%nat in
    let '(mantissa, n_all, s2) :=
      match s1 with
      | String c r => if Ascii.eqb c "." then digits r int_part n_int
                      else (int_part, n_int, s1)
      | EmptyString => (int_part, n_int, s1)
      end in
    match n_all with
    | O => NaN
    | S _ =>
        let n_frac := (n_all - n_int)%nat in
        let e := (exponent s2 - Z.of_nat n_frac)%Z in
        to_double negative (inject_Z mantissa * Qpower 10 e)%Q
    end.

Definition parseFloat (input : string) : number :=
  let '(neg, s) := sign (skip_spaces input) in
  decimal neg s.

End JS.

(** ** The number field

    [handleManualRotationChange] is the [onChange] handler of an
    [<input type="number">] and of nothing else (App.tsx 699-703): the
    string it reads, [e.target.value], is the value of that field.  The
    value of a number field is sanitized by the browser: it is the text
    typed when that is a valid floating-point number (an optional minus,
    digits, or digits with a fraction, or a fraction alone, and an
    optional exponent), and the empty string otherwise.  Some browsers
    also give the empty string for a number out of the range of the
    doubles. *)

Module NumberField.

Local Open Scope string_scope.

(** A valid floating-point number without its minus sign. *)
Definition unsigned_number (s : string) : bool :=
  let '(_, n_int, s1) := JS.digits s 0%Z 0%nat in
  let '(mantissa_ok, s2) :=
    match s1 with
    | String c r =>
        if Ascii.eqb c "." then
          let '(_, n_frac, r') := JS.digits r 0%Z 0%nat in ((0 <? n_frac)%nat, r')
        else ((0 <? n_int)%nat, s1)
    | EmptyString => ((0 <? n_int)%nat, s1)
    end in
  mantissa_ok &&
  match s2 with
  | EmptyString => true
  | String c r =>
      (Ascii.eqb c "e" || Ascii.eqb c "E") &&
      let r0 := match r with
                | String c' t => if (Ascii.eqb c' "-" || Ascii.eqb c' "+") then t else r
                | EmptyString => r
                end in
      let '(_, n_exp, rest) := JS.digits r0 0%Z 0%nat in
      (0 <? n_exp)%nat && match rest with EmptyString => true | _ => false end
  end.

Definition valid_floating_point_number (s : string) : bool :=
  match s with
  | String c r => if Ascii.eqb c "-" then unsigned_number r else unsigned_number s
  | EmptyString => false
  end.

(** The value sanitization of the field, on the text typed. *)
Definition sanitized (typed : string) : string :=
  if valid_floating_point_number typed then typed else "".

(** The strings the field can hand to its handler: whatever the browser
    does with numbers out of range, the value is the empty string or a
    valid floating-point number. *)
Definition reports (value : string) : Prop :=
  value = "" \/ valid_floating_point_number value = true.

End NumberField.

(** ** Cropper.tsx: viewport geometry *)

Module Cropper.

Local Open Scope Q_scope.

Definition ASPECT_RATIO : Q := 35 / 45.
Definition CROP_BOX_HEIGHT : Q := 420.
Definition CROP_BOX_WIDTH : Q := CROP_BOX_HEIGHT * ASPECT_RATIO.

(** What the handlers read from [imageRef.current] and
    [containerRef.current]. *)
Record Image : Type := { naturalWidth : Q; naturalHeight : Q }.
Record Container : Type := { clientWidth : Q; clientHeight : Q }.

Record Position : Type := { px : Q; py : Q }.

(** The component state of one cropping session. *)
Record Viewport : Type :=
  { zoom : Q; rotation : JS.number; position : Position }.

Definition initial : Viewport :=
  {| zoom := 1; rotation := JS.Fin 0; position := {| px := 0; py := 0 |} |}.

(** The object handed to [getCroppedImg]. *)
Record CropRegion : Type :=
  { x : Q; y : Q; width : Q; height : Q }.

(** [setupAutoCrop]: the two state updates [setZoom] and [setPosition].
    Division is the one of [Q]; it agrees with the source whenever the
    natural dimensions are not zero. *)
Definition setupAutoCrop (img : Image) (v : Viewport) : Viewport :=
  let widthZoom := (CROP_BOX_WIDTH / naturalWidth img) * (28 # 10) in
  let heightZoom := (CROP_BOX_HEIGHT / naturalHeight img) * (15 # 10) in
  let finalZoom := Qmax widthZoom heightZoom in
  let finalZoom := Qmin finalZoom 4 in
  let renderedHeight := naturalHeight img * finalZoom in
  let initialY := - (renderedHeight * (18 # 100)) in
  {| zoom := finalZoom;
     rotation := rotation v;
     position := {| px := 0; py := initialY |} |}.

(** [handleCrop] up to the call of [getCroppedImg]: the region and the
    rotation passed to it, or [None] when a ref is not attached (the
    early [return]). *)
Definition handleCrop (imageRef : option Image) (containerRef : option Container)
                      (v : Viewport) : option (CropRegion * JS.number) :=
  match imageRef, containerRef with
  | Some img, Some container =>
      let renderedWidth := naturalWidth img * zoom v in
      let renderedHeight := naturalHeight img * zoom v in
      let containerW := clientWidth container in
      let containerH := clientHeight container in
      let cropBoxLeft := (containerW - CROP_BOX_WIDTH) / 2 in
      let cropBoxTop := (containerH - CROP_BOX_HEIGHT) / 2 in
      let imgLeftInContainer := (containerW - renderedWidth) / 2 + px (position v) in
      let imgTopInContainer := (containerH - renderedHeight) / 2 + py (position v) in
      let offsetX := cropBoxLeft - imgLeftInContainer in
      let offsetY := cropBoxTop - imgTopInContainer in
      let scale := naturalWidth img / renderedWidth in
      Some ({| x := offsetX * scale;
               y := offsetY * scale;
               width := CROP_BOX_WIDTH * scale;
               height := CROP_BOX_HEIGHT * scale |}, rotation v)
  | _, _ => None
  end.


Definition setRotation (r : JS.number) (v : Viewport) : Viewport :=
  {| zoom := zoom v; rotation := r; position := position v |}.

(** [handleManualRotationChange], on [e.target.value]. *)
Definition handleManualRotationChange (value : string) (v : Viewport) : Viewport :=
  let val := JS.parseFloat value in
  if negb (JS.isNaN val) then setRotation val v
  else if (String.eqb value "" || String.eqb value "-")%bool then
    setRotation (JS.Fin 0) v
  else v.

End Cropper.

(** ** CurveAdjustment.tsx: the tone-curve editor and its history *)

Module CurveAdjustment.

Local Open Scope Z_scope.

(** [Point] of [types.ts]: an input intensity and its output. *)
Record Point : Type := { x : Z; y : Z }.

Inductive Channel : Type := all | red | green | blue.

(** [CurveSettings]: one list of points per channel. *)
Record CurveSettings : Type :=
  { c_all : list Point; c_red : list Point;
    c_green : list Point; c_blue : list Point }.

(** [settings[channel]]. *)
Definition get (s : CurveSettings) (ch : Channel) : list Point :=
  match ch with
  | all => c_all s | red => c_red s | green => c_green s | blue => c_blue s
  end.

(** [{ ...settings, [channel]: points }]. *)
Definition set (s : CurveSettings) (ch : Channel) (pts : list Point) : CurveSettings :=
  match ch with
  | all => {| c_all := pts; c_red := c_red s; c_green := c_green s; c_blue := c_blue s |}
  | red => {| c_all := c_all s; c_red := pts; c_green := c_green s; c_blue := c_blue s |}
  | green => {| c_all := c_all s; c_red := c_red s; c_green := pts; c_blue := c_blue s |}
  | blue => {| c_all := c_all s; c_red := c_red s; c_green := c_green s; c_blue := pts |}
  end.

(** [DEFAULT_CURVES] of [App.tsx]. *)
Definition identity_curve : list Point :=
  [ {| x := 0; y := 0 |}; {| x := 255; y := 255 |} ].
Definition DEFAULT_CURVES : CurveSettings :=
  {| c_all := identity_curve; c_red := identity_curve;
     c_green := identity_curve; c_blue := identity_curve |}.

Definition Point_eq_dec (p q : Point) : {p = q} + {p <> q}.
Proof. decide equality; apply Z.eq_dec. Defined.

Definition CurveSettings_eq_dec (s t : CurveSettings) : {s = t} + {s <> t}.
Proof. decide equality; apply (list_eq_dec Point_eq_dec). Defined.

(** *** Arrays *)

(** [a[i]] for an integer [i]: [undefined] outside the array. *)
Definition index {A : Type} (a : list A) (i : Z) : option A :=
  if i <? 0 then None else nth_error a (Z.to_nat i).

(** [a.slice(0, e)]: a negative [e] counts from the end. *)
Definition slice0 {A : Type} (a : list A) (e : Z) : list A :=
  if e <? 0 then firstn (Z.to_nat (Z.of_nat (length a) + e)) a
  else firstn (Z.to_nat e) a.

(** [a.shift()]: the array without its first element. *)
Definition shift {A : Type} (a : list A) : list A := tl a.

(** [a.filter((_, i) => keep i)], counting from [i]. *)
Fixpoint filter_index {A : Type} (keep : nat -> bool) (i : nat) (a : list A) : list A :=
  match a with
  | [] => []
  | v :: r => if keep i then v :: filter_index keep (S i) r
              else filter_index keep (S i) r
  end.

(** [a.sort((p, q) => p.x - q.x)].  The sort of an array is stable, so
    with this comparator the result is fixed: ascending [x], points of
    equal [x] in the order they had.  Insertion from the right is such a
    sort: a point goes in front of the later points of equal [x]. *)
Fixpoint insert_by_x (p : Point) (l : list Point) : list Point :=
  match l with
  | [] => [p]
  | q :: r => if x p <=? x q then p :: q :: r else q :: insert_by_x p r
  end.

Fixpoint sort_by_x (l : list Point) : list Point :=
  match l with
  | [] => []
  | p :: r => insert_by_x p (sort_by_x r)
  end.

(** [a[i] = v] on a copy of [a]: inside the array the element is
    replaced, at [a.length] the array grows by one, and further out it
    would get holes, which no list of points represents ([None]). *)
Fixpoint assign (a : list Point) (i : nat) (v : Point) : option (list Point) :=
  match a, i with
  | [], O => Some [v]
  | [], S _ => None
  | _ :: r, O => Some (v :: r)
  | p :: r, S j => option_map (cons p) (assign r j v)
  end.

(** *** Edit history *)

Record History : Type :=
  { history : list CurveSettings; historyIndex : Z }.

(** [useState([])] and [useState(-1)]. *)
Definition empty_history : History := {| history := []; historyIndex := -1 |}.

(** The effect run once on mount: the initial history push. *)
Definition mount (settings : CurveSettings) (h : History) : History :=
  match history h with
  | [] => {| history := [settings]; historyIndex := 0 |}
  | _ :: _ => h
  end.

(** [JSON.stringify(current) === JSON.stringify(newSettings)]; the
    left side is [undefined], not a string, when there is no current
    entry. *)
Definition same_json (current : option CurveSettings) (newSettings : CurveSettings) : bool :=
  match current with
  | Some c => if CurveSettings_eq_dec c newSettings then true else false
  | None => false
  end.

Definition addToHistory (newSettings : CurveSettings) (h : History) : History :=
  let current := index (history h) (historyIndex h) in
  if same_json current newSettings then h
  else
    let newHistory := slice0 (history h) (historyIndex h + 1) ++ [newSettings] in
    let newHistory :=
      if 50 <? Z.of_nat (length newHistory) then shift newHistory else newHistory in
    {| history := newHistory;
       historyIndex := Z.of_nat (length newHistory) - 1 |}.

(** What a call of [undo] or [redo] did besides moving the index:
    nothing, [onChange] called with a snapshot, or an exception
    ([JSON.parse] of [undefined], when the index pointed outside the
    stack). *)
Inductive Emission : Type :=
| NoOp
| Emitted (snapshot : CurveSettings)
| Threw.

Definition emit (entry : option CurveSettings) : Emission :=
  match entry with Some s => Emitted s | None => Threw end.

Definition undo (h : History) : History * Emission :=
  if 0 <? historyIndex h then
    let prev := index (history h) (historyIndex h - 1) in
    ({| history := history h; historyIndex := historyIndex h - 1 |}, emit prev)
  else (h, NoOp).

Definition redo (h : History) : History * Emission :=
  if historyIndex h <? Z.of_nat (length (history h)) - 1 then
    let next := index (history h) (historyIndex h + 1) in
    ({| history := history h; historyIndex := historyIndex h + 1 |}, emit next)
  else (h, NoOp).

(** *** The editing surface *)

(** The props and state the handlers close over.  [settings] is the
    parent's [curveSettings]: [onChange] replaces it. *)
Record Editor : Type :=
  { settings : CurveSettings;
    activeChannel : Channel;
    hoveredPoint : option nat;
    draggingPoint : option nat;
    hist : History }.

Definition points (ed : Editor) : list Point := get (settings ed) (activeChannel ed).

Definition onChange (s : CurveSettings) (ed : Editor) : Editor :=
  {| settings := s; activeChannel := activeChannel ed;
     hoveredPoint := hoveredPoint ed; draggingPoint := draggingPoint ed;
     hist := hist ed |}.

Definition commit (s : CurveSettings) (ed : Editor) : Editor :=
  {| settings := settings ed; activeChannel := activeChannel ed;
     hoveredPoint := hoveredPoint ed; draggingPoint := draggingPoint ed;
     hist := addToHistory s (hist ed) |}.

Definition setDraggingPoint (d : option nat) (ed : Editor) : Editor :=
  {| settings := settings ed; activeChannel := activeChannel ed;
     hoveredPoint := hoveredPoint ed; draggingPoint := d;
     hist := hist ed |}.

(** A mouse event and the canvas' bounding rectangle, in CSS pixels. *)
Record MouseEvent : Type := { clientX : Q; clientY : Q }.
Record DOMRect : Type := { left : Q; top : Q; width : Q; height : Q }.

(** The curve coordinates of a mouse position, before any clamping, for a
    canvas of positive size (the division is the one of [Q]). *)
Definition curve_x (e : MouseEvent) (rect : DOMRect) : Z :=
  let scaleX := (255 / width rect)%Q in
  JS.round ((clientX e - left rect) * scaleX)%Q.

Definition curve_y (e : MouseEvent) (rect : DOMRect) : Z :=
  let scaleY := (255 / height rect)%Q in
  JS.round (255 - (clientY e - top rect) * scaleY)%Q.

(** [handleCanvasClick]; [rect] is [None] when the canvas ref is not
    attached. *)
Definition handleCanvasClick (e : MouseEvent) (rect : option DOMRect) (ed : Editor) : Editor :=
  match hoveredPoint ed with
  | Some _ => ed
  | None =>
      match rect with
      | None => ed
      | Some rect =>
          let x := curve_x e rect in
          let y := curve_y e rect in
          let newPoints := sort_by_x (points ed ++ [ {| x := x; y := y |} ]) in
          let newSettings := set (settings ed) (activeChannel ed) newPoints in
          commit newSettings (onChange newSettings ed)
      end
  end.

Definition handleMouseDown (i : nat) (ed : Editor) : Editor :=
  setDraggingPoint (Some i) ed.

(** The [mousemove] listener, [handleGlobalMove].  The result is [None]
    when the assignment leaves the data model: an index past the end of
    the array, or an end point that is not there. *)
Definition handleGlobalMove (e : MouseEvent) (rect : option DOMRect) (ed : Editor)
  : option Editor :=
  match draggingPoint ed, rect with
  | Some d, Some rect =>
      let x := JS.clamp255 (curve_x e rect) in
      let y := JS.clamp255 (curve_y e rect) in
      let newPoints :=
        if negb (Z.of_nat d =? 0) && negb (Z.of_nat d =? Z.of_nat (length (points ed)) - 1)
        then assign (points ed) d {| x := x; y := y |}
        else match nth_error (points ed) d with
             | Some p => assign (points ed) d {| x := CurveAdjustment.x p; y := y |}
             | None => None
             end in
      match newPoints with
      | Some newPoints =>
          let sorted := sort_by_x newPoints in
          Some (onChange (set (settings ed) (activeChannel ed) sorted) ed)
      | None => None
      end
  | _, _ => Some ed
  end.

(** The [mouseup] listener, [handleGlobalUp]. *)
Definition handleGlobalUp (ed : Editor) : Editor :=
  setDraggingPoint None
    (match draggingPoint ed with
     | Some _ => commit (settings ed) ed
     | None => ed
     end).

Definition removePoint (i : nat) (ed : Editor) : Editor :=
  if (Z.of_nat i =? 0) || (Z.of_nat i =? Z.of_nat (length (points ed)) - 1) then ed
  else
    let newPoints := filter_index (fun j => negb (Nat.eqb j i)) 0 (points ed) in
    let newSettings := set (settings ed) (activeChannel ed) newPoints in
    commit newSettings (onChange newSettings ed).

(** [undo] and [redo] as the buttons run them: an emitted snapshot
    reaches the parent through [onChange]. *)
Definition apply_emission (r : History * Emission) (ed : Editor) : Editor :=
  let ed' := {| settings := settings ed; activeChannel := activeChannel ed;
                hoveredPoint := hoveredPoint ed; draggingPoint := draggingPoint ed;
                hist := fst r |} in
  match snd r with
  | Emitted s => onChange s ed'
  | _ => ed'
  end.

End CurveAdjustment.

(** ** types.ts *)

Module Types.

(** Modelled from the spec: [types.ts] is not among the sources.  The
    screens of the application; [App.tsx] names these four members. *)
Inductive AppState : Type := UPLOAD | CROP | PROCESS | PREVIEW.

(** Modelled from the spec: the background-color selector, enumerated as
    white, blue and unchanged; [App.tsx] names the members. *)
Inductive BackgroundColor : Type := WHITE | BLUE | ORIGINAL.

(** Modelled from the spec: the clothing selector, none, two blazer
    variants and two shirt variants; [geminiService.ts] names the
    members. *)
Inductive ClothingOption : Type :=
| NONE | MALE_BLAZER | FEMALE_BLAZER | MALE_SHIRT | FEMALE_SHIRT.

Definition BackgroundColor_eqb (a b : BackgroundColor) : bool :=
  match a, b with
  | WHITE, WHITE | BLUE, BLUE | ORIGINAL, ORIGINAL => true
  | _, _ => false
  end.

Definition ClothingOption_eqb (a b : ClothingOption) : bool :=
  match a, b with
  | NONE, NONE | MALE_BLAZER, MALE_BLAZER | FEMALE_BLAZER, FEMALE_BLAZER
  | MALE_SHIRT, MALE_SHIRT | FEMALE_SHIRT, FEMALE_SHIRT => true
  | _, _ => false
  end.

End Types.

(** ** Asynchronous calls

  The pipeline awaits functions that live outside the modelled files:
  [applyCurves] and [generatePassportSheet] of [utils/canvasUtils], the
  model endpoint [ai.models.generateContent], and the timer behind
  [sleep].  A program is a tree: it ends with a value, or awaits a call
  and goes on with whatever the call answers.  A run feeds it the
  answers of a scripted world and logs the calls. *)

Module Async.

Import Types.

(** A thrown value, as far as the handlers look at it: its [message]. *)
Record Error : Type := { message : option string }.

(** A settled promise. *)
Inductive Result (A : Type) : Type :=
| Resolved (value : A)
| Rejected (reason : Error).
Arguments Resolved {A} value.
Arguments Rejected {A} reason.

(** A part of a candidate's content: the data of its [inlineData],
    [None] when the part has none. *)
Record Part : Type := { inlineData : option string }.

(** A response of the model: its [candidates], each the list of parts of
    its content. *)
Record Response : Type := { candidates : option (list (list Part)) }.

Inductive Call : Type :=
| ApplyCurves (image : string) (curves : CurveAdjustment.CurveSettings)
| GenerateContent (data : string) (color : BackgroundColor) (clothing : ClothingOption)
| Sleep (ms : Z)
| GeneratePassportSheet (photo : string).

Definition Answer (c : Call) : Type :=
  match c with
  | ApplyCurves _ _ => Result string
  | GenerateContent _ _ _ => Result Response
  | Sleep _ => unit
  | GeneratePassportSheet _ => Result string
  end.

Inductive Prog (A : Type) : Type :=
| Ret (a : A)
| Await (c : Call) (k : Answer c -> Prog A)
| OutOfFuel.
Arguments Ret {A} a.
Arguments Await {A} c k.
Arguments OutOfFuel {A}.

Fixpoint bind {A B : Type} (p : Prog A) (f : A -> Prog B) : Prog B :=
  match p with
  | Ret a => f a
  | Await c k => Await c (fun x => bind (k x) f)
  | OutOfFuel => OutOfFuel
  end.

Definition await (c : Call) : Prog (Answer c) := Await c Ret.

(** A program that never runs out of fuel, whatever it is answered. *)
Fixpoint total {A : Type} (p : Prog A) : Prop :=
  match p with
  | Ret _ => True
  | Await c k => forall x, total (k x)
  | OutOfFuel => False
  end.

(** The world of one run: what the three services will answer, in the
    order they are asked, and the calls made so far (the last call
    first). *)
Record World : Type :=
  { gradings : list (Result string);
    generations : list (Result Response);
    sheets : list (Result string);
    log : list Call }.

Definition answer (c : Call) (w : World) : option (Answer c * World) :=
  match c as c0 return option (Answer c0 * World) with
  | ApplyCurves _ _ =>
      match gradings w with
      | r :: rest => Some (r, {| gradings := rest; generations := generations w;
                                 sheets := sheets w; log := c :: log w |})
      | [] => None
      end
  | GenerateContent _ _ _ =>
      match generations w with
      | r :: rest => Some (r, {| gradings := gradings w; generations := rest;
                                 sheets := sheets w; log := c :: log w |})
      | [] => None
      end
  | Sleep _ =>
      Some (tt, {| gradings := gradings w; generations := generations w;
                   sheets := sheets w; log := c :: log w |})
  | GeneratePassportSheet _ =>
      match sheets w with
      | r :: rest => Some (r, {| gradings := gradings w; generations := generations w;
                                 sheets := rest; log := c :: log w |})
      | [] => None
      end
  end.

(** The run of a program in a world: its value and the world it leaves,
    or [None] when the script is too short. *)
Fixpoint run {A : Type} (p : Prog A) (w : World) : option (A * World) :=
  match p with
  | Ret a => Some (a, w)
  | Await c k =>
      match answer c w with
      | Some (x, w') => run (k x) w'
      | None => None
      end
  | OutOfFuel => None
  end.

(** The calls of a log, oldest first, and some views of them. *)
Definition calls (w : World) : list Call := rev (log w).

Definition is_generation (c : Call) : bool :=
  match c with GenerateContent _ _ _ => true | _ => false end.

Definition waits (cs : list Call) : list Z :=
  flat_map (fun c => match c with Sleep ms => [ms] | _ => [] end) cs.

Definition generation_count (cs : list Call) : nat :=
  length (filter is_generation cs).

End Async.

(** ** services/geminiService.ts

    The client object is built before the [try] block and is not part of
    the model; an attempt starts with the call of [generateContent]. *)

Module GeminiService.

Import Types Async.
Local Open Scope string_scope.

Definition MAX_RETRIES : nat := 3.
Definition INITIAL_DELAY : Z := 2000.

(** [imageBase64.replace(/^data:image\/(png|jpeg|jpg|webp);base64,/, "")]. *)
Definition strip (pre s : string) : option string :=
  if String.prefix pre s
  then Some (String.substring (String.length pre) (String.length s - String.length pre) s)
  else None.

Definition cleanBase64 (imageBase64 : string) : string :=
  match strip "data:image/png;base64," imageBase64 with
  | Some r => r
  | None =>
  match strip "data:image/jpeg;base64," imageBase64 with
  | Some r => r
  | None =>
  match strip "data:image/jpg;base64," imageBase64 with
  | Some r => r
  | None =>
  match strip "data:image/webp;base64," imageBase64 with
  | Some r => r
  | None => imageBase64
  end end end end.

(** The loop over [candidates[0].content.parts]: the first part with
    non-empty inline data. *)
Fixpoint first_image (parts : list Part) : option string :=
  match parts with
  | [] => None
  | part :: rest =>
      match inlineData part with
      | Some (String c d) => Some (String c d)
      | _ => first_image rest
      end
  end.

(** The [try] block after the call has settled: the data URI it
    returns, or what it throws. *)
Definition attempt (r : Result Response) : Result string :=
  match r with
  | Resolved response =>
      match candidates response with
      | Some (first :: _) =>
          match first_image first with
          | Some data => Resolved ("data:image/png;base64," ++ data)
          | None => Rejected {| message := Some "The AI returned a response but no image was found." |}
          end
      | _ => Rejected {| message := Some "The AI returned a response but no image was found." |}
      end
  | Rejected error => Rejected error
  end.

(** [error.message?.includes("429")]. *)
Definition rate_limited (error : Error) : bool :=
  match message error with
  | Some m => JS.includes "429" m
  | None => false
  end.

(** [processBackground] with its recursion bounded by [fuel].  The
    request (model name, prompt, cleaned image) is a function of the three
    arguments, which stand for it in the call. *)
Fixpoint processBackground_fuel (fuel : nat) (imageBase64 : string)
         (color : BackgroundColor) (clothing : ClothingOption)
         (retryCount : nat) : Prog (Result string) :=
  match fuel with
  | O => OutOfFuel
  | S fuel =>
      Await (GenerateContent (cleanBase64 imageBase64) color clothing) (fun r =>
        match attempt r with
        | Resolved uri => Ret (Resolved uri)
        | Rejected error =>
            if rate_limited error && (retryCount <? MAX_RETRIES)%nat then
              let delay := (INITIAL_DELAY * 2 ^ Z.of_nat retryCount)%Z in
              Await (Sleep delay) (fun _ =>
                processBackground_fuel fuel imageBase64 color clothing (retryCount + 1))
            else
              Ret (Rejected {| message :=
                Some (JS.or_else (message error)
                        "An unexpected error occurred during AI processing.") |})
        end)
  end.

(** One attempt more than [MAX_RETRIES] is always enough (lemma
    [processBackground_total] below). *)
Definition processBackground (imageBase64 : string) (color : BackgroundColor)
           (clothing : ClothingOption) (retryCount : nat) : Prog (Result string) :=
  processBackground_fuel (S (MAX_RETRIES - retryCount)) imageBase64 color clothing retryCount.

End GeminiService.

(** ** services/geminiService.ts: the instructions of the prompt

    The two parts of the prompt that depend on the arguments. *)

Module GeminiPrompt.

Import Types.
Local Open Scope string_scope.

(** [color === BackgroundColor.WHITE ? "pure white" : "saturated blue"]. *)
Definition colorName (color : BackgroundColor) : string :=
  if BackgroundColor_eqb color WHITE then "pure white" else "saturated blue".

(** The [switch] on the clothing; it has no [default], and [outfitDesc]
    starts as the empty string. *)
Definition outfitDesc (clothing : ClothingOption) : string :=
  match clothing with
  | MALE_BLAZER => "a professional black suit jacket with a white dress shirt and tie"
  | FEMALE_BLAZER => "a professional black formal blazer over a simple top"
  | MALE_SHIRT => "a crisp white formal button-down dress shirt"
  | FEMALE_SHIRT => "a professional white formal business shirt"
  | NONE => ""
  end.

Definition clothingPrompt (clothing : ClothingOption) : string :=
  if negb (ClothingOption_eqb clothing NONE) then
    "3. CLOTHING: Replace current clothes with " ++ outfitDesc clothing
      ++ ". Ensure a realistic fit and natural neck transition."
  else "3. CLOTHING: Keep original clothes exactly as they are.".

(** The line of the prompt on the background, up to the colour value
    that ends it. *)
Definition backgroundPrompt (color : BackgroundColor) : string :=
  "2. BACKGROUND: Replace the background with a SOLID, UNIFORM " ++ colorName color
    ++ " background. Use the color ".

End GeminiPrompt.

(** ** App.tsx: the generate pipeline *)

Module Pipeline.

Import Types Async.
Local Open Scope string_scope.

(** The state of [App] that the pipeline reads and writes. *)
Record App : Type :=
  { state : AppState;
    croppedImage : option string;
    processedImage : option string;
    finalSheet : option string;
    selectedColor : BackgroundColor;
    selectedClothing : ClothingOption;
    curveSettings : CurveAdjustment.CurveSettings;
    isProcessing : bool;
    error : option string }.

(** An [async] function over that state: it may await calls, update the
    state, and end by returning or by throwing. *)
Definition Task (A : Type) : Type := App -> Prog (App * Result A).

Definition ret {A : Type} (a : A) : Task A := fun app => Ret (app, Resolved a).

Definition bind {A B : Type} (t : Task A) (f : A -> Task B) : Task B :=
  fun app =>
    Async.bind (t app) (fun r =>
      match snd r with
      | Resolved a => f a (fst r)
      | Rejected e => Ret (fst r, Rejected e)
      end).

(** [await p] for a promise [p]: a rejection is thrown. *)
Definition awaiting {A : Type} (p : Prog (Result A)) : Task A :=
  fun app => Async.bind p (fun r => Ret (app, r)).

Definition update (f : App -> App) : Task unit :=
  fun app => Ret (f app, Resolved tt).

(** [try { body } catch (err) { handler err }]. *)
Definition try_catch {A : Type} (body : Task A) (handler : Error -> Task A) : Task A :=
  fun app =>
    Async.bind (body app) (fun r =>
      match snd r with
      | Resolved a => Ret (fst r, Resolved a)
      | Rejected e => handler e (fst r)
      end).

(** [try { body } finally { cleanup }], for a cleanup that only updates
    the state. *)
Definition finally {A : Type} (body : Task A) (cleanup : App -> App) : Task A :=
  fun app => Async.bind (body app) (fun r => Ret (cleanup (fst r), snd r)).

Notation "x <- t ;; k" := (bind t (fun x => k))
  (at level 61, t at next level, right associativity).
Notation "t ;;; k" := (bind t (fun _ => k))
  (at level 61, right associativity).

Definition setIsProcessing (b : bool) (app : App) : App :=
  {| state := state app; croppedImage := croppedImage app;
     processedImage := processedImage app; finalSheet := finalSheet app;
     selectedColor := selectedColor app; selectedClothing := selectedClothing app;
     curveSettings := curveSettings app; isProcessing := b; error := error app |}.

Definition setError (e : option string) (app : App) : App :=
  {| state := state app; croppedImage := croppedImage app;
     processedImage := processedImage app; finalSheet := finalSheet app;
     selectedColor := selectedColor app; selectedClothing := selectedClothing app;
     curveSettings := curveSettings app; isProcessing := isProcessing app; error := e |}.

Definition setProcessedImage (i : option string) (app : App) : App :=
  {| state := state app; croppedImage := croppedImage app;
     processedImage := i; finalSheet := finalSheet app;
     selectedColor := selectedColor app; selectedClothing := selectedClothing app;
     curveSettings := curveSettings app; isProcessing := isProcessing app;
     error := error app |}.

Definition setFinalSheet (i : option string) (app : App) : App :=
  {| state := state app; croppedImage := croppedImage app;
     processedImage := processedImage app; finalSheet := i;
     selectedColor := selectedColor app; selectedClothing := selectedClothing app;
     curveSettings := curveSettings app; isProcessing := isProcessing app;
     error := error app |}.

Definition setState (st : AppState) (app : App) : App :=
  {| state := st; croppedImage := croppedImage app;
     processedImage := processedImage app; finalSheet := finalSheet app;
     selectedColor := selectedColor app; selectedClothing := selectedClothing app;
     curveSettings := curveSettings app; isProcessing := isProcessing app;
     error := error app |}.

(** [selectedColor !== BackgroundColor.ORIGINAL ||
     selectedClothing !== ClothingOption.NONE]. *)
Definition needsAI (color : BackgroundColor) (clothing : ClothingOption) : bool :=
  negb (BackgroundColor_eqb color ORIGINAL) || negb (ClothingOption_eqb clothing NONE).

(** The [try] block of [handleProcess]. *)
Definition try_block (cropped : string) (curves : CurveAdjustment.CurveSettings)
           (color : BackgroundColor) (clothing : ClothingOption) : Task unit :=
  enhancedImage <- awaiting (await (ApplyCurves cropped curves)) ;;
  finalPhoto <-
    (if needsAI color clothing
     then awaiting (GeminiService.processBackground enhancedImage color clothing 0)
     else ret enhancedImage) ;;
  update (setProcessedImage (Some finalPhoto)) ;;;
  sheet <- awaiting (await (GeneratePassportSheet finalPhoto)) ;;
  update (setFinalSheet (Some sheet)) ;;;
  update (setState PREVIEW).

(** Its [catch] block, with the inner [try] and [catch]. *)
Definition catch_block (cropped : string) (curves : CurveAdjustment.CurveSettings)
           (err : Error) : Task unit :=
  let errorMessage := JS.or_else (message err) "Unknown error" in
  try_catch
    (fallbackPhoto <- awaiting (await (ApplyCurves cropped curves)) ;;
     sheet <- awaiting (await (GeneratePassportSheet fallbackPhoto)) ;;
     update (setFinalSheet (Some sheet)) ;;;
     update (setProcessedImage (Some fallbackPhoto)) ;;;
     update (setState PREVIEW) ;;;
     update (setError (Some ("AI enhancement failed: " ++ errorMessage
                               ++ ". Colored photo used."))))
    (fun innerErr =>
       update (setError (Some ("Total failure: " ++ errorMessage)))).

(** [handleProcess].  The values it closes over ([croppedImage],
    [curveSettings], [selectedColor], [selectedClothing]) are those of the
    render that created it, [app0]. *)
Definition handleProcess : Task unit :=
  fun app0 =>
  match JS.truthy (croppedImage app0) with
  | None => Ret (app0, Resolved tt)
  | Some cropped =>
    let curves := curveSettings app0 in
    let color := selectedColor app0 in
    let clothing := selectedClothing app0 in
    (update (setIsProcessing true) ;;;
     update (setError None) ;;;
     finally
       (try_catch (try_block cropped curves color clothing)
                  (catch_block cropped curves))
       (setIsProcessing false)) app0
  end.

End Pipeline.

(** ** App.tsx: the live preview

  The effect on [curveSettings, croppedImage, state, isAuthenticated]
  and the events around it.  The browser holds the armed timers; a timer
  that fires starts [applyCurves] on the values its callback closed
  over, and that call settles at some later event. *)

Module Preview.

Import Types Async.

(** What the callback of one timer closed over. *)
Record Job : Type :=
  { image : string; curves : CurveAdjustment.CurveSettings }.

Record Timer : Type := { id : nat; job : Job }.

Record State : Type :=
  { state : AppState;
    croppedImage : option string;
    isAuthenticated : bool;
    curveSettings : CurveAdjustment.CurveSettings;
    gradedPreview : option string;
    (** [previewUpdateTimeout.current]; [None] is [null]. *)
    previewUpdateTimeout : option nat;
    (** Whether the last run of the effect returned its cleanup. *)
    cleanup : bool;
    (** The timers armed in the browser, and the next timer id. *)
    timers : list Timer;
    nextId : nat;
    (** The [applyCurves] calls not settled yet, in the order they were
        started. *)
    inflight : list Job;
    (** Ghost: the job whose result [gradedPreview] holds, if any. *)
    shown : option Job }.

Definition clearTimeout (i : nat) (ts : list Timer) : list Timer :=
  filter (fun t => negb (Nat.eqb (id t) i)) ts.

(** [if (ref.current) window.clearTimeout(ref.current)]: [null] and 0
    are falsy (the ids that [setTimeout] returns are positive). *)
Definition clear_current (ref : option nat) (ts : list Timer) : list Timer :=
  match ref with
  | Some (S i) => clearTimeout (S i) ts
  | _ => ts
  end.

(** One re-run of the effect after a dependency changed: the cleanup of
    the previous run, if it returned one, and then the body. *)
Definition effect (s : State) : State :=
  let ts := if cleanup s then clear_current (previewUpdateTimeout s) (timers s)
            else timers s in
  match state s, JS.truthy (croppedImage s), isAuthenticated s with
  | PROCESS, Some cropped, true =>
      let ts := clear_current (previewUpdateTimeout s) ts in
      let t := {| id := nextId s;
                  job := {| image := cropped; curves := curveSettings s |} |} in
      {| state := state s; croppedImage := croppedImage s;
         isAuthenticated := isAuthenticated s; curveSettings := curveSettings s;
         gradedPreview := gradedPreview s;
         previewUpdateTimeout := Some (nextId s);
         cleanup := true;
         timers := ts ++ [t];
         nextId := S (nextId s);
         inflight := inflight s;
         shown := shown s |}
  | _, _, _ =>
      {| state := state s; croppedImage := croppedImage s;
         isAuthenticated := isAuthenticated s; curveSettings := curveSettings s;
         gradedPreview := gradedPreview s;
         previewUpdateTimeout := previewUpdateTimeout s;
         cleanup := false;
         timers := ts;
         nextId := nextId s;
         inflight := inflight s;
         shown := shown s |}
  end.

Inductive Event : Type :=
(** [setCurveSettings]: an edit, always with a fresh object. *)
| Edit (settings : CurveAdjustment.CurveSettings)
(** [handleCropComplete]. *)
| CropComplete (cropped : string)
(** [setState], as of "Re-adjust Crop Area". *)
| Navigate (st : AppState)
(** The timer with this id fires. *)
| Fires (i : nat)
(** The [n]-th call in flight settles. *)
| Settles (n : nat) (r : Result string).

Definition AppState_eqb (a b : AppState) : bool :=
  match a, b with
  | UPLOAD, UPLOAD | CROP, CROP | PROCESS, PROCESS | PREVIEW, PREVIEW => true
  | _, _ => false
  end.

Definition remove_nth {A : Type} (n : nat) (l : list A) : list A :=
  firstn n l ++ skipn (S n) l.

Definition step (s : State) (e : Event) : State :=
  match e with
  | Edit settings =>
      effect {| state := state s; croppedImage := croppedImage s;
                isAuthenticated := isAuthenticated s; curveSettings := settings;
                gradedPreview := gradedPreview s;
                previewUpdateTimeout := previewUpdateTimeout s;
                cleanup := cleanup s; timers := timers s; nextId := nextId s;
                inflight := inflight s; shown := shown s |}
  | CropComplete cropped =>
      let s' := {| state := PROCESS; croppedImage := Some cropped;
                   isAuthenticated := isAuthenticated s;
                   curveSettings := curveSettings s;
                   gradedPreview := Some cropped;
                   previewUpdateTimeout := previewUpdateTimeout s;
                   cleanup := cleanup s; timers := timers s; nextId := nextId s;
                   inflight := inflight s; shown := None |} in
      let same := AppState_eqb (state s) PROCESS
                  && match croppedImage s with
                     | Some c => String.eqb c cropped
                     | None => false
                     end in
      if same then s' else effect s'
  | Navigate st =>
      if AppState_eqb (state s) st then s
      else effect {| state := st; croppedImage := croppedImage s;
                     isAuthenticated := isAuthenticated s;
                     curveSettings := curveSettings s;
                     gradedPreview := gradedPreview s;
                     previewUpdateTimeout := previewUpdateTimeout s;
                     cleanup := cleanup s; timers := timers s; nextId := nextId s;
                     inflight := inflight s; shown := shown s |}
  | Fires i =>
      match find (fun t => Nat.eqb (id t) i) (timers s) with
      | Some t =>
          {| state := state s; croppedImage := croppedImage s;
             isAuthenticated := isAuthenticated s; curveSettings := curveSettings s;
             gradedPreview := gradedPreview s;
             previewUpdateTimeout := previewUpdateTimeout s;
             cleanup := cleanup s;
             timers := clearTimeout i (timers s);
             nextId := nextId s;
             inflight := inflight s ++ [job t];
             shown := shown s |}
      | None => s
      end
  | Settles n r =>
      match nth_error (inflight s) n with
      | Some j =>
          {| state := state s; croppedImage := croppedImage s;
             isAuthenticated := isAuthenticated s; curveSettings := curveSettings s;
             gradedPreview := match r with
                              | Resolved graded => Some graded
                              | Rejected _ => gradedPreview s
                              end;
             previewUpdateTimeout := previewUpdateTimeout s;
             cleanup := cleanup s; timers := timers s; nextId := nextId s;
             inflight := remove_nth n (inflight s);
             shown := match r with
                      | Resolved _ => Some j
                      | Rejected _ => shown s
                      end |}
      | None => s
      end
  end.

Definition steps (s : State) (es : list Event) : State := fold_left step es s.

(** The application as it starts, signed in and on the upload screen. *)
Definition start : State :=
  {| state := UPLOAD; croppedImage := None; isAuthenticated := true;
     curveSettings := CurveAdjustment.DEFAULT_CURVES;
     gradedPreview := None; previewUpdateTimeout := None; cleanup := false;
     timers := []; nextId := 1; inflight := []; shown := None |}.

(** Nothing armed and nothing in flight. *)
Definition quiescent (s : State) : Prop := timers s = [] /\ inflight s = [].

(** The job the latest values call for. *)
Definition current (s : State) : option Job :=
  match JS.truthy (croppedImage s) with
  | Some c => Some {| image := c; curves := curveSettings s |}
  | None => None
  end.

(** The preview on screen is the one computed from the latest values. *)
Definition up_to_date (s : State) : Prop := shown s = current s.

End Preview.

(** ** Cropper.tsx: panning and the rotation slider *)

Module CropperControls.

Import Cropper.
Local Open Scope Q_scope.

Record PointerEvent : Type := { button : Z; clientX : Q; clientY : Q }.

(** The viewport together with the drag state: [isDragging] and
    [dragStartRef.current]. *)
Record Session : Type :=
  { view : Viewport; isDragging : bool; dragStartRef : Position }.

Definition mounted : Session :=
  {| view := initial; isDragging := false; dragStartRef := {| px := 0; py := 0 |} |}.

Definition setPosition (p : Position) (v : Viewport) : Viewport :=
  {| zoom := zoom v; rotation := rotation v; position := p |}.

Definition handlePointerDown (e : PointerEvent) (s : Session) : Session :=
  if negb (button e =? 0)%Z then s
  else
    {| view := view s;
       isDragging := true;
       dragStartRef := {| px := clientX e - px (position (view s));
                          py := clientY e - py (position (view s)) |} |}.

Definition handlePointerMove (e : PointerEvent) (s : Session) : Session :=
  if negb (isDragging s) then s
  else
    {| view := setPosition {| px := clientX e - px (dragStartRef s);
                              py := clientY e - py (dragStartRef s) |} (view s);
       isDragging := isDragging s;
       dragStartRef := dragStartRef s |}.

Definition handlePointerUp (e : PointerEvent) (s : Session) : Session :=
  {| view := view s; isDragging := false; dragStartRef := dragStartRef s |}.

(** [Apply & Continue] on the session's viewport. *)
Definition crop (imageRef : option Image) (containerRef : option Container) (s : Session)
  : option (CropRegion * JS.number) :=
  handleCrop imageRef containerRef (view s).




End CropperControls.

(** ** CurveAdjustment.tsx: what is rendered, and whole gestures *)

Module CurveAdjustmentView.

Import CurveAdjustment.
Local Open Scope Z_scope.

(** [disabled={historyIndex <= 0}] of the undo button. *)
Definition undo_disabled (h : History) : bool := historyIndex h <=? 0.

(** [disabled={historyIndex >= history.length - 1}] of the redo button. *)
Definition redo_disabled (h : History) : bool :=
  historyIndex h >=? Z.of_nat (length (history h)) - 1.

(** A click on a button: nothing happens while it is disabled. *)
Definition clickUndo (ed : Editor) : Editor :=
  if undo_disabled (hist ed) then ed else apply_emission (undo (hist ed)) ed.

Definition clickRedo (ed : Editor) : Editor :=
  if redo_disabled (hist ed) then ed else apply_emission (redo (hist ed)) ed.

(** The effect run once on mount, on the editor. *)
Definition mounted (ed : Editor) : Editor :=
  {| settings := settings ed; activeChannel := activeChannel ed;
     hoveredPoint := hoveredPoint ed; draggingPoint := draggingPoint ed;
     hist := mount (settings ed) (hist ed) |}.

(** Where the handle of a point is drawn: [left: (x / 255) * 100 %] and
    [bottom: (y / 255) * 100 %] of the box that the canvas fills, the
    handle centred on that spot by its [translate(-50%, 50%)].  The
    result is the centre in client coordinates. *)
Definition handle_centre (p : Point) (rect : DOMRect) : MouseEvent :=
  let left_percent := (inject_Z (x p) / 255 * 100)%Q in
  let bottom_percent := (inject_Z (y p) / 255 * 100)%Q in
  {| clientX := (left rect + left_percent / 100 * width rect)%Q;
     clientY := (top rect + height rect - bottom_percent / 100 * height rect)%Q |}.

(** The [mousemove] events of one drag, in turn. *)
Fixpoint moves (es : list MouseEvent) (rect : option DOMRect) (ed : Editor) : option Editor :=
  match es with
  | [] => Some ed
  | e :: rest =>
      match handleGlobalMove e rect ed with
      | Some ed' => moves rest rect ed'
      | None => None
      end
  end.

(** A whole drag: the button goes down on handle [i], the pointer moves,
    the button goes up. *)
Definition gesture (i : nat) (es : list MouseEvent) (rect : option DOMRect) (ed : Editor)
  : option Editor :=
  option_map handleGlobalUp (moves es rect (handleMouseDown i ed)).

End CurveAdjustmentView.

(** ** App.tsx: sign-in, reset and the first two screens *)

Module AppShell.

Import Types Async.
Local Open Scope string_scope.

(** [localStorage], as far as the application uses it: the value under
    the key [passport_ai_session], [None] when the key is absent. *)
Definition Storage : Type := option string.

Record Auth : Type :=
  { isAuthenticated : bool;
    loginEmail : string;
    loginPassword : string;
    staySignedIn : bool;
    showPassword : bool;
    loginError : bool;
    isAuthChecking : bool }.

Record Work : Type :=
  { state : AppState;
    originalImage : option string;
    previewImage : option string;
    croppedImage : option string;
    gradedPreview : option string;
    processedImage : option string;
    finalSheet : option string;
    selectedColor : BackgroundColor;
    selectedClothing : ClothingOption;
    curveSettings : CurveAdjustment.CurveSettings;
    isProcessing : bool;
    error : option string }.

(** The [useState] defaults. *)
Definition initial_auth : Auth :=
  {| isAuthenticated := false; loginEmail := ""; loginPassword := "";
     staySignedIn := false; showPassword := false; loginError := false;
     isAuthChecking := true |}.

Definition initial_work : Work :=
  {| state := UPLOAD; originalImage := None; previewImage := None;
     croppedImage := None; gradedPreview := None; processedImage := None;
     finalSheet := None; selectedColor := WHITE; selectedClothing := NONE;
     curveSettings := CurveAdjustment.DEFAULT_CURVES;
     isProcessing := false; error := None |}.

Definition setIsAuthenticated (b : bool) (a : Auth) : Auth :=
  {| isAuthenticated := b; loginEmail := loginEmail a; loginPassword := loginPassword a;
     staySignedIn := staySignedIn a; showPassword := showPassword a;
     loginError := loginError a; isAuthChecking := isAuthChecking a |}.

Definition setLoginError (b : bool) (a : Auth) : Auth :=
  {| isAuthenticated := isAuthenticated a; loginEmail := loginEmail a;
     loginPassword := loginPassword a; staySignedIn := staySignedIn a;
     showPassword := showPassword a; loginError := b;
     isAuthChecking := isAuthChecking a |}.

Definition setIsAuthChecking (b : bool) (a : Auth) : Auth :=
  {| isAuthenticated := isAuthenticated a; loginEmail := loginEmail a;
     loginPassword := loginPassword a; staySignedIn := staySignedIn a;
     showPassword := showPassword a; loginError := loginError a;
     isAuthChecking := b |}.

(** The effect that checks for an existing session. *)
Definition checkSession (storage : Storage) (a : Auth) : Auth :=
  let session := storage in
  setIsAuthChecking false
    (match session with
     | Some v => if String.eqb v "authenticated" then setIsAuthenticated true a else a
     | None => a
     end).

Definition VALID_EMAIL : string := "artcentrelive@gmail.com".
Definition VALID_PASS : string := "gpcentre.art".

Definition handleLogin (a : Auth) (storage : Storage) : Auth * Storage :=
  if String.eqb (loginEmail a) VALID_EMAIL && String.eqb (loginPassword a) VALID_PASS then
    (setLoginError false (setIsAuthenticated true a),
     if staySignedIn a then Some "authenticated" else storage)
  else (setLoginError true a, storage).

(** [handleReset]. *)
Definition handleReset (w : Work) : Work :=
  {| state := UPLOAD; originalImage := None; previewImage := None;
     croppedImage := None; gradedPreview := None; processedImage := None;
     finalSheet := None; selectedColor := WHITE; selectedClothing := NONE;
     curveSettings := CurveAdjustment.DEFAULT_CURVES;
     isProcessing := isProcessing w; error := None |}.

(** [handleLogout]: the flag, the stored session, and the reset. *)
Definition handleLogout (a : Auth) (w : Work) (storage : Storage) : Auth * Work * Storage :=
  (setIsAuthenticated false a, handleReset w, None).

(** The three things [App] can render. *)
Inductive Screen : Type := Nothing | LoginScreen | MainScreen.

Definition screen (a : Auth) : Screen :=
  if isAuthChecking a then Nothing
  else if negb (isAuthenticated a) then LoginScreen
  else MainScreen.

(** [handleImageSelected], given how [createPreviewImage] settles. *)
Definition handleImageSelected (base64 : string) (preview : Result string) (w : Work) : Work :=
  let chosen := match preview with
                | Resolved p => p
                | Rejected _ => base64
                end in
  {| state := CROP; originalImage := Some base64; previewImage := Some chosen;
     croppedImage := croppedImage w; gradedPreview := gradedPreview w;
     processedImage := processedImage w; finalSheet := finalSheet w;
     selectedColor := selectedColor w; selectedClothing := selectedClothing w;
     curveSettings := curveSettings w; isProcessing := false; error := None |}.

(** [handleCropComplete]. *)
Definition handleCropComplete (cropped : string) (w : Work) : Work :=
  {| state := PROCESS; originalImage := originalImage w; previewImage := previewImage w;
     croppedImage := Some cropped; gradedPreview := Some cropped;
     processedImage := processedImage w; finalSheet := finalSheet w;
     selectedColor := selectedColor w; selectedClothing := selectedClothing w;
     curveSettings := curveSettings w; isProcessing := isProcessing w;
     error := error w |}.

(** Which of the four panels of the main screen is shown: the upload
    panel, the cropper (only with a preview image), the process panel
    (only with a cropped image), the result (only with a sheet), or none
    of them. *)
Inductive Panel : Type :=
| UploadPanel
| CropPanel (imageSrc : string)
| ProcessPanel (cropped : string)
| ResultPanel (sheet : string)
| NoPanel.

Definition panel (w : Work) : Panel :=
  match state w with
  | UPLOAD => UploadPanel
  | CROP => match JS.truthy (previewImage w) with
            | Some src => CropPanel src
            | None => NoPanel
            end
  | PROCESS => match JS.truthy (croppedImage w) with
               | Some c => ProcessPanel c
               | None => NoPanel
               end
  | PREVIEW => match JS.truthy (finalSheet w) with
               | Some sheet => ResultPanel sheet
               | None => NoPanel
               end
  end.

(** The part of the state that [handleProcess] works on. *)
Definition pipeline_view (w : Work) : Pipeline.App :=
  {| Pipeline.state := state w;
     Pipeline.croppedImage := croppedImage w;
     Pipeline.processedImage := processedImage w;
     Pipeline.finalSheet := finalSheet w;
     Pipeline.selectedColor := selectedColor w;
     Pipeline.selectedClothing := selectedClothing w;
     Pipeline.curveSettings := curveSettings w;
     Pipeline.isProcessing := isProcessing w;
     Pipeline.error := error w |}.

End AppShell.

(* ================================================================== *)
(** * Part II.  Properties                                             *)
(* ================================================================== *)

Unset Implicit Arguments.

(** ** Crop geometry *)

Section CropGeometry.

Import Cropper.
Local Open Scope Q_scope.

Lemma CROP_BOX_WIDTH_value : CROP_BOX_WIDTH == 980 # 3.
Proof. reflexivity. Qed.

(** At zoom 1 and without pan the crop box sits in the middle of the
    image: the region has the size of the box and starts half the
    difference of the sizes inside the image, whatever the container. *)
Lemma handleCrop_centred (img : Image) (container : Container) (v : Viewport) :
  zoom v == 1 -> px (position v) == 0 -> py (position v) == 0 ->
  ~ naturalWidth img == 0 ->
  exists region,
    handleCrop (Some img) (Some container) v = Some (region, rotation v) /\
    x region == (naturalWidth img - CROP_BOX_WIDTH) / 2 /\
    y region == (naturalHeight img - CROP_BOX_HEIGHT) / 2 /\
    width region == CROP_BOX_WIDTH /\
    height region == CROP_BOX_HEIGHT.
Proof.
  intros Hz Hx Hy Hw.
  eexists; split; [reflexivity|]; cbn [x y width height].
  rewrite Hz, Hx, Hy.
  split; [|split; [|split]]; field; exact Hw.
Qed.

(** C1.  Crop round-trip: at zoom 1, rotation 0 and pan (0,0), for an
    image whose natural width and height equal the width and height of
    the crop box, the region that [handleCrop] computes is the full
    image: x = 0, y = 0, width = naturalWidth, height = naturalHeight
    (and the rotation handed over is 0). *)
Theorem crop_round_trip (img : Image) (container : Container) (v : Viewport) :
  zoom v == 1 ->
  rotation v = JS.Fin 0 ->
  px (position v) == 0 -> py (position v) == 0 ->
  naturalWidth img == CROP_BOX_WIDTH ->
  naturalHeight img == CROP_BOX_HEIGHT ->
  exists region,
    handleCrop (Some img) (Some container) v = Some (region, JS.Fin 0) /\
    x region == 0 /\
    y region == 0 /\
    width region == naturalWidth img /\
    height region == naturalHeight img.
Proof.
  intros Hz Hr Hx Hy Hw Hh.
  assert (Hw0 : ~ naturalWidth img == 0).
  { rewrite Hw. discriminate. }
  destruct (handleCrop_centred img container v Hz Hx Hy Hw0)
    as (region & Hrun & Ex & Ey & Ew & Eh).
  exists region. rewrite <- Hr. split; [exact Hrun|].
  rewrite Ex, Ey, Ew, Eh, Hw, Hh.
  split; [|split; [|split]]; reflexivity.
Qed.

Definition box_sized_image : Image :=
  {| naturalWidth := 980 # 3; naturalHeight := 420 |}.

Definition preview_container : Container :=
  {| clientWidth := 768; clientHeight := 520 |}.

Lemma crop_round_trip_witness :
  exists region,
    handleCrop (Some box_sized_image) (Some preview_container) initial
      = Some (region, JS.Fin 0) /\
    x region == 0 /\ y region == 0 /\
    width region == 980 # 3 /\ height region == 420.
Proof.
  apply (crop_round_trip box_sized_image preview_container initial);
    reflexivity.
Defined.

(** The two heuristics of the auto-frame, as the specification words
    them: a dimension of the crop box over the natural dimension, times
    an over-fill factor. *)
Definition widthZoomHeuristic (naturalW : Q) : Q := CROP_BOX_WIDTH / naturalW * (28 # 10).
Definition heightZoomHeuristic (naturalH : Q) : Q := CROP_BOX_HEIGHT / naturalH * (15 # 10).

Lemma heuristic_positive (box natural factor : Q) :
  0 < box -> 0 < natural -> 0 < factor -> 0 < box / natural * factor.
Proof.
  intros Hb Hn Hf.
  apply Qmult_lt_0_compat; [|exact Hf].
  apply Qlt_shift_div_l; [exact Hn|].
  rewrite Qmult_0_l. exact Hb.
Qed.

(** C8.  Auto-frame initialization: for an image of natural dimensions
    (naturalW, naturalH), the initial zoom is
    min(max(widthZoomHeuristic, heightZoomHeuristic), 4.0), the initial
    horizontal pan is 0 and the initial vertical pan is
    -(naturalH * zoom * 0.18), that is 18% of the rendered height upward.
    The zoom lies in (0, 4]; the rotation is left alone. *)
Theorem auto_frame_initialization (img : Image) (v : Viewport) :
  0 < naturalWidth img -> 0 < naturalHeight img ->
  let v' := setupAutoCrop img v in
  zoom v' == Qmin (Qmax (widthZoomHeuristic (naturalWidth img))
                        (heightZoomHeuristic (naturalHeight img))) 4 /\
  px (position v') == 0 /\
  py (position v') == - (naturalHeight img * zoom v' * (18 # 100)) /\
  py (position v') == - ((18 # 100) * (naturalHeight img * zoom v')) /\
  0 < zoom v' /\ zoom v' <= 4 /\
  rotation v' = rotation v.
Proof.
  intros Hw Hh v'. subst v'.
  unfold setupAutoCrop; cbn [zoom px py position rotation].
  split; [reflexivity|].
  split; [reflexivity|].
  split; [reflexivity|].
  split; [ring|].
  split; [|split; [apply Q.le_min_r | reflexivity]].
  apply Q.min_glb_lt; [|reflexivity].
  apply Q.max_lt_iff. left.
  apply heuristic_positive; [reflexivity | exact Hw | reflexivity].
Qed.

Definition portrait_photo : Image :=
  {| naturalWidth := 1200; naturalHeight := 1600 |}.

Lemma auto_frame_initialization_witness :
  zoom (setupAutoCrop portrait_photo initial) == 343 # 450 /\
  px (position (setupAutoCrop portrait_photo initial)) == 0 /\
  py (position (setupAutoCrop portrait_photo initial)) == - (5488 # 25).
Proof.
  destruct (auto_frame_initialization portrait_photo initial)
    as (Hz & Hx & Hy & _); [reflexivity | reflexivity |].
  split; [rewrite Hz; reflexivity|].
  split; [exact Hx|].
  rewrite Hy, Hz. reflexivity.
Defined.

End CropGeometry.

(** ** Manual rotation entry *)

Section RotationEntry.

Import Cropper NumberField.
Local Open Scope string_scope.

(** A session whose image has been turned by 45 degrees. *)
Definition tilted : Viewport :=
  {| zoom := 1; rotation := JS.Fin 45; position := {| px := 0; py := 0 |} |}.

Lemma parseFloat_empty : JS.parseFloat "" = JS.NaN.
Proof. reflexivity. Qed.

Lemma parseFloat_minus : JS.parseFloat "-" = JS.NaN.
Proof. reflexivity. Qed.

(** Text after the literal is ignored, white space before it is skipped
    (here a tab and a no-break space), the value is rounded to the
    nearest double, and a decimal beyond the doubles is an infinity. *)
Lemma parseFloat_samples :
  JS.parseFloat "  12.5px" = JS.Fin (25 # 2) /\
  JS.parseFloat (String (ascii_of_nat 9)
                   (String (ascii_of_nat 194) (String (ascii_of_nat 160) "-7.")))
    = JS.Fin (- (7)) /\
  JS.parseFloat "9007199254740993" = JS.Fin 9007199254740992 /\
  JS.parseFloat "1e400" = JS.Inf false /\
  JS.parseFloat "-1e400" = JS.Inf true /\
  JS.parseFloat "1e-400" = JS.Fin 0 /\
  JS.parseFloat "-Infinity" = JS.Inf true /\
  JS.parseFloat ".e5" = JS.NaN.
Proof. repeat split; reflexivity. Qed.

(** *** What the handler does with a parsed and with an unparsed value *)

Lemma entry_parsed (value : string) (v : Viewport) :
  JS.isNaN (JS.parseFloat value) = false ->
  handleManualRotationChange value v = setRotation (JS.parseFloat value) v.
Proof. intros E. unfold handleManualRotationChange. rewrite E. reflexivity. Qed.

Lemma entry_blank (value : string) (v : Viewport) :
  value = "" \/ value = "-" ->
  handleManualRotationChange value v = setRotation (JS.Fin 0) v.
Proof. intros [-> | ->]; reflexivity. Qed.

Lemma entry_keeps_zoom_and_pan (value : string) (v : Viewport) :
  zoom (handleManualRotationChange value v) = zoom v /\
  position (handleManualRotationChange value v) = position v.
Proof.
  unfold handleManualRotationChange.
  destruct (negb (JS.isNaN (JS.parseFloat value))); [split; reflexivity|].
  destruct (String.eqb value "" || String.eqb value "-")%bool; split; reflexivity.
Qed.

(** *** A valid floating-point number parses *)

Lemma to_double_number (negative : bool) (magnitude : Q) :
  JS.isNaN (JS.to_double negative magnitude) = false.
Proof.
  unfold JS.to_double. destruct (Qle_bool magnitude 0); [reflexivity|].
  cbv zeta. destruct (Qle_bool (Qpower 2 1024) _); reflexivity.
Qed.

(** The count of the digits read does not depend on the value read so
    far, and neither does what is left. *)
Lemma digits_count (s : string) :
  forall (acc : Z) (n : nat),
    snd (fst (JS.digits s acc n)) = (n + snd (fst (JS.digits s 0%Z 0%nat)))%nat /\
    snd (JS.digits s acc n) = snd (JS.digits s 0%Z 0%nat).
Proof.
  induction s as [|c r IH]; intros acc n; cbn [JS.digits].
  - cbn. split; [lia | reflexivity].
  - destruct (JS.digit_of c) as [d|]; [|cbn; split; [lia | reflexivity]].
    destruct (IH (10 * acc + d)%Z (S n)) as [E1 E2].
    destruct (IH (10 * 0 + d)%Z 1%nat) as [F1 F2].
    rewrite E1, E2, F1, F2. split; [lia | reflexivity].
Qed.

(** A string does not start with a digit: no digit is read. *)
Lemma digits_none (c : ascii) (r : string) (acc : Z) (n : nat) :
  JS.digit_of c = None -> JS.digits (String c r) acc n = (acc, n, String c r).
Proof. intros E. cbn [JS.digits]. rewrite E. reflexivity. Qed.

Lemma digit_not_space (c : ascii) (d : Z) :
  JS.digit_of c = Some d ->
  JS.is_space c = false /\ (forall b, JS.is_space2 c b = false) /\
  (forall b e, JS.is_space3 c b e = false) /\
  Ascii.eqb c "-" = false /\ Ascii.eqb c "+" = false /\ Ascii.eqb c "." = false /\
  Ascii.eqb c "I" = false.
Proof.
  unfold JS.digit_of, JS.is_space, JS.is_space2, JS.is_space3.
  destruct ((48 <=? nat_of_ascii c)%nat && (nat_of_ascii c <=? 57)%nat) eqn:E;
    [|discriminate].
  intros _. apply andb_prop in E. destruct E as [Hlo Hhi].
  apply Nat.leb_le in Hlo. apply Nat.leb_le in Hhi.
  assert (Hne : forall k, (k < 48 \/ 57 < k)%nat -> (nat_of_ascii c =? k)%nat = false)
    by (intros k Hk; apply Nat.eqb_neq; lia).
  assert (Hch : forall k : ascii,
             (nat_of_ascii k < 48 \/ 57 < nat_of_ascii k)%nat -> Ascii.eqb c k = false).
  { intros k Hk. apply Ascii.eqb_neq. intros ->. lia. }
  split.
  { rewrite (Hne 32%nat) by lia.
    destruct (Nat.leb_spec (nat_of_ascii c) 13); [lia|]. rewrite andb_false_r. reflexivity. }
  split; [intros b; rewrite (Hne 194%nat) by lia; reflexivity|].
  split.
  { intros b e. cbv zeta.
    rewrite (Hne 225%nat), (Hne 226%nat), (Hne 227%nat), (Hne 239%nat) by lia.
    reflexivity. }
  repeat split; apply Hch; cbn; lia.
Qed.

Lemma skip_spaces_head (a : ascii) (r : string) :
  JS.is_space a = false -> (forall b, JS.is_space2 a b = false) ->
  (forall b c, JS.is_space3 a b c = false) ->
  JS.skip_spaces (String a r) = String a r.
Proof.
  intros H1 H2 H3. cbn [JS.skip_spaces]. rewrite H1.
  destruct r as [|b r2]; [reflexivity|]. rewrite H2.
  destruct r2 as [|c r3]; [reflexivity|]. rewrite H3. reflexivity.
Qed.

(** The head of a valid number without its sign: a digit or the point. *)
Lemma unsigned_number_head (s : string) :
  unsigned_number s = true ->
  exists c r, s = String c r /\ (Ascii.eqb c "." = true \/ exists d, JS.digit_of c = Some d).
Proof.
  destruct s as [|c r]; [discriminate|]. intros H. exists c, r. split; [reflexivity|].
  destruct (JS.digit_of c) as [d|] eqn:Ed; [right; exists d; reflexivity|]. left.
  unfold unsigned_number in H. rewrite (digits_none c r 0%Z 0%nat Ed) in H.
  destruct (Ascii.eqb c "."); [reflexivity|]. cbn in H. discriminate.
Qed.

(** The literal of a valid number is read as a number. *)
Lemma decimal_of_number (negative : bool) (s : string) :
  unsigned_number s = true -> JS.isNaN (JS.decimal negative s) = false.
Proof.
  intros H. destruct (unsigned_number_head s H) as (c & r & -> & Hc).
  assert (HI : String.prefix "Infinity" (String c r) = false).
  { cbn [String.prefix]. destruct (ascii_dec "I" c) as [<- | _]; [|reflexivity].
    destruct Hc as [Hc | (d & Hc)]; discriminate. }
  unfold JS.decimal. rewrite HI. unfold unsigned_number in H.
  destruct (JS.digits (String c r) 0%Z 0%nat) as [[int_part n_int] s1].
  assert (Hall : forall mantissa n_all s2,
             (0 < n_all)%nat ->
             JS.isNaN (match n_all with
                       | O => JS.NaN
                       | S _ =>
                           JS.to_double negative
                             (inject_Z mantissa
                              * Qpower 10 (JS.exponent s2 - Z.of_nat (n_all - n_int)))%Q
                       end) = false).
  { intros mantissa [|k] s2 Hk; [lia|]. apply to_double_number. }
  destruct s1 as [|c1 r1].
  - apply Hall. destruct n_int; [discriminate | lia].
  - destruct (Ascii.eqb c1 ".").
    + destruct (digits_count r1 int_part n_int) as [E1 _].
      destruct (JS.digits r1 int_part n_int) as [[mantissa n_all] s2].
      destruct (JS.digits r1 0%Z 0%nat) as [[m0 n_frac] r'].
      cbn [fst snd] in E1. apply Hall.
      destruct n_frac; [discriminate | lia].
    + apply Hall. destruct n_int; [discriminate | lia].
Qed.

Lemma parseFloat_of_number (value : string) :
  valid_floating_point_number value = true -> JS.isNaN (JS.parseFloat value) = false.
Proof.
  destruct value as [|c r]; [discriminate|]. cbn [valid_floating_point_number].
  unfold JS.parseFloat.
  destruct (Ascii.eqb_spec c "-") as [-> | Hminus]; intros H.
  - rewrite skip_spaces_head by reflexivity. cbn [JS.sign Ascii.eqb Bool.eqb].
    apply decimal_of_number, H.
  - destruct (unsigned_number_head _ H) as (c' & r' & [= <- <-] & Hc).
    assert (Hs : JS.skip_spaces (String c r) = String c r /\
                 JS.sign (String c r) = (false, String c r)).
    { destruct Hc as [Hc | (d & Hc)].
      - apply Ascii.eqb_eq in Hc. subst c.
        split; [apply skip_spaces_head; reflexivity | reflexivity].
      - destruct (digit_not_space c d Hc) as (S1 & S2 & S3 & M & P & _).
        split; [apply skip_spaces_head; assumption|].
        cbn [JS.sign]. rewrite M, P. reflexivity. }
    destruct Hs as [-> ->]. apply decimal_of_number, H.
Qed.

(** Among the values the field reports, the empty one alone does not
    parse. *)
Lemma reported_unparsed (value : string) :
  reports value -> (JS.isNaN (JS.parseFloat value) = true <-> value = "").
Proof.
  intros [-> | Hv]; [split; reflexivity|].
  rewrite (parseFloat_of_number value Hv). split; [discriminate|].
  intros ->. discriminate.
Qed.

(** C9.  The rotation field.  The handler reads the value of a number
    field, which is the text typed when that is a valid floating-point
    number and the empty string for any other entry.  For every value the
    field reports: if it does not parse as a number the rotation is reset
    to 0, and if it parses the rotation is set to the parsed value; the
    rotation never becomes [NaN], and zoom and pan are not touched.  In
    terms of the text typed: an entry that is not a number resets the
    rotation to 0 and a number sets it to its value.  The reset is the
    explicit branch of the handler for the empty string (and a lone
    minus). *)
Theorem rotation_entry (v : Viewport) :
  (forall value,
      reports value ->
      let v' := handleManualRotationChange value v in
      (JS.isNaN (JS.parseFloat value) = true -> rotation v' = JS.Fin 0) /\
      (JS.isNaN (JS.parseFloat value) = false -> rotation v' = JS.parseFloat value) /\
      JS.isNaN (rotation v') = false /\
      zoom v' = zoom v /\ position v' = position v) /\
  (forall typed, reports (sanitized typed)) /\
  (forall typed,
      valid_floating_point_number typed = false ->
      rotation (handleManualRotationChange (sanitized typed) v) = JS.Fin 0) /\
  (forall typed,
      valid_floating_point_number typed = true ->
      JS.isNaN (JS.parseFloat typed) = false /\
      rotation (handleManualRotationChange (sanitized typed) v) = JS.parseFloat typed) /\
  (forall value,
      value = "" \/ value = "-" ->
      handleManualRotationChange value v = setRotation (JS.Fin 0) v).
Proof.
  split; [|split; [|split; [|split]]].
  - intros value Hr v'. subst v'.
    pose proof (reported_unparsed value Hr) as Hnan.
    split; [|split; [|split]].
    + intros E. apply Hnan in E. subst value. reflexivity.
    + intros E. rewrite (entry_parsed value v E). reflexivity.
    + destruct (JS.isNaN (JS.parseFloat value)) eqn:E.
      * rewrite (proj1 Hnan eq_refl). reflexivity.
      * rewrite (entry_parsed value v E). exact E.
    + apply entry_keeps_zoom_and_pan.
  - intros typed. unfold sanitized, reports.
    destruct (valid_floating_point_number typed) eqn:E; [right; exact E | left; reflexivity].
  - intros typed E. unfold sanitized. rewrite E. reflexivity.
  - intros typed E. pose proof (parseFloat_of_number typed E) as Hp.
    split; [exact Hp|]. unfold sanitized. rewrite E.
    rewrite (entry_parsed typed v Hp). reflexivity.
  - intros value Hb. apply entry_blank, Hb.
Qed.

Lemma rotation_entry_witness :
  rotation (handleManualRotationChange "12.5" tilted) = JS.Fin (25 # 2) /\
  rotation (handleManualRotationChange "-90" tilted) = JS.Fin (- (90)) /\
  rotation (handleManualRotationChange "" tilted) = JS.Fin 0 /\
  rotation (handleManualRotationChange (sanitized "abc") tilted) = JS.Fin 0 /\
  rotation (handleManualRotationChange (sanitized "1e") tilted) = JS.Fin 0 /\
  rotation (handleManualRotationChange (sanitized "0.1") tilted)
    = JS.Fin (3602879701896397 # 36028797018963968) /\
  rotation (handleManualRotationChange "1e400" tilted) = JS.Inf false.
Proof.
  destruct (rotation_entry tilted) as (Hvalue & _ & Hbad & Hgood & _).
  split.
  { rewrite (proj1 (proj2 (Hvalue "12.5" (or_intror eq_refl))) eq_refl). reflexivity. }
  split.
  { rewrite (proj1 (proj2 (Hvalue "-90" (or_intror eq_refl))) eq_refl). reflexivity. }
  split.
  { apply (proj1 (Hvalue "" (or_introl eq_refl))). reflexivity. }
  split.
  { apply (Hbad "abc"). reflexivity. }
  split.
  { apply (Hbad "1e"). reflexivity. }
  split.
  { rewrite (proj2 (Hgood "0.1" eq_refl)). reflexivity. }
  rewrite (proj1 (proj2 (Hvalue "1e400" (or_intror eq_refl))) eq_refl). reflexivity.
Defined.

End RotationEntry.

(** ** Curve edit history *)

Section EditHistory.

Import CurveAdjustment.
Local Open Scope Z_scope.

(** A run of commits, oldest first. *)
Definition commits (l : list CurveSettings) (h : History) : History :=
  fold_left (fun h s => addToHistory s h) l h.

(** The index points at an entry. *)
Definition positioned (h : History) : Prop :=
  0 <= historyIndex h < Z.of_nat (length (history h)).

(** The index points at an entry, or the history is the empty one the
    component starts with, before it is mounted. *)
Definition well_formed (h : History) : Prop :=
  positioned h \/ h = empty_history.

Lemma same_json_true (c : option CurveSettings) (s : CurveSettings) :
  same_json c s = true <-> c = Some s.
Proof.
  destruct c as [c|]; cbn.
  - destruct (CurveSettings_eq_dec c s) as [->|Hne]; split; try reflexivity.
    + discriminate.
    + intros [=]; contradiction.
  - split; discriminate.
Qed.

Lemma same_json_false (c : option CurveSettings) (s : CurveSettings) :
  c <> Some s -> same_json c s = false.
Proof.
  intros Hne. destruct (same_json c s) eqn:E; [|reflexivity].
  apply same_json_true in E. contradiction.
Qed.

Lemma slice0_firstn {A : Type} (a : list A) (e : Z) :
  0 <= e -> slice0 a e = firstn (Z.to_nat e) a.
Proof.
  intros He. unfold slice0.
  destruct (Z.ltb_spec e 0); [lia | reflexivity].
Qed.

Lemma index_Some {A : Type} (a : list A) (i : Z) (v : A) :
  index a i = Some v -> 0 <= i < Z.of_nat (length a) /\ In v a.
Proof.
  unfold index. destruct (Z.ltb_spec i 0); [discriminate|].
  intros E. split; [|eapply nth_error_In; exact E].
  assert (Z.to_nat i < length a)%nat by (apply nth_error_Some; congruence).
  lia.
Qed.

Lemma index_in_range {A : Type} (a : list A) (i : Z) :
  0 <= i < Z.of_nat (length a) -> exists v, index a i = Some v.
Proof.
  intros Hi. unfold index. destruct (Z.ltb_spec i 0); [lia|].
  destruct (nth_error a (Z.to_nat i)) eqn:E; [eauto|].
  apply nth_error_None in E. lia.
Qed.

Lemma index_last {A : Type} (a : list A) (v : A) :
  index (a ++ [v]) (Z.of_nat (length (a ++ [v])) - 1) = Some v.
Proof.
  unfold index. rewrite length_app. cbn [length].
  destruct (Z.ltb_spec (Z.of_nat (length a + 1) - 1) 0); [lia|].
  replace (Z.to_nat (Z.of_nat (length a + 1) - 1)) with (length a) by lia.
  rewrite nth_error_app2 by lia. rewrite Nat.sub_diag. reflexivity.
Qed.

Lemma tl_app_nonempty {A : Type} (a b : list A) :
  a <> [] -> tl (a ++ b) = tl a ++ b.
Proof. destruct a; [contradiction | reflexivity]. Qed.

Lemma tl_skipn {A : Type} (k : nat) (l : list A) : tl (skipn k l) = skipn (S k) l.
Proof.
  revert l. induction k as [|k IH]; intros [|a l]; try reflexivity.
  apply (IH l).
Qed.

Lemma In_skipn_inv {A : Type} (k : nat) (l : list A) (v : A) :
  In v (skipn k l) -> In v l.
Proof.
  intros H. rewrite <- (firstn_skipn k l). apply in_or_app. right. exact H.
Qed.

(** The stack a commit leaves when it is not a duplicate. *)
Definition committed (s : CurveSettings) (h : History) : list CurveSettings :=
  let grown := firstn (Z.to_nat (historyIndex h + 1)) (history h) ++ [s] in
  if 50 <? Z.of_nat (length grown) then tl grown else grown.

Lemma addToHistory_duplicate (s : CurveSettings) (h : History) :
  index (history h) (historyIndex h) = Some s -> addToHistory s h = h.
Proof.
  intros E. unfold addToHistory. rewrite E.
  rewrite (proj2 (same_json_true (Some s) s) eq_refl). reflexivity.
Qed.

Lemma addToHistory_fresh (s : CurveSettings) (h : History) :
  -1 <= historyIndex h ->
  index (history h) (historyIndex h) <> Some s ->
  addToHistory s h =
    {| history := committed s h;
       historyIndex := Z.of_nat (length (committed s h)) - 1 |}.
Proof.
  intros Hi Hne. unfold addToHistory, committed, shift.
  rewrite (same_json_false _ _ Hne).
  rewrite slice0_firstn by lia. reflexivity.
Qed.

Lemma committed_tip (s : CurveSettings) (h : History) :
  index (committed s h) (Z.of_nat (length (committed s h)) - 1) = Some s.
Proof.
  unfold committed.
  set (kept := firstn (Z.to_nat (historyIndex h + 1)) (history h)).
  destruct (Z.ltb_spec 50 (Z.of_nat (length (kept ++ [s])))) as [Hlong|Hshort].
  - destruct kept as [|a kept'].
    + cbn in Hlong. lia.
    + cbn [app tl]. apply index_last.
  - apply index_last.
Qed.

Lemma committed_length (s : CurveSettings) (h : History) :
  (length (history h) <= 50 -> 1 <= length (committed s h) <= 50)%nat.
Proof.
  intros Hlen. unfold committed.
  set (kept := firstn (Z.to_nat (historyIndex h + 1)) (history h)).
  assert (Hk : (length kept <= 50)%nat).
  { unfold kept. rewrite length_firstn. lia. }
  destruct (Z.ltb_spec 50 (Z.of_nat (length (kept ++ [s])))) as [Hlong|Hshort];
    rewrite ?length_app in *; cbn [length] in *.
  - destruct kept as [|a kept']; cbn [length app tl] in *; [lia|].
    rewrite length_app. cbn [length]. lia.
  - lia.
Qed.

Lemma addToHistory_bounded (s : CurveSettings) (h : History) :
  (length (history h) <= 50 -> length (history (addToHistory s h)) <= 50)%nat.
Proof.
  intros Hlen. unfold addToHistory.
  destruct (same_json _ s); [exact Hlen|]. cbn [history].
  set (grown := slice0 (history h) (historyIndex h + 1) ++ [s]).
  assert (Hg : (length grown <= 51)%nat).
  { unfold grown, slice0. rewrite length_app. cbn [length].
    destruct (historyIndex h + 1 <? 0); rewrite length_firstn; lia. }
  destruct (Z.ltb_spec 50 (Z.of_nat (length grown))); [|lia].
  unfold shift. destruct grown; cbn [tl length] in *; lia.
Qed.

Lemma commits_bounded (l : list CurveSettings) (h : History) :
  (length (history h) <= 50 -> length (history (commits l h)) <= 50)%nat.
Proof.
  revert h. induction l as [|s l IH]; intros h Hlen; [exact Hlen|].
  cbn [commits fold_left]. apply IH. apply addToHistory_bounded. exact Hlen.
Qed.

Lemma commits_snoc (l : list CurveSettings) (s : CurveSettings) (h : History) :
  commits (l ++ [s]) h = addToHistory s (commits l h).
Proof. unfold commits. rewrite fold_left_app. reflexivity. Qed.

(** From the empty history, pairwise distinct states are all kept until
    there are 50 of them; from then on each commit evicts the oldest. *)
Lemma commits_distinct (l : list CurveSettings) :
  NoDup l ->
  commits l empty_history =
    {| history := skipn (length l - 50) l;
       historyIndex := Z.of_nat (Nat.min (length l) 50) - 1 |}.
Proof.
  induction l as [|s l IH] using rev_ind; intros Hnd; [reflexivity|].
  apply NoDup_remove in Hnd. rewrite app_nil_r in Hnd. destruct Hnd as [Hnd Hnotin].
  rewrite commits_snoc, (IH Hnd). clear IH.
  set (n := length l).
  assert (Hlen : length (skipn (n - 50) l) = Nat.min n 50).
  { rewrite length_skipn. fold n. lia. }
  rewrite addToHistory_fresh; cbn [history historyIndex]; [| lia |].
  - assert (Hc : committed s {| history := skipn (n - 50) l;
                                historyIndex := Z.of_nat (Nat.min n 50) - 1 |}
                 = skipn (length (l ++ [s]) - 50) (l ++ [s])).
    { unfold committed; cbn [history historyIndex].
      replace (Z.to_nat (Z.of_nat (Nat.min n 50) - 1 + 1)) with (Nat.min n 50) by lia.
      rewrite firstn_all2 by (rewrite Hlen; lia).
      rewrite !length_app, Hlen. cbn [length]. fold n.
      rewrite skipn_app. fold n.
      destruct (Z.ltb_spec 50 (Z.of_nat (Nat.min n 50 + 1))) as [Hlong|Hshort].
      - rewrite tl_app_nonempty.
        + rewrite tl_skipn.
          replace (S (n - 50))%nat with (n + 1 - 50)%nat by lia.
          replace (n + 1 - 50 - n)%nat with 0%nat by lia. reflexivity.
        + intros E. apply (f_equal (@length _)) in E. rewrite Hlen in E.
          cbn in E. lia.
      - replace (n - 50)%nat with 0%nat by lia.
        replace (n + 1 - 50)%nat with 0%nat by lia. reflexivity. }
    rewrite Hc. f_equal.
    rewrite length_skipn, !length_app. cbn [length]. fold n. lia.
  - intros E. apply index_Some in E. destruct E as [_ Hin].
    apply In_skipn_inv in Hin. contradiction.
Qed.

(** C2.  History commit contract.  Committing a state that equals the
    entry at the current index changes nothing.  Any other commit keeps
    the entries up to the current index, drops the ones after it, appends
    the state (evicting the oldest entry when that makes 51) and moves the
    index to the new last entry, which is the committed state.  No run of
    commits lets the stack exceed 50 entries, and 60 pairwise distinct
    commits from the empty history leave exactly the last 50 of them, the
    index on the newest. *)
Theorem history_commit_contract :
  (forall s h,
      index (history h) (historyIndex h) = Some s -> addToHistory s h = h) /\
  (forall s h,
      -1 <= historyIndex h ->
      index (history h) (historyIndex h) <> Some s ->
      let grown := firstn (Z.to_nat (historyIndex h + 1)) (history h) ++ [s] in
      let h' := addToHistory s h in
      history h' = (if 50 <? Z.of_nat (length grown) then tl grown else grown) /\
      historyIndex h' = Z.of_nat (length (history h')) - 1 /\
      index (history h') (historyIndex h') = Some s) /\
  (forall l h,
      (length (history h) <= 50)%nat ->
      (length (history (commits l h)) <= 50)%nat) /\
  (forall l,
      NoDup l -> length l = 60%nat ->
      commits l empty_history = {| history := skipn 10 l; historyIndex := 49 |} /\
      length (history (commits l empty_history)) = 50%nat).
Proof.
  split; [exact addToHistory_duplicate|].
  split.
  { intros s h Hi Hne grown h'. subst grown h'.
    rewrite (addToHistory_fresh s h Hi Hne). cbn [history historyIndex].
    split; [reflexivity|]. split; [reflexivity|]. apply committed_tip. }
  split; [exact commits_bounded|].
  intros l Hnd Hlen.
  rewrite (commits_distinct l Hnd), Hlen. cbn [history].
  split; [reflexivity|].
  change (60 - 50)%nat with 10%nat. rewrite length_skipn. lia.
Qed.

(** Sample states: the default curves with the left end of the master
    curve raised to [n]. *)
Definition shade (n : nat) : CurveSettings :=
  set DEFAULT_CURVES all [ {| x := 0; y := Z.of_nat n |}; {| x := 255; y := 255 |} ].

Definition sixty_shades : list CurveSettings := map shade (seq 0 60).

Lemma shade_injective (n m : nat) : shade n = shade m -> n = m.
Proof. unfold shade. cbn. intros [= E]. lia. Qed.

Lemma sixty_shades_distinct : NoDup sixty_shades.
Proof.
  apply Finite.Injective_map_NoDup; [exact shade_injective | apply seq_NoDup].
Qed.

Lemma history_commit_contract_witness :
  addToHistory (shade 3) {| history := [shade 1; shade 2; shade 3]; historyIndex := 2 |}
    = {| history := [shade 1; shade 2; shade 3]; historyIndex := 2 |} /\
  history (addToHistory (shade 9)
             {| history := [shade 1; shade 2; shade 3]; historyIndex := 1 |})
    = [shade 1; shade 2; shade 9] /\
  (length (history (commits sixty_shades empty_history)) <= 50)%nat /\
  commits sixty_shades empty_history
    = {| history := skipn 10 sixty_shades; historyIndex := 49 |}.
Proof.
  destruct history_commit_contract as (Hdup & Hfresh & Hbound & Hsixty).
  split; [apply Hdup; reflexivity|].
  split.
  { apply (Hfresh (shade 9)
             {| history := [shade 1; shade 2; shade 3]; historyIndex := 1 |});
      [cbn; lia | discriminate]. }
  split; [apply Hbound; cbn; lia|].
  apply Hsixty; [exact sixty_shades_distinct | reflexivity].
Defined.

(** *** Undo and redo *)

Lemma well_formed_mount (s : CurveSettings) (h : History) :
  well_formed h -> positioned (mount s h).
Proof.
  unfold well_formed, positioned, mount.
  intros [Hp | ->]; [|cbn; lia].
  destruct h as [[|a st] i]; cbn [history historyIndex length] in *; lia.
Qed.

Lemma positioned_addToHistory (s : CurveSettings) (h : History) :
  well_formed h -> positioned (addToHistory s h).
Proof.
  intros Hwf. unfold positioned.
  destruct (same_json (index (history h) (historyIndex h)) s) eqn:Ej.
  1: apply same_json_true in Ej; rename Ej into E.
  2: assert (Hne : index (history h) (historyIndex h) <> Some s)
       by (intros E; apply same_json_true in E; congruence).
  - rewrite (addToHistory_duplicate s h E).
    apply index_Some in E. lia.
  - assert (Hlo : -1 <= historyIndex h).
    { destruct Hwf as [Hp | ->]; [unfold positioned in Hp; lia | cbn; lia]. }
    rewrite (addToHistory_fresh s h Hlo Hne). cbn [history historyIndex].
    pose proof (committed_tip s h) as Htip. apply index_Some in Htip. lia.
Qed.

Lemma undo_at_bottom (h : History) :
  historyIndex h <= 0 -> undo h = (h, NoOp).
Proof.
  intros Hi. unfold undo. destruct (Z.ltb_spec 0 (historyIndex h)); [lia | reflexivity].
Qed.

Lemma undo_moves_back (h : History) :
  positioned h -> 0 < historyIndex h ->
  exists prev,
    index (history h) (historyIndex h - 1) = Some prev /\
    undo h = ({| history := history h; historyIndex := historyIndex h - 1 |}, Emitted prev).
Proof.
  intros Hp Hi. unfold positioned in Hp.
  destruct (index_in_range (history h) (historyIndex h - 1)) as [prev E]; [lia|].
  exists prev. split; [exact E|].
  unfold undo. destruct (Z.ltb_spec 0 (historyIndex h)); [|lia].
  rewrite E. reflexivity.
Qed.

Lemma redo_at_tip (h : History) :
  Z.of_nat (length (history h)) - 1 <= historyIndex h -> redo h = (h, NoOp).
Proof.
  intros Hi. unfold redo.
  destruct (Z.ltb_spec (historyIndex h) (Z.of_nat (length (history h)) - 1));
    [lia | reflexivity].
Qed.

Lemma redo_moves_forward (h : History) :
  -1 <= historyIndex h -> historyIndex h < Z.of_nat (length (history h)) - 1 ->
  exists next,
    index (history h) (historyIndex h + 1) = Some next /\
    redo h = ({| history := history h; historyIndex := historyIndex h + 1 |}, Emitted next).
Proof.
  intros Hlo Hi.
  destruct (index_in_range (history h) (historyIndex h + 1)) as [next E]; [lia|].
  exists next. split; [exact E|].
  unfold redo.
  destruct (Z.ltb_spec (historyIndex h) (Z.of_nat (length (history h)) - 1)); [|lia].
  rewrite E. reflexivity.
Qed.

(** Undo and redo keep the index on an entry, as do the mount effect and
    every commit: the histories the component goes through after it is
    mounted are all positioned. *)
Lemma positioned_undo_redo (h : History) :
  positioned h -> positioned (fst (undo h)) /\ positioned (fst (redo h)).
Proof.
  intros Hp. unfold positioned, undo, redo in *.
  destruct (Z.ltb_spec 0 (historyIndex h));
    destruct (Z.ltb_spec (historyIndex h) (Z.of_nat (length (history h)) - 1));
    cbn [fst history historyIndex]; lia.
Qed.

(** A history of two entries with the index on the first: what one undo
    from the tip leaves. *)
Definition undone_once : History :=
  {| history := [shade 0; shade 1]; historyIndex := 0 |}.

(** The last clause of C7 fails at index 0 when there is something to
    redo: [undo] does nothing there, and the [redo] after it moves on to
    the next entry instead of giving back the snapshot that was current
    before the [undo]. *)
Lemma redo_after_idle_undo_moves_on :
  positioned undone_once /\
  index (history undone_once) (historyIndex undone_once) = Some (shade 0) /\
  undo undone_once = (undone_once, NoOp) /\
  redo (fst (undo undone_once))
    = ({| history := [shade 0; shade 1]; historyIndex := 1 |}, Emitted (shade 1)) /\
  fst (redo (fst (undo undone_once))) <> undone_once /\
  Emitted (shade 1) <> Emitted (shade 0).
Proof.
  split; [unfold positioned; cbn; lia|].
  split; [reflexivity|]. split; [reflexivity|]. split; [reflexivity|].
  split; discriminate.
Qed.

(** C7, amended.  For every history whose index points at an entry:
    [undo] is a no-op at index 0 and otherwise moves the index back by
    exactly one and emits the snapshot at that index; [redo] is a no-op at
    the last index and otherwise moves the index forward by exactly one and
    emits that snapshot; and one [redo] right after an [undo] that was not
    a no-op (index above 0) restores the history and emits the snapshot
    that was current before the [undo]. *)
Theorem undo_redo_semantics (h : History) :
  positioned h ->
  (historyIndex h = 0 -> undo h = (h, NoOp)) /\
  (0 < historyIndex h ->
     exists prev,
       index (history h) (historyIndex h - 1) = Some prev /\
       undo h = ({| history := history h; historyIndex := historyIndex h - 1 |},
                 Emitted prev)) /\
  (historyIndex h = Z.of_nat (length (history h)) - 1 -> redo h = (h, NoOp)) /\
  (historyIndex h < Z.of_nat (length (history h)) - 1 ->
     exists next,
       index (history h) (historyIndex h + 1) = Some next /\
       redo h = ({| history := history h; historyIndex := historyIndex h + 1 |},
                 Emitted next)) /\
  (0 < historyIndex h ->
     exists current,
       index (history h) (historyIndex h) = Some current /\
       redo (fst (undo h)) = (h, Emitted current)).
Proof.
  intros Hp.
  split; [intros E; apply undo_at_bottom; lia|].
  split; [apply undo_moves_back; exact Hp|].
  split; [intros E; apply redo_at_tip; lia|].
  split; [apply redo_moves_forward; unfold positioned in Hp; lia|].
  intros Hi.
  destruct (undo_moves_back h Hp Hi) as (prev & _ & ->). cbn [fst].
  unfold positioned in Hp.
  destruct (redo_moves_forward
              {| history := history h; historyIndex := historyIndex h - 1 |})
    as (next & Hnext & ->); cbn [history historyIndex]; try lia.
  cbn [history historyIndex] in Hnext.
  replace (historyIndex h - 1 + 1) with (historyIndex h) in * by lia.
  exists next. split; [exact Hnext|].
  destruct h; reflexivity.
Qed.

Definition three_entries_at_tip : History :=
  {| history := [shade 0; shade 1; shade 2]; historyIndex := 2 |}.

Lemma undo_redo_semantics_witness :
  undo three_entries_at_tip
    = ({| history := [shade 0; shade 1; shade 2]; historyIndex := 1 |}, Emitted (shade 1)) /\
  redo three_entries_at_tip = (three_entries_at_tip, NoOp) /\
  redo (fst (undo three_entries_at_tip)) = (three_entries_at_tip, Emitted (shade 2)).
Proof.
  assert (Hp : positioned three_entries_at_tip) by (unfold positioned; cbn; lia).
  destruct (undo_redo_semantics three_entries_at_tip Hp)
    as (_ & Hundo & Hredo & _ & Hround).
  split.
  { destruct Hundo as (prev & Hprev & ->); [cbn; lia|].
    cbn in Hprev. injection Hprev as <-. reflexivity. }
  split; [apply Hredo; reflexivity|].
  destruct Hround as (current & Hcur & ->); [cbn; lia|].
  cbn in Hcur. injection Hcur as <-. reflexivity.
Defined.

End EditHistory.

(** ** The channel-curve invariant *)

Section ChannelCurves.

Import CurveAdjustment.
Local Open Scope Z_scope.

(** The invariant of the data model, on the [x] values of a curve: they
    are strictly increasing (and so unique), the first is 0, the last is
    255, and there are at least two points. *)
Definition ChannelCurve (l : list Point) : Prop :=
  Sorted Z.lt (map x l) /\
  hd (-1) (map x l) = 0 /\
  last (map x l) (-1) = 255 /\
  (2 <= length l)%nat.

(** The same with "strictly increasing" weakened to "not decreasing":
    points may share an [x]. *)
Definition OrderedCurve (l : list Point) : Prop :=
  Sorted Z.le (map x l) /\
  hd (-1) (map x l) = 0 /\
  last (map x l) (-1) = 255 /\
  (2 <= length l)%nat.

Definition in_range (v : Z) : Prop := 0 <= v <= 255.

(** *** Sorted lists of integers *)

Lemma Sorted_le_strong (xs : list Z) : Sorted Z.le xs -> StronglySorted Z.le xs.
Proof. apply Sorted_StronglySorted. intros a b c. apply Z.le_trans. Qed.

Lemma Sorted_lt_strong (xs : list Z) : Sorted Z.lt xs -> StronglySorted Z.lt xs.
Proof. apply Sorted_StronglySorted. intros a b c. apply Z.lt_trans. Qed.

Lemma strong_le_last (xs : list Z) (a d : Z) :
  StronglySorted Z.le (a :: xs) -> a <= last (a :: xs) d /\ Forall (fun v => v <= last (a :: xs) d) (a :: xs).
Proof.
  revert a. induction xs as [|b xs IH]; intros a Hs.
  - cbn. split; [lia|]. constructor; [lia | constructor].
  - inversion Hs as [|? ? Hs' Hall]; subst.
    destruct (IH b Hs') as [Hb Hall'].
    assert (Hab : a <= b) by (inversion Hall; assumption).
    change (last (a :: b :: xs) d) with (last (b :: xs) d).
    split; [lia|]. constructor; [lia | exact Hall'].
Qed.

(** A sorted list within [0, 255] that contains both ends starts at 0,
    ends at 255 and has two elements or more. *)
Lemma sorted_ends (xs : list Z) :
  StronglySorted Z.le xs -> Forall in_range xs -> In 0 xs -> In 255 xs ->
  hd (-1) xs = 0 /\ last xs (-1) = 255 /\ (2 <= length xs)%nat.
Proof.
  intros Hs Hr H0 H255.
  destruct xs as [|a xs]; [contradiction|].
  assert (Ha : in_range a) by (inversion Hr; assumption).
  assert (Hhd : a = 0).
  { destruct H0 as [E | Hin]; [exact E|].
    inversion Hs as [|? ? _ Hall]; subst.
    rewrite Forall_forall in Hall. specialize (Hall 0 Hin).
    unfold in_range in Ha. lia. }
  destruct (strong_le_last xs a (-1) Hs) as [_ Hall].
  rewrite Forall_forall in Hall, Hr.
  assert (Hlast : last (a :: xs) (-1) = 255).
  { specialize (Hall 255 H255).
    assert (Hin : In (last (a :: xs) (-1)) (a :: xs)).
    { destruct (exists_last (l := a :: xs)) as (l' & z & E); [discriminate|].
      rewrite E, last_last. apply in_or_app. right. left. reflexivity. }
    specialize (Hr _ Hin). unfold in_range in Hr. lia. }
  split; [exact Hhd|]. split; [exact Hlast|].
  destruct xs as [|b xs]; [cbn in Hlast; lia | cbn; lia].
Qed.

(** Conversely a sorted list from 0 to 255 stays within [0, 255] and
    contains both ends. *)
Lemma ends_sorted (xs : list Z) :
  StronglySorted Z.le xs -> hd (-1) xs = 0 -> last xs (-1) = 255 ->
  Forall in_range xs /\ In 0 xs /\ In 255 xs.
Proof.
  intros Hs Hhd Hlast.
  destruct xs as [|a xs]; [cbn in Hhd; lia|].
  cbn in Hhd. subst a.
  destruct (strong_le_last xs 0 (-1) Hs) as [_ Hall]. rewrite Hlast in Hall.
  split; [|split].
  - inversion Hs as [|? ? _ Hge]; subst.
    rewrite Forall_forall in *. intros v Hin. unfold in_range.
    split; [|apply Hall; exact Hin].
    destruct Hin as [<- | Hin]; [lia | apply Hge; exact Hin].
  - left. reflexivity.
  - rewrite <- Hlast.
    destruct (exists_last (l := 0 :: xs)) as (l' & z & E); [discriminate|].
    rewrite E, last_last. apply in_or_app. right. left. reflexivity.
Qed.

Lemma strong_lt_le (xs : list Z) : StronglySorted Z.lt xs -> StronglySorted Z.le xs.
Proof.
  induction 1 as [|a xs Hs IH Hall]; constructor; [exact IH|].
  eapply Forall_impl; [|exact Hall]. cbn. intros; lia.
Qed.

Lemma strong_lt_NoDup (xs : list Z) : StronglySorted Z.lt xs -> NoDup xs.
Proof.
  induction 1 as [|a xs Hs IH Hall]; constructor; [|exact IH].
  intros Hin. rewrite Forall_forall in Hall. specialize (Hall a Hin). lia.
Qed.

Lemma strong_le_NoDup_lt (xs : list Z) :
  StronglySorted Z.le xs -> NoDup xs -> StronglySorted Z.lt xs.
Proof.
  induction 1 as [|a xs Hs IH Hall]; intros Hnd; constructor.
  - apply IH. inversion Hnd; assumption.
  - inversion Hnd as [|? ? Hnotin _]; subst.
    rewrite Forall_forall in *. intros v Hin. specialize (Hall v Hin).
    assert (v <> a) by (intros ->; contradiction). lia.
Qed.

Lemma strong_remove_middle {A : Type} (R : A -> A -> Prop) (a c : list A) (v : A) :
  StronglySorted R (a ++ v :: c) -> StronglySorted R (a ++ c).
Proof.
  induction a as [|u a IH]; cbn [app]; intros Hs.
  - inversion Hs; assumption.
  - inversion Hs as [|? ? Hs' Hall]; subst. constructor; [apply IH; exact Hs'|].
    rewrite Forall_forall in *. intros w Hin. apply Hall.
    apply in_app_or in Hin. apply in_or_app.
    destruct Hin as [Hin | Hin]; [left; exact Hin | right; right; exact Hin].
Qed.

(** *** The two invariants, by their contents *)

Lemma OrderedCurve_by_contents (l : list Point) :
  OrderedCurve l <->
  StronglySorted Z.le (map x l) /\ Forall in_range (map x l) /\
  In 0 (map x l) /\ In 255 (map x l).
Proof.
  unfold OrderedCurve. split.
  - intros (Hs & Hhd & Hlast & _).
    apply Sorted_le_strong in Hs.
    split; [exact Hs|]. apply ends_sorted; assumption.
  - intros (Hs & Hr & H0 & H255).
    destruct (sorted_ends (map x l) Hs Hr H0 H255) as (Hhd & Hlast & Hlen).
    rewrite length_map in Hlen.
    split; [apply StronglySorted_Sorted; exact Hs|]. auto.
Qed.

Lemma ChannelCurve_by_contents (l : list Point) :
  ChannelCurve l <-> OrderedCurve l /\ NoDup (map x l).
Proof.
  unfold ChannelCurve, OrderedCurve. split.
  - intros (Hs & Hhd & Hlast & Hlen).
    apply Sorted_lt_strong in Hs.
    split; [|apply strong_lt_NoDup; exact Hs].
    split; [|auto]. apply StronglySorted_Sorted, strong_lt_le, Hs.
  - intros ((Hs & Hhd & Hlast & Hlen) & Hnd).
    split; [|auto].
    apply StronglySorted_Sorted, strong_le_NoDup_lt; [|exact Hnd].
    apply Sorted_le_strong, Hs.
Qed.

Lemma ChannelCurve_ordered (l : list Point) : ChannelCurve l -> OrderedCurve l.
Proof. intros H. apply ChannelCurve_by_contents in H. apply H. Qed.

(** *** The sort *)

Lemma insert_by_x_perm (p : Point) (l : list Point) :
  Permutation (insert_by_x p l) (p :: l).
Proof.
  induction l as [|q l IH]; cbn [insert_by_x]; [reflexivity|].
  destruct (x p <=? x q); [reflexivity|].
  rewrite IH. apply perm_swap.
Qed.

Lemma sort_by_x_perm (l : list Point) : Permutation (sort_by_x l) l.
Proof.
  induction l as [|p l IH]; cbn [sort_by_x]; [reflexivity|].
  rewrite insert_by_x_perm, IH. reflexivity.
Qed.

Lemma insert_by_x_sorted (p : Point) (l : list Point) :
  StronglySorted Z.le (map x l) -> StronglySorted Z.le (map x (insert_by_x p l)).
Proof.
  induction l as [|q l IH]; cbn [insert_by_x map]; intros Hs.
  - constructor; constructor.
  - inversion Hs as [|? ? Hs' Hall]; subst.
    destruct (Z.leb_spec (x p) (x q)) as [Hle | Hgt]; cbn [map].
    + constructor; [exact Hs|].
      constructor; [exact Hle|].
      eapply Forall_impl; [|exact Hall]. cbn. intros; lia.
    + constructor; [apply IH; exact Hs'|].
      rewrite Forall_forall in *. intros v Hin.
      apply (Permutation_in _ (Permutation_map x (insert_by_x_perm p l))) in Hin.
      destruct Hin as [<- | Hin]; [lia | apply Hall; exact Hin].
Qed.

Lemma sort_by_x_sorted (l : list Point) : StronglySorted Z.le (map x (sort_by_x l)).
Proof.
  induction l as [|p l IH]; cbn [sort_by_x map]; [constructor|].
  apply insert_by_x_sorted. exact IH.
Qed.

(** Sorting a list of points within [0, 255] that has a point at each end
    gives an ordered curve; if no two of the points share an [x], a
    channel curve. *)
Lemma sort_by_x_ordered (l : list Point) :
  Forall in_range (map x l) -> In 0 (map x l) -> In 255 (map x l) ->
  OrderedCurve (sort_by_x l).
Proof.
  intros Hr H0 H255.
  pose proof (Permutation_map x (sort_by_x_perm l)) as Hp.
  apply OrderedCurve_by_contents.
  split; [apply sort_by_x_sorted|].
  split; [eapply Permutation_Forall; [symmetry; exact Hp | exact Hr]|].
  split; eapply Permutation_in; try (symmetry; exact Hp); assumption.
Qed.

Lemma sort_by_x_channel (l : list Point) :
  Forall in_range (map x l) -> In 0 (map x l) -> In 255 (map x l) ->
  NoDup (map x l) ->
  ChannelCurve (sort_by_x l).
Proof.
  intros Hr H0 H255 Hnd.
  apply ChannelCurve_by_contents.
  split; [apply sort_by_x_ordered; assumption|].
  eapply Permutation_NoDup; [|exact Hnd].
  symmetry. apply Permutation_map, sort_by_x_perm.
Qed.

(** *** Lists with one position taken out or replaced *)

(** The elements of [l] other than the one at position [d]. *)
Definition others {A : Type} (d : nat) (l : list A) : list A :=
  firstn d l ++ skipn (S d) l.

Lemma split_at {A : Type} (d : nat) (l : list A) (v : A) :
  nth_error l d = Some v -> l = firstn d l ++ v :: skipn (S d) l.
Proof.
  revert l. induction d as [|d IH]; intros [|a l] E; try discriminate.
  - cbn in E. injection E as ->. reflexivity.
  - cbn [nth_error] in E. cbn [firstn skipn app]. f_equal. apply IH, E.
Qed.

Lemma assign_inside (l : list Point) (d : nat) (q : Point) :
  (d < length l)%nat -> assign l d q = Some (firstn d l ++ q :: skipn (S d) l).
Proof.
  revert d. induction l as [|p l IH]; intros d Hd; [cbn in Hd; lia|].
  destruct d as [|d]; [reflexivity|].
  cbn [assign firstn skipn app]. rewrite IH by (cbn in Hd; lia). reflexivity.
Qed.

Lemma assign_end (l : list Point) (q : Point) : assign l (length l) q = Some (l ++ [q]).
Proof.
  induction l as [|p l IH]; [reflexivity|].
  cbn [assign length app]. rewrite IH. reflexivity.
Qed.

Lemma assign_beyond (l : list Point) (d : nat) (q : Point) :
  (length l < d)%nat -> assign l d q = None.
Proof.
  revert d. induction l as [|p l IH]; intros d Hd.
  - destruct d; [cbn in Hd; lia | reflexivity].
  - destruct d as [|d]; [cbn in Hd; lia|].
    cbn [assign]. rewrite IH by (cbn in Hd; lia). reflexivity.
Qed.

Lemma filter_index_past {A : Type} (i : nat) (l : list A) (m : nat) :
  (i < m)%nat -> filter_index (fun j => negb (Nat.eqb j i)) m l = l.
Proof.
  revert m. induction l as [|b l IH]; intros m Hm; [reflexivity|].
  cbn [filter_index]. destruct (Nat.eqb_spec m i); [lia|].
  cbn [negb]. f_equal. apply IH. lia.
Qed.

Lemma filter_index_others {A : Type} (i k : nat) (l : list A) :
  (k <= i)%nat ->
  filter_index (fun j => negb (Nat.eqb j i)) k l = others (i - k) l.
Proof.
  revert k. induction l as [|a l IH]; intros k Hk.
  - unfold others. destruct (i - k)%nat; reflexivity.
  - cbn [filter_index]. destruct (Nat.eqb_spec k i) as [-> | Hne]; cbn [negb].
    + rewrite Nat.sub_diag. unfold others. cbn [firstn skipn app].
      apply filter_index_past. lia.
    + rewrite IH by lia. unfold others.
      replace (i - k)%nat with (S (i - S k)) by lia. reflexivity.
Qed.

Lemma In_hd_firstn (xs : list Z) (k : nat) (d v : Z) :
  hd d xs = v -> xs <> [] -> (1 <= k)%nat -> In v (firstn k xs).
Proof.
  intros Hhd Hne Hk. destruct xs as [|a xs]; [contradiction|].
  destruct k as [|k]; [lia|]. left. exact Hhd.
Qed.

Lemma last_skipn (xs : list Z) (k : nat) (d : Z) :
  (k < length xs)%nat -> last (skipn k xs) d = last xs d.
Proof.
  revert k. induction xs as [|a xs IH]; intros k Hk; [cbn in Hk; lia|].
  destruct k as [|k]; [reflexivity|].
  cbn [skipn]. rewrite IH by (cbn in Hk; lia).
  destruct xs; [cbn in Hk; lia | reflexivity].
Qed.

Lemma In_last (xs : list Z) (d : Z) : xs <> [] -> In (last xs d) xs.
Proof.
  intros Hne. destruct (exists_last Hne) as (l' & z & ->).
  rewrite last_last. apply in_or_app. right. left. reflexivity.
Qed.

Lemma In_last_skipn (xs : list Z) (k : nat) (d : Z) :
  (k < length xs)%nat -> In (last xs d) (skipn k xs).
Proof.
  intros Hk. rewrite <- (last_skipn xs k d Hk). apply In_last.
  intros E. apply (f_equal (@length _)) in E. rewrite length_skipn in E.
  cbn in E. lia.
Qed.

Lemma map_others (d : nat) (l : list Point) : map x (others d l) = others d (map x l).
Proof. unfold others. rewrite map_app, firstn_map, skipn_map. reflexivity. Qed.

(** Both ends of an ordered curve survive when a position strictly
    between them is taken out. *)
Lemma others_keep_ends (d : nat) (l : list Point) :
  OrderedCurve l -> (0 < d)%nat -> d <> (length l - 1)%nat ->
  In 0 (others d (map x l)) /\ In 255 (others d (map x l)) /\
  Forall in_range (others d (map x l)).
Proof.
  intros Ho Hd0 Hdn.
  pose proof Ho as (Hs & Hhd & Hlast & Hlen).
  apply OrderedCurve_by_contents in Ho. destruct Ho as (_ & Hr & _ & _).
  assert (Hne : map x l <> []).
  { intros E. apply (f_equal (@length _)) in E. rewrite length_map in E. cbn in E. lia. }
  unfold others. split; [|split].
  - apply in_or_app. left. apply (In_hd_firstn _ _ (-1)); [exact Hhd | exact Hne | lia].
  - destruct (Nat.lt_ge_cases d (length l)) as [Hin | Hout].
    + apply in_or_app. right. rewrite <- Hlast.
      apply In_last_skipn. rewrite length_map. lia.
    + apply in_or_app. left. rewrite firstn_all2 by (rewrite length_map; lia).
      rewrite <- Hlast. apply In_last. exact Hne.
  - rewrite Forall_forall in *. intros v Hin. apply Hr.
    apply in_app_or in Hin. destruct Hin as [Hin | Hin].
    + rewrite <- (firstn_skipn d (map x l)). apply in_or_app. left. exact Hin.
    + rewrite <- (firstn_skipn (S d) (map x l)). apply in_or_app. right. exact Hin.
Qed.

(** *** Channels *)

Lemma get_set_same (s : CurveSettings) (ch : Channel) (pts : list Point) :
  get (set s ch pts) ch = pts.
Proof. destruct ch; reflexivity. Qed.

Lemma get_set_other (s : CurveSettings) (ch ch' : Channel) (pts : list Point) :
  ch <> ch' -> get (set s ch pts) ch' = get s ch'.
Proof. destruct ch, ch'; intros H; try reflexivity; contradiction. Qed.

Lemma set_preserves (P : list Point -> Prop) (s : CurveSettings) (ch : Channel)
      (pts : list Point) :
  (forall c, P (get s c)) -> P pts -> forall c, P (get (set s ch pts) c).
Proof.
  intros Hall Hpts c.
  destruct ch, c; cbn [get set c_all c_red c_green c_blue];
    first [exact Hpts | exact (Hall all) | exact (Hall red)
          | exact (Hall green) | exact (Hall blue)].
Qed.

(** *** Mouse positions *)

(** The pointer is over the canvas, horizontally. *)
Definition over_canvas (e : MouseEvent) (rect : DOMRect) : Prop :=
  (0 < width rect /\ left rect <= clientX e /\ clientX e <= left rect + width rect)%Q.

Lemma round_in_range (q : Q) : (0 <= q)%Q -> (q <= 255)%Q -> in_range (JS.round q).
Proof.
  intros Hlo Hhi. unfold in_range, JS.round. split.
  - change 0 with (Qfloor (0 + (1 # 2))). apply Qfloor_resp_le.
    apply Qplus_le_compat; [exact Hlo | apply Qle_refl].
  - change 255 with (Qfloor (255 + (1 # 2))). apply Qfloor_resp_le.
    apply Qplus_le_compat; [exact Hhi | apply Qle_refl].
Qed.

Lemma curve_x_in_range (e : MouseEvent) (rect : DOMRect) :
  over_canvas e rect -> in_range (curve_x e rect).
Proof.
  intros (Hw & Hlo & Hhi). unfold curve_x.
  assert (Hs : (0 <= 255 / width rect)%Q).
  { apply Qle_shift_div_l; [exact Hw|]. rewrite Qmult_0_l. discriminate. }
  apply round_in_range.
  - apply Qmult_le_0_compat; [|exact Hs].
    apply (Qplus_le_l _ _ (left rect)). ring_simplify. exact Hlo.
  - apply Qle_trans with (width rect * (255 / width rect))%Q.
    + apply Qmult_le_compat_r; [|exact Hs].
      apply (Qplus_le_l _ _ (left rect)). ring_simplify. exact Hhi.
    + assert (E : (width rect * (255 / width rect) == 255)%Q).
      { field. intros E. rewrite E in Hw. discriminate. }
      rewrite E. apply Qle_refl.
Qed.

Lemma clamp255_in_range (v : Z) : in_range (JS.clamp255 v).
Proof. unfold in_range, JS.clamp255. lia. Qed.

(** *** What each operation does to the active curve *)

Lemma others_beyond {A : Type} (d : nat) (l : list A) :
  (length l <= d)%nat -> others d l = l.
Proof.
  intros Hd. unfold others.
  rewrite firstn_all2, skipn_all2 by lia. apply app_nil_r.
Qed.

Lemma others_sorted {A : Type} (R : A -> A -> Prop) (d : nat) (l : list A) :
  StronglySorted R l -> StronglySorted R (others d l).
Proof.
  intros Hs. destruct (nth_error l d) as [v|] eqn:E.
  - rewrite (split_at d l v E) in Hs. apply strong_remove_middle in Hs. exact Hs.
  - apply nth_error_None in E. rewrite others_beyond by exact E. exact Hs.
Qed.

Lemma others_NoDup {A : Type} (d : nat) (l : list A) : NoDup l -> NoDup (others d l).
Proof.
  intros Hnd. destruct (nth_error l d) as [v|] eqn:E.
  - rewrite (split_at d l v E) in Hnd. apply NoDup_remove_1 in Hnd. exact Hnd.
  - apply nth_error_None in E. rewrite others_beyond by exact E. exact Hnd.
Qed.

(** The contents of a list of [x] values that is, up to order, [c] put
    next to [ys]. *)
Lemma contents_with (xs ys : list Z) (c : Z) :
  Permutation xs (c :: ys) ->
  in_range c -> Forall in_range ys -> In 0 ys -> In 255 ys ->
  Forall in_range xs /\ In 0 xs /\ In 255 xs.
Proof.
  intros Hp Hc Hr H0 H255. symmetry in Hp.
  split; [|split].
  - eapply Permutation_Forall; [exact Hp|]. constructor; assumption.
  - eapply Permutation_in; [exact Hp|]. right. exact H0.
  - eapply Permutation_in; [exact Hp|]. right. exact H255.
Qed.

Lemma NoDup_with (xs ys : list Z) (c : Z) :
  Permutation xs (c :: ys) -> NoDup ys -> ~ In c ys -> NoDup xs.
Proof.
  intros Hp Hnd Hc. eapply Permutation_NoDup; [symmetry; exact Hp|].
  constructor; assumption.
Qed.

Lemma assign_perm (l np : list Point) (d : nat) (q : Point) :
  assign l d q = Some np -> Permutation (map x np) (x q :: others d (map x l)).
Proof.
  intros E. destruct (Nat.lt_trichotomy d (length l)) as [Hlt | [-> | Hgt]].
  - rewrite assign_inside in E by exact Hlt. injection E as <-.
    unfold others. rewrite map_app, map_cons, firstn_map, skipn_map.
    symmetry. apply Permutation_middle.
  - rewrite assign_end in E. injection E as <-.
    rewrite others_beyond by (rewrite length_map; lia).
    rewrite map_app. cbn [map]. symmetry. apply Permutation_cons_append.
  - rewrite assign_beyond in E by exact Hgt. discriminate.
Qed.

Lemma removed_ordered (i : nat) (l : list Point) :
  OrderedCurve l -> (0 < i)%nat -> i <> (length l - 1)%nat -> OrderedCurve (others i l).
Proof.
  intros Ho Hi0 Hin.
  destruct (others_keep_ends i l Ho Hi0 Hin) as (H0 & H255 & Hr).
  apply OrderedCurve_by_contents. rewrite map_others.
  split; [|auto].
  apply others_sorted. apply OrderedCurve_by_contents in Ho. apply Ho.
Qed.

Lemma removed_channel (i : nat) (l : list Point) :
  ChannelCurve l -> (0 < i)%nat -> i <> (length l - 1)%nat -> ChannelCurve (others i l).
Proof.
  intros Hc Hi0 Hin. apply ChannelCurve_by_contents in Hc. destruct Hc as [Ho Hnd].
  apply ChannelCurve_by_contents. split; [apply removed_ordered; assumption|].
  rewrite map_others. apply others_NoDup. exact Hnd.
Qed.

Lemma clicked_ordered (l : list Point) (p : Point) :
  OrderedCurve l -> in_range (x p) -> OrderedCurve (sort_by_x (l ++ [p])).
Proof.
  intros Ho Hp. apply OrderedCurve_by_contents in Ho. destruct Ho as (_ & Hr & H0 & H255).
  apply sort_by_x_ordered; rewrite map_app; cbn [map].
  - apply Forall_app. split; [exact Hr|]. constructor; [exact Hp | constructor].
  - apply in_or_app. left. exact H0.
  - apply in_or_app. left. exact H255.
Qed.

Lemma clicked_channel (l : list Point) (p : Point) :
  ChannelCurve l -> in_range (x p) -> ~ In (x p) (map x l) ->
  ChannelCurve (sort_by_x (l ++ [p])).
Proof.
  intros Hc Hp Hfree. apply ChannelCurve_by_contents in Hc. destruct Hc as [Ho Hnd].
  apply ChannelCurve_by_contents. split; [apply clicked_ordered; assumption|].
  eapply Permutation_NoDup.
  - symmetry. apply Permutation_map, sort_by_x_perm.
  - rewrite map_app. cbn [map].
    eapply Permutation_NoDup; [apply Permutation_cons_append|].
    constructor; assumption.
Qed.

Lemma dragged_interior_ordered (l np : list Point) (d : nat) (q : Point) :
  OrderedCurve l -> (0 < d)%nat -> d <> (length l - 1)%nat -> in_range (x q) ->
  assign l d q = Some np ->
  OrderedCurve (sort_by_x np).
Proof.
  intros Ho Hd0 Hdn Hq E.
  destruct (others_keep_ends d l Ho Hd0 Hdn) as (H0 & H255 & Hr).
  destruct (contents_with _ _ _ (assign_perm l np d q E) Hq Hr H0 H255) as (Hr' & H0' & H255').
  apply sort_by_x_ordered; assumption.
Qed.

Lemma dragged_interior_channel (l np : list Point) (d : nat) (q : Point) :
  ChannelCurve l -> (0 < d)%nat -> d <> (length l - 1)%nat -> in_range (x q) ->
  ~ In (x q) (others d (map x l)) ->
  assign l d q = Some np ->
  ChannelCurve (sort_by_x np).
Proof.
  intros Hc Hd0 Hdn Hq Hfree E.
  pose proof (ChannelCurve_ordered l Hc) as Ho.
  apply ChannelCurve_by_contents in Hc. destruct Hc as [_ Hnd].
  apply ChannelCurve_by_contents.
  split; [eapply dragged_interior_ordered; eassumption|].
  eapply Permutation_NoDup; [symmetry; apply Permutation_map, sort_by_x_perm|].
  eapply NoDup_with; [apply (assign_perm l np d q E) | | exact Hfree].
  apply others_NoDup. exact Hnd.
Qed.

(** Moving a point up or down leaves the [x] values what they were. *)
Lemma dragged_vertically (l np : list Point) (d : nat) (p : Point) (newY : Z) :
  nth_error l d = Some p ->
  assign l d {| x := x p; y := newY |} = Some np ->
  map x np = map x l.
Proof.
  intros Hp E.
  assert (Hd : (d < length l)%nat) by (apply nth_error_Some; congruence).
  rewrite assign_inside in E by exact Hd. injection E as <-.
  rewrite (split_at d l p Hp) at 3.
  rewrite !map_app. reflexivity.
Qed.

Lemma same_xs_ordered (l np : list Point) :
  map x np = map x l -> OrderedCurve l -> OrderedCurve (sort_by_x np).
Proof.
  intros E Ho. apply OrderedCurve_by_contents in Ho. destruct Ho as (_ & Hr & H0 & H255).
  apply sort_by_x_ordered; rewrite E; assumption.
Qed.

Lemma same_xs_channel (l np : list Point) :
  map x np = map x l -> ChannelCurve l -> ChannelCurve (sort_by_x np).
Proof.
  intros E Hc. pose proof (ChannelCurve_ordered l Hc) as Ho.
  apply ChannelCurve_by_contents in Hc. destruct Hc as [_ Hnd].
  apply ChannelCurve_by_contents. split; [eapply same_xs_ordered; eassumption|].
  eapply Permutation_NoDup; [symmetry; apply Permutation_map, sort_by_x_perm|].
  rewrite E. exact Hnd.
Qed.

(** *** The handlers *)

Lemma removePoint_cases (i : nat) (ed : Editor) :
  removePoint i ed = ed \/
  ((0 < i)%nat /\ i <> (length (points ed) - 1)%nat /\
   settings (removePoint i ed)
     = set (settings ed) (activeChannel ed) (others i (points ed))).
Proof.
  unfold removePoint.
  destruct (Z.eqb_spec (Z.of_nat i) 0) as [E0 | N0]; cbn [orb]; [left; reflexivity|].
  destruct (Z.eqb_spec (Z.of_nat i) (Z.of_nat (length (points ed)) - 1)) as [El | Nl];
    [left; reflexivity|].
  right. split; [lia|]. split; [lia|].
  cbn [settings commit onChange].
  rewrite filter_index_others by lia. rewrite Nat.sub_0_r. reflexivity.
Qed.

(** The point a drag puts at position [d], and whether the position is
    strictly between the ends. *)
Definition interior (d : nat) (l : list Point) : Prop :=
  (0 < d)%nat /\ Z.of_nat d <> Z.of_nat (length l) - 1.

Lemma handleGlobalMove_cases (e : MouseEvent) (rect : option DOMRect) (ed ed' : Editor) :
  handleGlobalMove e rect ed = Some ed' ->
  ed' = ed \/
  exists d r np,
    draggingPoint ed = Some d /\ rect = Some r /\
    settings ed' = set (settings ed) (activeChannel ed) (sort_by_x np) /\
    ((interior d (points ed) /\
      assign (points ed) d {| x := JS.clamp255 (curve_x e r);
                              y := JS.clamp255 (curve_y e r) |} = Some np) \/
     (~ interior d (points ed) /\
      exists p, nth_error (points ed) d = Some p /\
                assign (points ed) d {| x := x p; y := JS.clamp255 (curve_y e r) |}
                  = Some np)).
Proof.
  unfold handleGlobalMove.
  destruct (draggingPoint ed) as [d|]; [|intros [= <-]; left; reflexivity].
  destruct rect as [r|]; [|intros [= <-]; left; reflexivity].
  destruct (Z.eqb_spec (Z.of_nat d) 0) as [E0 | N0]; cbn [negb andb].
  - destruct (nth_error (points ed) d) as [p|] eqn:Ep; [|discriminate].
    destruct (assign _ d _) as [np|] eqn:Ea; [|discriminate].
    intros [= <-]. right. exists d, r, np.
    split; [reflexivity|]. split; [reflexivity|]. split; [reflexivity|].
    right. split; [unfold interior; lia|]. exists p. auto.
  - destruct (Z.eqb_spec (Z.of_nat d) (Z.of_nat (length (points ed)) - 1)) as [El | Nl];
      cbn [negb].
    + destruct (nth_error (points ed) d) as [p|] eqn:Ep; [|discriminate].
      destruct (assign _ d _) as [np|] eqn:Ea; [|discriminate].
      intros [= <-]. right. exists d, r, np.
      split; [reflexivity|]. split; [reflexivity|]. split; [reflexivity|].
      right. split; [unfold interior; lia|]. exists p. auto.
    + destruct (assign _ d _) as [np|] eqn:Ea; [|discriminate].
      intros [= <-]. right. exists d, r, np.
      split; [reflexivity|]. split; [reflexivity|]. split; [reflexivity|].
      left. split; [unfold interior; lia | exact Ea].
Qed.

Lemma interior_position (d : nat) (l : list Point) :
  interior d l -> (2 <= length l)%nat -> (0 < d)%nat /\ d <> (length l - 1)%nat.
Proof. unfold interior. lia. Qed.

(** *** All four channels *)

Definition valid (s : CurveSettings) : Prop := forall ch, ChannelCurve (get s ch).
Definition ordered (s : CurveSettings) : Prop := forall ch, OrderedCurve (get s ch).

Lemma valid_ordered (s : CurveSettings) : valid s -> ordered s.
Proof. intros H ch. apply ChannelCurve_ordered, H. Qed.

Lemma valid_set (s : CurveSettings) (ch : Channel) (pts : list Point) :
  valid s -> ChannelCurve pts -> valid (set s ch pts).
Proof. exact (set_preserves ChannelCurve s ch pts). Qed.

Lemma ordered_set (s : CurveSettings) (ch : Channel) (pts : list Point) :
  ordered s -> OrderedCurve pts -> ordered (set s ch pts).
Proof. exact (set_preserves OrderedCurve s ch pts). Qed.

Lemma removePoint_valid (i : nat) (ed : Editor) :
  valid (settings ed) -> valid (settings (removePoint i ed)).
Proof.
  intros Hv. destruct (removePoint_cases i ed) as [-> | (Hi0 & Hin & ->)]; [exact Hv|].
  apply valid_set; [exact Hv|].
  apply removed_channel; [apply Hv | exact Hi0 | exact Hin].
Qed.

Lemma removePoint_ordered (i : nat) (ed : Editor) :
  ordered (settings ed) -> ordered (settings (removePoint i ed)).
Proof.
  intros Hv. destruct (removePoint_cases i ed) as [-> | (Hi0 & Hin & ->)]; [exact Hv|].
  apply ordered_set; [exact Hv|].
  apply removed_ordered; [apply Hv | exact Hi0 | exact Hin].
Qed.

Lemma handleCanvasClick_ordered (e : MouseEvent) (rect : option DOMRect) (ed : Editor) :
  (forall r, rect = Some r -> over_canvas e r) ->
  ordered (settings ed) -> ordered (settings (handleCanvasClick e rect ed)).
Proof.
  intros Hover Hv. unfold handleCanvasClick.
  destruct (hoveredPoint ed); [exact Hv|].
  destruct rect as [r|]; [|exact Hv].
  cbn [settings commit onChange].
  apply ordered_set; [exact Hv|].
  apply clicked_ordered; [apply Hv|].
  cbn [x]. apply curve_x_in_range, Hover. reflexivity.
Qed.

Lemma handleCanvasClick_valid (e : MouseEvent) (rect : option DOMRect) (ed : Editor) :
  (forall r, rect = Some r ->
     over_canvas e r /\ ~ In (curve_x e r) (map x (points ed))) ->
  valid (settings ed) -> valid (settings (handleCanvasClick e rect ed)).
Proof.
  intros Hover Hv. unfold handleCanvasClick.
  destruct (hoveredPoint ed); [exact Hv|].
  destruct rect as [r|]; [|exact Hv].
  destruct (Hover r eq_refl) as [Hin Hfree].
  cbn [settings commit onChange].
  apply valid_set; [exact Hv|].
  apply clicked_channel; [apply Hv | | exact Hfree].
  cbn [x]. apply curve_x_in_range, Hin.
Qed.

Lemma handleGlobalMove_ordered (e : MouseEvent) (rect : option DOMRect) (ed ed' : Editor) :
  handleGlobalMove e rect ed = Some ed' ->
  ordered (settings ed) -> ordered (settings ed').
Proof.
  intros Hm Hv.
  destruct (handleGlobalMove_cases e rect ed ed' Hm)
    as [-> | (d & r & np & Hd & -> & -> & Hcase)]; [exact Hv|].
  apply ordered_set; [exact Hv|].
  pose proof (Hv (activeChannel ed)) as Ho. fold (points ed) in Ho.
  destruct Hcase as [(Hint & Ea) | (_ & p & Hp & Ea)].
  - assert (Hlen : (2 <= length (points ed))%nat) by apply Ho.
    destruct (interior_position d _ Hint Hlen) as [Hd0 Hdn].
    eapply dragged_interior_ordered; try eassumption.
    cbn [x]. apply clamp255_in_range.
  - eapply same_xs_ordered; [|exact Ho].
    eapply dragged_vertically; eassumption.
Qed.

Lemma handleGlobalMove_valid (e : MouseEvent) (rect : option DOMRect) (ed ed' : Editor) :
  handleGlobalMove e rect ed = Some ed' ->
  valid (settings ed) ->
  (forall d r, draggingPoint ed = Some d -> rect = Some r -> interior d (points ed) ->
     ~ In (JS.clamp255 (curve_x e r)) (others d (map x (points ed)))) ->
  valid (settings ed').
Proof.
  intros Hm Hv Hfree.
  destruct (handleGlobalMove_cases e rect ed ed' Hm)
    as [-> | (d & r & np & Hd & -> & -> & Hcase)]; [exact Hv|].
  apply valid_set; [exact Hv|].
  pose proof (Hv (activeChannel ed)) as Hc. fold (points ed) in Hc.
  destruct Hcase as [(Hint & Ea) | (_ & p & Hp & Ea)].
  - assert (Hlen : (2 <= length (points ed))%nat) by apply Hc.
    destruct (interior_position d _ Hint Hlen) as [Hd0 Hdn].
    eapply dragged_interior_channel; try eassumption.
    + cbn [x]. apply clamp255_in_range.
    + cbn [x]. apply (Hfree d r); auto.
  - eapply same_xs_channel; [|exact Hc].
    eapply dragged_vertically; eassumption.
Qed.

Lemma handleGlobalMove_defined (e : MouseEvent) (rect : option DOMRect) (ed : Editor) (d : nat) :
  draggingPoint ed = Some d -> (d < length (points ed))%nat ->
  exists ed', handleGlobalMove e rect ed = Some ed'.
Proof.
  intros Hd Hlt. unfold handleGlobalMove. rewrite Hd.
  destruct rect as [r|]; [|eauto].
  destruct (nth_error (points ed) d) as [p|] eqn:Ep;
    [|apply nth_error_None in Ep; lia].
  rewrite !assign_inside by exact Hlt.
  destruct (negb (Z.of_nat d =? 0) && negb (Z.of_nat d =? Z.of_nat (length (points ed)) - 1));
    eauto.
Qed.

(** *** A session on a 255 by 255 canvas *)

Definition canvas : DOMRect := {| left := 0; top := 0; width := 255; height := 255 |}.

Definition fresh_editor : Editor :=
  {| settings := DEFAULT_CURVES; activeChannel := all;
     hoveredPoint := None; draggingPoint := None;
     hist := mount DEFAULT_CURVES empty_history |}.

(** One click in the middle of the canvas, and a second one straight
    below it. *)
Definition clicked_once : Editor :=
  handleCanvasClick {| clientX := 128; clientY := 55 |} (Some canvas) fresh_editor.

Definition clicked_twice : Editor :=
  handleCanvasClick {| clientX := 128; clientY := 205 |} (Some canvas) clicked_once.

(** The new point is grabbed and dragged out of the canvas to the left. *)
Definition grabbed : Editor := handleMouseDown 1 clicked_once.

Definition dragged_out : option Editor :=
  handleGlobalMove {| clientX := -40 # 1; clientY := 55 |} (Some canvas) grabbed.

Lemma identity_curve_valid : ChannelCurve identity_curve.
Proof.
  unfold ChannelCurve, identity_curve. cbn.
  split; [repeat constructor|]. repeat split; lia.
Qed.

Lemma fresh_editor_valid : valid (settings fresh_editor).
Proof. intros ch. destruct ch; exact identity_curve_valid. Qed.

Lemma clicked_once_valid : valid (settings clicked_once).
Proof.
  intros ch. destruct ch; try exact identity_curve_valid.
  unfold ChannelCurve. cbn. split; [repeat constructor; lia|]. repeat split; lia.
Qed.

Lemma not_strictly_increasing (a b : Z) (before after : list Z) :
  b <= a -> ~ Sorted Z.lt (before ++ a :: b :: after).
Proof.
  intros Hba Hs. induction before as [|c before IH]; cbn [app] in Hs.
  - inversion Hs as [|? ? _ Hhd]; subst. inversion Hhd; subst. lia.
  - apply IH. inversion Hs; assumption.
Qed.

(** The claim of C5 fails for the click and for the drag.  From a valid
    set of curves, a click at an [x] that a point already has leaves two
    points with that [x]; and a point dragged past the left edge is
    clamped to [x = 0], the [x] of the first point.  Either way the active
    curve is no longer strictly increasing. *)
Lemma click_and_drag_break_uniqueness :
  valid (settings clicked_once) /\
  over_canvas {| clientX := 128; clientY := 205 |} canvas /\
  points clicked_twice
    = [ {| x := 0; y := 0 |}; {| x := 128; y := 200 |};
        {| x := 128; y := 50 |}; {| x := 255; y := 255 |} ] /\
  ~ ChannelCurve (get (settings clicked_twice) all) /\
  valid (settings grabbed) /\
  (exists ed', dragged_out = Some ed' /\
     points ed' = [ {| x := 0; y := 0 |}; {| x := 0; y := 200 |};
                    {| x := 255; y := 255 |} ] /\
     ~ ChannelCurve (get (settings ed') all)).
Proof.
  split; [exact clicked_once_valid|].
  split; [unfold over_canvas; cbn; repeat split; discriminate|].
  split; [reflexivity|].
  split.
  { intros (Hs & _). cbn in Hs.
    apply (not_strictly_increasing 128 128 [0] [255]); [lia | exact Hs]. }
  split; [exact clicked_once_valid|].
  eexists. split; [reflexivity|]. split; [reflexivity|].
  intros (Hs & _). cbn in Hs.
  apply (not_strictly_increasing 0 0 [] [255]); [lia | exact Hs].
Qed.

(** C5, amended.  The three editing operations preserve, for every
    channel, the ordered form of the invariant: [x] values not decreasing,
    first [x] 0, last [x] 255, at least two points (for a click, one over
    the canvas).  The strict form (unique, strictly increasing [x]) is
    preserved by [removePoint] always, by a click whose [x] no point of the
    active curve has yet, and by a drag of an end point or of an interior
    point to an [x] that no other point of the curve has.  A drag of a
    point of the curve always yields a curve. *)
Theorem curve_edits_preserve_order :
  (forall i ed,
      valid (settings ed) -> valid (settings (removePoint i ed))) /\
  (forall i ed,
      ordered (settings ed) -> ordered (settings (removePoint i ed))) /\
  (forall e rect ed,
      (forall r, rect = Some r -> over_canvas e r) ->
      ordered (settings ed) -> ordered (settings (handleCanvasClick e rect ed))) /\
  (forall e rect ed,
      (forall r, rect = Some r ->
         over_canvas e r /\ ~ In (curve_x e r) (map x (points ed))) ->
      valid (settings ed) -> valid (settings (handleCanvasClick e rect ed))) /\
  (forall e rect ed ed',
      handleGlobalMove e rect ed = Some ed' ->
      ordered (settings ed) -> ordered (settings ed')) /\
  (forall e rect ed ed',
      handleGlobalMove e rect ed = Some ed' ->
      valid (settings ed) ->
      (forall d r, draggingPoint ed = Some d -> rect = Some r ->
         interior d (points ed) ->
         ~ In (JS.clamp255 (curve_x e r)) (others d (map x (points ed)))) ->
      valid (settings ed')) /\
  (forall e rect ed d,
      draggingPoint ed = Some d -> (d < length (points ed))%nat ->
      exists ed', handleGlobalMove e rect ed = Some ed').
Proof.
  split; [exact removePoint_valid|].
  split; [exact removePoint_ordered|].
  split; [exact handleCanvasClick_ordered|].
  split; [exact handleCanvasClick_valid|].
  split; [exact handleGlobalMove_ordered|].
  split; [exact handleGlobalMove_valid | exact handleGlobalMove_defined].
Qed.

Lemma curve_edits_preserve_order_witness :
  valid (settings (removePoint 1 clicked_once)) /\
  ordered (settings clicked_twice) /\
  valid (settings (handleCanvasClick {| clientX := 128; clientY := 55 |}
                     (Some canvas) fresh_editor)) /\
  (forall ed', dragged_out = Some ed' -> ordered (settings ed')) /\
  (forall ed',
     handleGlobalMove {| clientX := 60; clientY := 55 |} (Some canvas) grabbed = Some ed' ->
     valid (settings ed')).
Proof.
  destruct curve_edits_preserve_order
    as (Hrm & _ & Hclick & Hclick' & Hdrag & Hdrag' & _).
  split; [apply Hrm; exact clicked_once_valid|].
  split.
  { apply Hclick; [|apply valid_ordered; exact clicked_once_valid].
    intros r [= <-]. unfold over_canvas; cbn; repeat split; discriminate. }
  split.
  { apply Hclick'; [|exact fresh_editor_valid].
    intros r [= <-]. split; [unfold over_canvas; cbn; repeat split; discriminate|].
    cbn. intros [H | [H | []]]; discriminate. }
  split.
  { intros ed' E. apply (Hdrag _ _ _ _ E). apply valid_ordered. exact clicked_once_valid. }
  intros ed' E. apply (Hdrag' _ _ _ _ E); [exact clicked_once_valid|].
  intros d r [= <-] [= <-] _. cbn. intros [H | [H | []]]; discriminate.
Defined.

End ChannelCurves.

(** ** Retry and backoff of the AI call *)

Section RetryPolicy.

Import Types Async GeminiService.

Variables (imageBase64 : string) (color : BackgroundColor) (clothing : ClothingOption).

(** The request every attempt sends. *)
Definition request : Call := GenerateContent (cleanBase64 imageBase64) color clothing.

(** An answer of the model that the [catch] block takes for a rate limit:
    the attempt fails with a message that contains "429". *)
Definition rate_limit_failure (r : Result Response) : Prop :=
  exists error, attempt r = Rejected error /\ rate_limited error = true.

(** What the [catch] block throws for an error it does not retry. *)
Definition surfaced (error : Error) : Error :=
  {| message := Some (JS.or_else (message error)
                        "An unexpected error occurred during AI processing."%string) |}.

(** The calls of [k] failed attempts in a row, the first of them with
    retry count [retryCount]: each attempt and the wait after it. *)
Definition attempts_then_waits (retryCount k : nat) : list Call :=
  flat_map (fun i => [request; Sleep (INITIAL_DELAY * 2 ^ Z.of_nat i)]) (seq retryCount k).

(** The world after some calls that used up the first answers of the
    model. *)
Definition after (w : World) (remaining : list (Result Response)) (made : list Call) : World :=
  {| gradings := gradings w; generations := remaining; sheets := sheets w;
     log := rev made ++ log w |}.

Lemma after_nothing (w : World) : after w (generations w) [] = w.
Proof. destruct w; reflexivity. Qed.

Lemma attempts_then_waits_S (retryCount k : nat) :
  attempts_then_waits retryCount (S k)
  = request :: Sleep (INITIAL_DELAY * 2 ^ Z.of_nat retryCount)
      :: attempts_then_waits (S retryCount) k.
Proof. reflexivity. Qed.

Lemma processBackground_total (retryCount : nat) :
  total (processBackground imageBase64 color clothing retryCount).
Proof.
  unfold processBackground.
  assert (H : forall fuel rc, (MAX_RETRIES - rc < fuel)%nat ->
                total (processBackground_fuel fuel imageBase64 color clothing rc)).
  { induction fuel as [|fuel IH]; intros rc Hf; [lia|].
    cbn [processBackground_fuel total]. intros r.
    destruct (attempt r) as [uri | error]; [exact I|].
    destruct (rate_limited error); cbn [andb]; [|exact I].
    destruct (Nat.ltb_spec rc MAX_RETRIES) as [Hlt | Hge]; [|exact I].
    cbn [total]. intros _. apply IH. lia. }
  apply H. lia.
Qed.

(** While the attempts are rate limited and retries are left, the run
    goes from one attempt to the next, waiting in between. *)
Lemma run_rate_limited (fails : list (Result Response)) :
  forall (fuel retryCount : nat) (w : World) (rest : list (Result Response)),
    generations w = fails ++ rest ->
    Forall rate_limit_failure fails ->
    (retryCount + length fails <= MAX_RETRIES)%nat ->
    (length fails < fuel)%nat ->
    run (processBackground_fuel fuel imageBase64 color clothing retryCount) w
    = run (processBackground_fuel (fuel - length fails) imageBase64 color clothing
             (retryCount + length fails))
          (after w rest (attempts_then_waits retryCount (length fails))).
Proof.
  induction fails as [|f fails IH]; intros fuel rc w rest Hg Hall Hrc Hfuel.
  - cbn [length app] in *. rewrite Nat.sub_0_r, Nat.add_0_r.
    cbn [attempts_then_waits seq flat_map]. rewrite <- Hg, after_nothing. reflexivity.
  - cbn [length app] in *.
    inversion Hall as [|? ? (error & Hat & Hlim) Hall']; subst.
    destruct fuel as [|fuel]; [lia|].
    cbn [processBackground_fuel run answer]. rewrite Hg.
    rewrite Hat, Hlim. cbn [andb].
    destruct (Nat.ltb_spec rc MAX_RETRIES) as [_ | Hge]; [|lia].
    cbn [run answer gradings generations sheets log].
    rewrite (IH fuel (rc + 1)%nat _ rest); cbn [generations]; try reflexivity;
      try assumption; try lia.
    replace (rc + 1 + length fails)%nat with (rc + S (length fails))%nat by lia.
    cbn [Nat.sub]. f_equal.
    unfold after. cbn [gradings generations sheets log].
    rewrite attempts_then_waits_S. cbn [rev].
    rewrite Nat.add_1_r, <- !app_assoc. reflexivity.
Qed.

Lemma run_resolved (fuel retryCount : nat) (w : World)
      (r : Result Response) (rest : list (Result Response)) (uri : string) :
  generations w = r :: rest -> attempt r = Resolved uri ->
  run (processBackground_fuel (S fuel) imageBase64 color clothing retryCount) w
  = Some (Resolved uri, after w rest [request]).
Proof.
  intros Hg Hat. cbn [processBackground_fuel run answer]. rewrite Hg, Hat. reflexivity.
Qed.

Lemma run_surfaced (fuel retryCount : nat) (w : World)
      (r : Result Response) (rest : list (Result Response)) (error : Error) :
  generations w = r :: rest -> attempt r = Rejected error ->
  rate_limited error = false \/ (MAX_RETRIES <= retryCount)%nat ->
  run (processBackground_fuel (S fuel) imageBase64 color clothing retryCount) w
  = Some (Rejected (surfaced error), after w rest [request]).
Proof.
  intros Hg Hat Hwhy. cbn [processBackground_fuel run answer]. rewrite Hg, Hat.
  destruct Hwhy as [-> | Hge]; [reflexivity|].
  destruct (Nat.ltb_spec retryCount MAX_RETRIES) as [Hlt | _]; [lia|].
  rewrite andb_false_r. reflexivity.
Qed.

(** Every run makes the calls of some [k <= 3] failed attempts with their
    waits, and then one last attempt. *)
Lemma run_shape (fuel : nat) :
  forall (retryCount : nat) (w w' : World) (out : Result string),
    run (processBackground_fuel fuel imageBase64 color clothing retryCount) w
      = Some (out, w') ->
    exists k,
      (k <= MAX_RETRIES - retryCount)%nat /\
      log w' = request :: rev (attempts_then_waits retryCount k) ++ log w.
Proof.
  induction fuel as [|fuel IH]; intros rc w w' out Hrun; [discriminate|].
  cbn [processBackground_fuel run answer] in Hrun.
  destruct (generations w) as [|r rest] eqn:Hg; [discriminate|].
  destruct (attempt r) as [uri | error].
  - injection Hrun as _ <-. exists 0%nat. split; [lia | reflexivity].
  - destruct (rate_limited error); cbn [andb] in Hrun.
    + destruct (Nat.ltb_spec rc MAX_RETRIES) as [Hlt | Hge].
      * cbn [run answer gradings generations sheets log] in Hrun.
        apply IH in Hrun. destruct Hrun as (k & Hk & Hlog).
        exists (S k). split; [lia|].
        rewrite Hlog. cbn [log]. rewrite attempts_then_waits_S. cbn [rev].
        rewrite Nat.add_1_r, <- !app_assoc. reflexivity.
      * injection Hrun as _ <-. exists 0%nat. split; [lia | reflexivity].
    + injection Hrun as _ <-. exists 0%nat. split; [lia | reflexivity].
Qed.

Lemma waits_of_attempts (k : nat) :
  (k <= 3)%nat ->
  waits (attempts_then_waits 0 k) = firstn k [2000; 4000; 8000]%Z /\
  generation_count (attempts_then_waits 0 k ++ [request]) = S k.
Proof.
  intros Hk.
  destruct k as [|[|[|[|k]]]]; [split; reflexivity .. | lia].
Qed.

(** C3.  Retry and backoff of [processBackground].  Let the model answer
    [k <= 3] attempts in a row with a rate-limit failure (a message that
    contains "429"), and the next attempt with [r].  Then the run makes
    exactly [k + 1] requests, waiting 2000 * 2^i ms after the i-th failure
    (2000, 4000, 8000), and ends with [r]: the image if that attempt
    succeeds; its error, surfaced without any retry, if it fails without
    the rate-limit signal; and also its error if it is the fourth
    rate-limit failure in a row.  No run whatsoever makes more than three
    retries, and the function always terminates. *)
Theorem retry_backoff :
  (forall (w : World) (fails : list (Result Response)) (r : Result Response)
          (rest : list (Result Response)),
      generations w = fails ++ r :: rest ->
      Forall rate_limit_failure fails ->
      (length fails <= 3)%nat ->
      let made := attempts_then_waits 0 (length fails) ++ [request] in
      waits made = firstn (length fails) [2000; 4000; 8000]%Z /\
      generation_count made = S (length fails) /\
      (forall uri,
          attempt r = Resolved uri ->
          run (processBackground imageBase64 color clothing 0) w
          = Some (Resolved uri, after w rest made)) /\
      (forall error,
          attempt r = Rejected error -> rate_limited error = false ->
          run (processBackground imageBase64 color clothing 0) w
          = Some (Rejected (surfaced error), after w rest made)) /\
      (forall error,
          attempt r = Rejected error -> length fails = 3%nat ->
          run (processBackground imageBase64 color clothing 0) w
          = Some (Rejected (surfaced error), after w rest made))) /\
  (forall (w w' : World) (out : Result string),
      run (processBackground imageBase64 color clothing 0) w = Some (out, w') ->
      exists k,
        (k <= 3)%nat /\
        log w' = rev (attempts_then_waits 0 k ++ [request]) ++ log w) /\
  total (processBackground imageBase64 color clothing 0).
Proof.
  split; [|split; [|apply processBackground_total]].
  - intros w fails r rest Hg Hall Hlen made.
    assert (Hw : waits made = firstn (length fails) [2000; 4000; 8000]%Z).
    { unfold made, waits. rewrite flat_map_app. cbn [flat_map request].
      rewrite !app_nil_r. apply (waits_of_attempts _ Hlen). }
    split; [exact Hw|].
    split; [apply (waits_of_attempts _ Hlen)|].
    unfold processBackground.
    rewrite (run_rate_limited fails _ 0%nat w (r :: rest) Hg Hall)
      by (cbn; unfold MAX_RETRIES; lia).
    replace (S (MAX_RETRIES - 0) - length fails)%nat
      with (S (MAX_RETRIES - length fails)) by (unfold MAX_RETRIES; lia).
    assert (Hafter : after (after w (r :: rest) (attempts_then_waits 0 (length fails)))
                           rest [request]
                     = after w rest made).
    { unfold after, made. cbn [gradings generations sheets log].
      rewrite rev_app_distr, <- app_assoc. reflexivity. }
    split; [|split].
    + intros uri Hat. erewrite run_resolved; [|reflexivity | exact Hat].
      rewrite Hafter. reflexivity.
    + intros error Hat Hno. erewrite run_surfaced; [|reflexivity | exact Hat | left; exact Hno].
      rewrite Hafter. reflexivity.
    + intros error Hat H3.
      erewrite run_surfaced; [|reflexivity | exact Hat | right; cbn; unfold MAX_RETRIES; lia].
      rewrite Hafter. reflexivity.
  - intros w w' out Hrun. unfold processBackground in Hrun.
    apply run_shape in Hrun. destruct Hrun as (k & Hk & Hlog).
    exists k. split; [unfold MAX_RETRIES in Hk; lia|].
    rewrite Hlog, rev_app_distr. reflexivity.
Qed.

End RetryPolicy.

(** A model that is rate limited three times and then sends an image. *)
Definition too_many_requests : Async.Result Async.Response :=
  Async.Rejected {| Async.message := Some "got status: 429 Too Many Requests"%string |}.

Definition an_image : Async.Result Async.Response :=
  Async.Resolved
    {| Async.candidates := Some [[ {| Async.inlineData := Some "iVBORw0KGgo"%string |} ]] |}.

Definition busy_then_fine : Async.World :=
  {| Async.gradings := []; Async.sheets := []; Async.log := [];
     Async.generations := [too_many_requests; too_many_requests; too_many_requests; an_image] |}.

Lemma too_many_requests_is_rate_limit : rate_limit_failure too_many_requests.
Proof. eexists. split; reflexivity. Qed.

Lemma retry_backoff_witness :
  exists w',
    Async.run (GeminiService.processBackground "data:image/png;base64,AAAA"
                 Types.WHITE Types.NONE 0) busy_then_fine
      = Some (Async.Resolved "data:image/png;base64,iVBORw0KGgo"%string, w') /\
    Async.waits (Async.calls w') = [2000; 4000; 8000]%Z /\
    Async.generation_count (Async.calls w') = 4%nat /\
    Async.generations w' = [].
Proof.
  destruct (retry_backoff "data:image/png;base64,AAAA" Types.WHITE Types.NONE)
    as (Hscript & _ & _).
  destruct (Hscript busy_then_fine
              [too_many_requests; too_many_requests; too_many_requests] an_image [])
    as (_ & _ & Hok & _ & _).
  - reflexivity.
  - repeat constructor; exact too_many_requests_is_rate_limit.
  - cbn. lia.
  - eexists. split; [apply Hok; reflexivity|].
    split; [reflexivity|]. split; reflexivity.
Defined.

(** ** The generate pipeline *)

Section GeneratePipeline.

Import Types Async Pipeline.

Lemma run_bind {A B : Type} (p : Prog A) (f : A -> Prog B) (w : World) :
  run (Async.bind p f) w
  = match run p w with
    | Some (a, w') => run (f a) w'
    | None => None
    end.
Proof.
  revert w. induction p as [a | c k IH |]; intros w; cbn [Async.bind run].
  - reflexivity.
  - destruct (answer c w) as [[x w']|]; [apply IH | reflexivity].
  - reflexivity.
Qed.

(** The log only grows. *)
Lemma answer_log (c : Call) (w w' : World) (x : Answer c) :
  answer c w = Some (x, w') -> log w' = c :: log w.
Proof.
  destruct c; cbn [answer].
  - destruct (gradings w); [discriminate|]. intros [= _ <-]. reflexivity.
  - destruct (generations w); [discriminate|]. intros [= _ <-]. reflexivity.
  - intros [= _ <-]. reflexivity.
  - destruct (sheets w); [discriminate|]. intros [= _ <-]. reflexivity.
Qed.

Lemma run_log_grows {A : Type} (p : Prog A) :
  forall (w w' : World) (a : A),
    run p w = Some (a, w') -> exists made, log w' = made ++ log w.
Proof.
  induction p as [a | c k IH |]; intros w w' a' Hrun; cbn [run] in Hrun.
  - injection Hrun as _ <-. exists []. reflexivity.
  - destruct (answer c w) as [[x w1]|] eqn:Ea; [|discriminate].
    apply IH in Hrun. destruct Hrun as (made & Hlog).
    apply answer_log in Ea. exists (made ++ [c]).
    rewrite Hlog, Ea, <- app_assoc. reflexivity.
  - discriminate.
Qed.

(** A program that never asks the model. *)
Fixpoint offline {A : Type} (p : Prog A) : Prop :=
  match p with
  | Ret _ => True
  | Await c k => is_generation c = false /\ forall x, offline (k x)
  | OutOfFuel => True
  end.

Lemma offline_run {A : Type} (p : Prog A) :
  offline p ->
  forall (w w' : World) (a : A),
    run p w = Some (a, w') ->
    filter is_generation (log w') = filter is_generation (log w).
Proof.
  induction p as [a | c k IH |]; intros Hoff w w' a' Hrun; cbn [run] in Hrun.
  - injection Hrun as _ <-. reflexivity.
  - destruct Hoff as [Hc Hk].
    destruct (answer c w) as [[x w1]|] eqn:Ea; [|discriminate].
    rewrite (IH x (Hk x) _ _ _ Hrun).
    apply answer_log in Ea. rewrite Ea. cbn [filter]. rewrite Hc. reflexivity.
  - discriminate.
Qed.

(** The world after one more call was answered. *)
Definition graded (w : World) (rest : list (Result string)) (c : Call) : World :=
  {| gradings := rest; generations := generations w; sheets := sheets w;
     log := c :: log w |}.

Definition composed (w : World) (rest : list (Result string)) (c : Call) : World :=
  {| gradings := gradings w; generations := generations w; sheets := rest;
     log := c :: log w |}.

Lemma run_grading {A : Type} (image : string) (curves : CurveAdjustment.CurveSettings)
      (k : Result string -> Prog A) (w : World) (r : Result string)
      (rest : list (Result string)) :
  gradings w = r :: rest ->
  run (Await (ApplyCurves image curves) k) w
  = run (k r) (graded w rest (ApplyCurves image curves)).
Proof. intros Hg. cbn [run answer]. rewrite Hg. reflexivity. Qed.

Lemma run_sheet {A : Type} (photo : string)
      (k : Result string -> Prog A) (w : World) (r : Result string)
      (rest : list (Result string)) :
  sheets w = r :: rest ->
  run (Await (GeneratePassportSheet photo) k) w
  = run (k r) (composed w rest (GeneratePassportSheet photo)).
Proof. intros Hs. cbn [run answer]. rewrite Hs. reflexivity. Qed.

(** The message that goes with an error of the first attempt. *)
Definition describe (err : Error) : string := JS.or_else (message err) "Unknown error".

Definition warning (err : Error) : string :=
  ("AI enhancement failed: " ++ describe err ++ ". Colored photo used.")%string.

Definition fatal (err : Error) : string := ("Total failure: " ++ describe err)%string.

Lemma warning_begins (err : Error) :
  String.prefix "AI enhancement failed" (warning err) = true.
Proof. reflexivity. Qed.

Lemma fatal_begins (err : Error) : String.prefix "Total failure" (fatal err) = true.
Proof. reflexivity. Qed.

(** *** The [catch] block *)

Lemma catch_block_recovers (cropped : string) (curves : CurveAdjustment.CurveSettings)
      (err : Error) (app : App) (w : World)
      (fallbackPhoto sheet : string) (gs ss : list (Result string)) :
  gradings w = Resolved fallbackPhoto :: gs ->
  sheets w = Resolved sheet :: ss ->
  run (catch_block cropped curves err app) w
  = Some ((setError (Some (warning err))
             (setState PREVIEW
                (setProcessedImage (Some fallbackPhoto)
                   (setFinalSheet (Some sheet) app))), Resolved tt),
          composed (graded w gs (ApplyCurves cropped curves)) ss
                   (GeneratePassportSheet fallbackPhoto)).
Proof.
  intros Hg Hs. unfold catch_block, try_catch, Pipeline.bind, awaiting, await, update.
  cbn [Async.bind].
  rewrite (run_grading _ _ _ w _ gs Hg). cbn [snd fst Async.bind].
  rewrite (run_sheet _ _ (graded w gs _) _ ss Hs). reflexivity.
Qed.

Lemma catch_block_gives_up (cropped : string) (curves : CurveAdjustment.CurveSettings)
      (err : Error) (app : App) (w : World) :
  (forall innerErr gs,
      gradings w = Rejected innerErr :: gs ->
      run (catch_block cropped curves err app) w
      = Some ((setError (Some (fatal err)) app, Resolved tt),
              graded w gs (ApplyCurves cropped curves))) /\
  (forall fallbackPhoto innerErr gs ss,
      gradings w = Resolved fallbackPhoto :: gs ->
      sheets w = Rejected innerErr :: ss ->
      run (catch_block cropped curves err app) w
      = Some ((setError (Some (fatal err)) app, Resolved tt),
              composed (graded w gs (ApplyCurves cropped curves)) ss
                       (GeneratePassportSheet fallbackPhoto))).
Proof.
  split.
  - intros innerErr gs Hg.
    unfold catch_block, try_catch, Pipeline.bind, awaiting, await, update.
    cbn [Async.bind].
    rewrite (run_grading _ _ _ w _ gs Hg). reflexivity.
  - intros fallbackPhoto innerErr gs ss Hg Hs.
    unfold catch_block, try_catch, Pipeline.bind, awaiting, await, update.
    cbn [Async.bind].
    rewrite (run_grading _ _ _ w _ gs Hg). cbn [snd fst Async.bind].
    rewrite (run_sheet _ _ (graded w gs _) _ ss Hs). reflexivity.
Qed.

(** *** The run as a whole *)

Lemma run_bind_Some {A B : Type} (p : Prog A) (f : A -> Prog B) (w w' : World) (b : B) :
  run (Async.bind p f) w = Some (b, w') ->
  exists a w1, run p w = Some (a, w1) /\ run (f a) w1 = Some (b, w').
Proof.
  rewrite run_bind. destruct (run p w) as [[a w1]|]; [|discriminate].
  intros H. exists a, w1. split; [reflexivity | exact H].
Qed.

Lemma run_keeps_log {A : Type} (p : Prog A) (w w' : World) (a : A) (c : Call) :
  run p w = Some (a, w') -> In c (log w) -> In c (log w').
Proof.
  intros Hrun Hin. destruct (run_log_grows p w w' a Hrun) as (made & ->).
  apply in_or_app. right. exact Hin.
Qed.

(** The state when the [try] block starts. *)
Definition started (app : App) : App := setError None (setIsProcessing true app).

Lemma handleProcess_unfold (app : App) (cropped : string) :
  JS.truthy (croppedImage app) = Some cropped ->
  handleProcess app
  = Async.bind
      (Async.bind
         (try_block cropped (curveSettings app) (selectedColor app) (selectedClothing app)
                    (started app))
         (fun r => match snd r with
                   | Resolved a => Ret (fst r, Resolved a)
                   | Rejected e => catch_block cropped (curveSettings app) e (fst r)
                   end))
      (fun r => Ret (setIsProcessing false (fst r), snd r)).
Proof. intros H. unfold handleProcess. rewrite H. reflexivity. Qed.

Lemma processBackground_frame (image : string) (color : BackgroundColor)
      (clothing : ClothingOption) (w w' : World) (out : Result string) :
  run (GeminiService.processBackground image color clothing 0) w = Some (out, w') ->
  gradings w' = gradings w /\ sheets w' = sheets w.
Proof.
  unfold GeminiService.processBackground.
  generalize (S (GeminiService.MAX_RETRIES - 0)) as fuel. generalize 0%nat as rc.
  intros rc fuel. revert rc w.
  induction fuel as [|fuel IH]; intros rc w Hrun; [discriminate|].
  cbn [GeminiService.processBackground_fuel run answer] in Hrun.
  destruct (generations w) as [|r rest]; [discriminate|].
  destruct (GeminiService.attempt r) as [uri | error].
  - injection Hrun as _ <-. split; reflexivity.
  - destruct (GeminiService.rate_limited error && (rc <? GeminiService.MAX_RETRIES)%nat).
    + cbn [run answer gradings generations sheets log] in Hrun.
      apply IH in Hrun. exact Hrun.
    + injection Hrun as _ <-. split; reflexivity.
Qed.

(** The [try] block when the AI step fails: nothing was set, and the
    error of the AI step is what the [catch] block gets. *)
Lemma try_block_ai_fails (app : App) (cropped enhanced : string)
      (curves : CurveAdjustment.CurveSettings) (color : BackgroundColor)
      (clothing : ClothingOption) (w w2 : World)
      (gs : list (Result string)) (err : Error) :
  needsAI color clothing = true ->
  gradings w = Resolved enhanced :: gs ->
  run (GeminiService.processBackground enhanced color clothing 0)
      (graded w gs (ApplyCurves cropped curves)) = Some (Rejected err, w2) ->
  run (try_block cropped curves color clothing app) w = Some ((app, Rejected err), w2).
Proof.
  intros Hneeds Hg Hai.
  unfold try_block, Pipeline.bind, awaiting, await. cbn [Async.bind].
  rewrite (run_grading _ _ _ w _ gs Hg). cbn [snd fst]. rewrite Hneeds.
  rewrite !run_bind, Hai. reflexivity.
Qed.

(** The [try] block without the AI step. *)
Lemma try_block_plain (app : App) (cropped enhanced sheet : string)
      (curves : CurveAdjustment.CurveSettings) (color : BackgroundColor)
      (clothing : ClothingOption) (w : World) (gs ss : list (Result string)) :
  needsAI color clothing = false ->
  gradings w = Resolved enhanced :: gs ->
  sheets w = Resolved sheet :: ss ->
  run (try_block cropped curves color clothing app) w
  = Some ((setState PREVIEW
             (setFinalSheet (Some sheet) (setProcessedImage (Some enhanced) app)),
           Resolved tt),
          composed (graded w gs (ApplyCurves cropped curves)) ss
                   (GeneratePassportSheet enhanced)).
Proof.
  intros Hneeds Hg Hs.
  unfold try_block, Pipeline.bind, awaiting, await, update, ret. cbn [Async.bind].
  rewrite (run_grading _ _ _ w _ gs Hg). cbn [snd fst]. rewrite Hneeds.
  cbn [Async.bind snd fst].
  rewrite (run_sheet _ _ (graded w gs _) _ ss Hs). reflexivity.
Qed.

Lemma handleProcess_offline (app : App) :
  needsAI (selectedColor app) (selectedClothing app) = false ->
  offline (handleProcess app).
Proof.
  intros Hneeds. unfold handleProcess.
  destruct (JS.truthy (croppedImage app)) as [cropped|]; [|exact I].
  unfold finally, try_catch, try_block, catch_block, Pipeline.bind, awaiting, await,
    update, ret.
  rewrite Hneeds. cbn.
  split; [reflexivity|]. intros [enhanced | e1]; cbn.
  - split; [reflexivity|]. intros [sheet | e2]; cbn; [exact I|].
    split; [reflexivity|]. intros [fb | e3]; cbn; [|exact I].
    split; [reflexivity|]. intros [sheet | e4]; cbn; exact I.
  - split; [reflexivity|]. intros [fb | e3]; cbn; [|exact I].
    split; [reflexivity|]. intros [sheet | e4]; cbn; exact I.
Qed.

Lemma handleProcess_calls_model (app : App) (cropped enhanced : string)
      (w w' : World) (gs : list (Result string)) (out : App * Result unit) :
  needsAI (selectedColor app) (selectedClothing app) = true ->
  JS.truthy (croppedImage app) = Some cropped ->
  gradings w = Resolved enhanced :: gs ->
  run (handleProcess app) w = Some (out, w') ->
  In (GenerateContent (GeminiService.cleanBase64 enhanced)
        (selectedColor app) (selectedClothing app)) (log w').
Proof.
  intros Hneeds Hc Hg Hrun.
  rewrite (handleProcess_unfold app cropped Hc) in Hrun.
  apply run_bind_Some in Hrun. destruct Hrun as (a1 & w1 & Hrun & Hfin).
  apply (run_keeps_log _ _ _ _ _ Hfin).
  apply run_bind_Some in Hrun. destruct Hrun as (a0 & w0 & Hrun & Hcatch).
  apply (run_keeps_log _ _ _ _ _ Hcatch).
  unfold try_block, Pipeline.bind, awaiting, await in Hrun. cbn [Async.bind] in Hrun.
  rewrite (run_grading _ _ _ w _ gs Hg) in Hrun. cbn [snd fst] in Hrun.
  rewrite Hneeds in Hrun.
  apply run_bind_Some in Hrun. destruct Hrun as (a2 & w2 & Hrun & Hrest).
  apply (run_keeps_log _ _ _ _ _ Hrest).
  apply run_bind_Some in Hrun. destruct Hrun as (a3 & w3 & Hai & Hlift).
  apply (run_keeps_log _ _ _ _ _ Hlift).
  unfold GeminiService.processBackground in Hai.
  apply run_shape in Hai. destruct Hai as (k & _ & ->).
  left. reflexivity.
Qed.

(** C4.  Pipeline fallback.  In a run of [handleProcess] (on a cropped
    image) in which the curve grading succeeds and the AI step ([processBackground], with all
    its retries) fails with [err], the pipeline grades the cropped image
    again.  If that and the sheet generation succeed, the sheet made from
    the re-graded photo is set, that photo is the processed image, the
    state is PREVIEW and the error is the warning "AI enhancement failed:
    ...".  If the second grading fails, or the sheet generation after it,
    no sheet is set, the state does not change, and the error is "Total
    failure: ...".  The AI step leaves the answers of the other two
    services alone. *)
Theorem pipeline_fallback (app : App) (cropped enhanced : string) (w w2 : World)
        (gs : list (Result string)) (err : Error) :
  JS.truthy (croppedImage app) = Some cropped ->
  needsAI (selectedColor app) (selectedClothing app) = true ->
  gradings w = Resolved enhanced :: gs ->
  run (GeminiService.processBackground enhanced (selectedColor app) (selectedClothing app) 0)
      (graded w gs (ApplyCurves cropped (curveSettings app))) = Some (Rejected err, w2) ->
  let regrade := ApplyCurves cropped (curveSettings app) in
  (gradings w2 = gs /\ sheets w2 = sheets w) /\
  (forall fallbackPhoto sheet gs' ss',
      gradings w2 = Resolved fallbackPhoto :: gs' ->
      sheets w2 = Resolved sheet :: ss' ->
      exists app',
        run (handleProcess app) w
        = Some ((app', Resolved tt),
                composed (graded w2 gs' regrade) ss' (GeneratePassportSheet fallbackPhoto)) /\
        finalSheet app' = Some sheet /\
        processedImage app' = Some fallbackPhoto /\
        state app' = PREVIEW /\
        error app' = Some (warning err) /\
        String.prefix "AI enhancement failed" (warning err) = true /\
        isProcessing app' = false) /\
  (forall innerErr gs',
      gradings w2 = Rejected innerErr :: gs' ->
      exists app',
        run (handleProcess app) w = Some ((app', Resolved tt), graded w2 gs' regrade) /\
        finalSheet app' = finalSheet app /\
        processedImage app' = processedImage app /\
        state app' = state app /\
        error app' = Some (fatal err) /\
        String.prefix "Total failure" (fatal err) = true /\
        isProcessing app' = false) /\
  (forall fallbackPhoto innerErr gs' ss',
      gradings w2 = Resolved fallbackPhoto :: gs' ->
      sheets w2 = Rejected innerErr :: ss' ->
      exists app',
        run (handleProcess app) w
        = Some ((app', Resolved tt),
                composed (graded w2 gs' regrade) ss' (GeneratePassportSheet fallbackPhoto)) /\
        finalSheet app' = finalSheet app /\
        processedImage app' = processedImage app /\
        state app' = state app /\
        error app' = Some (fatal err) /\
        String.prefix "Total failure" (fatal err) = true /\
        isProcessing app' = false).
Proof.
  intros Hc Hneeds Hg Hai regrade.
  pose proof (try_block_ai_fails (started app) cropped enhanced _ _ _ w w2 gs err
                Hneeds Hg Hai) as Htry.
  split; [exact (processBackground_frame _ _ _ _ _ _ Hai)|].
  rewrite (handleProcess_unfold app cropped Hc).
  split; [|split].
  - intros fb sheet gs' ss' Hg2 Hs2. eexists.
    rewrite !run_bind, Htry. cbn [snd fst].
    rewrite (catch_block_recovers _ _ _ _ _ _ _ _ _ Hg2 Hs2). cbn [run fst snd].
    split; [reflexivity|]. repeat split.
  - intros innerErr gs' Hg2. eexists.
    rewrite !run_bind, Htry. cbn [snd fst].
    rewrite (proj1 (catch_block_gives_up _ _ _ _ _) _ _ Hg2). cbn [run fst snd].
    split; [reflexivity|]. repeat split.
  - intros fb innerErr gs' ss' Hg2 Hs2. eexists.
    rewrite !run_bind, Htry. cbn [snd fst].
    rewrite (proj2 (catch_block_gives_up _ _ _ _ _) _ _ _ _ Hg2 Hs2). cbn [run fst snd].
    split; [reflexivity|]. repeat split.
Qed.

(** *** A run whose first grading fails *)

Lemma catch_block_offline (cropped : string) (curves : CurveAdjustment.CurveSettings)
      (err : Error) (app : App) :
  offline (catch_block cropped curves err app).
Proof.
  unfold catch_block, try_catch, Pipeline.bind, awaiting, await, update. cbn.
  split; [reflexivity|]. intros [fb | e1]; cbn; [|exact I].
  split; [reflexivity|]. intros [sheet | e2]; cbn; exact I.
Qed.

(** The [try] block stops at the first [await]; the [catch] block grades
    again and composes the sheet, and never asks the model. *)
Lemma handleProcess_grading_rejected (app : App) (cropped : string) (w w' : World)
      (e : Error) (gs : list (Result string)) (out : App * Result unit) :
  JS.truthy (croppedImage app) = Some cropped ->
  gradings w = Rejected e :: gs ->
  run (handleProcess app) w = Some (out, w') ->
  filter is_generation (log w') = filter is_generation (log w).
Proof.
  intros Hc Hg Hrun.
  rewrite (handleProcess_unfold app cropped Hc) in Hrun.
  apply run_bind_Some in Hrun. destruct Hrun as (a1 & w1 & Hrun & Hfin).
  cbn [run] in Hfin. injection Hfin as _ <-.
  apply run_bind_Some in Hrun. destruct Hrun as (a0 & w0 & Htry & Hcatch).
  unfold try_block, Pipeline.bind, awaiting, await in Htry. cbn [Async.bind] in Htry.
  rewrite (run_grading _ _ _ w _ gs Hg) in Htry. cbn [snd fst run] in Htry.
  injection Htry as <- <-. cbn [snd fst] in Hcatch.
  rewrite (offline_run _ (catch_block_offline _ _ _ _) _ _ _ Hcatch).
  reflexivity.
Qed.

(** *** Counting the requests of a run *)

(** The requests to the model in the log of a world. *)
Definition model_calls (w : World) : nat := generation_count (log w).

Lemma model_calls_grow {A : Type} (p : Prog A) (w w' : World) (a : A) :
  run p w = Some (a, w') -> (model_calls w <= model_calls w')%nat.
Proof.
  intros Hrun. destruct (run_log_grows p w w' a Hrun) as (made & E).
  unfold model_calls, generation_count. rewrite E, filter_app, length_app. lia.
Qed.

Lemma handleProcess_counts_model (app : App) (cropped enhanced : string)
      (w w' : World) (gs : list (Result string)) (out : App * Result unit) :
  needsAI (selectedColor app) (selectedClothing app) = true ->
  JS.truthy (croppedImage app) = Some cropped ->
  gradings w = Resolved enhanced :: gs ->
  run (handleProcess app) w = Some (out, w') ->
  (model_calls w < model_calls w')%nat.
Proof.
  intros Hneeds Hc Hg Hrun.
  rewrite (handleProcess_unfold app cropped Hc) in Hrun.
  apply run_bind_Some in Hrun. destruct Hrun as (a1 & w1 & Hrun & Hfin).
  pose proof (model_calls_grow _ _ _ _ Hfin) as G1.
  apply run_bind_Some in Hrun. destruct Hrun as (a0 & w0 & Hrun & Hcatch).
  pose proof (model_calls_grow _ _ _ _ Hcatch) as G2.
  unfold try_block, Pipeline.bind, awaiting, await in Hrun. cbn [Async.bind] in Hrun.
  rewrite (run_grading _ _ _ w _ gs Hg) in Hrun. cbn [snd fst] in Hrun.
  rewrite Hneeds in Hrun.
  apply run_bind_Some in Hrun. destruct Hrun as (a2 & w2 & Hrun & Hrest).
  pose proof (model_calls_grow _ _ _ _ Hrest) as G3.
  apply run_bind_Some in Hrun. destruct Hrun as (a3 & w3 & Hai & Hlift).
  pose proof (model_calls_grow _ _ _ _ Hlift) as G4.
  unfold GeminiService.processBackground in Hai.
  apply run_shape in Hai. destruct Hai as (k & _ & Hlog).
  assert (G5 : (model_calls w < model_calls w3)%nat).
  { unfold model_calls, generation_count. rewrite Hlog.
    unfold request. cbn [filter is_generation length].
    rewrite filter_app, length_app. cbn [graded log filter is_generation]. lia. }
  lia.
Qed.

(** C10, amended.  The AI-skip condition.  [needsAI] holds exactly when
    the background is not ORIGINAL or the clothing is not NONE.  When it
    does not hold, no run of [handleProcess] asks the model, and a run
    whose grading and sheet generation succeed feeds the sheet compositor
    exactly the graded cropped image.  When it holds and the grading of
    the cropped image succeeds, the model is asked, with the graded
    image.  So in a run on a cropped image whose first grading succeeds
    the model is asked if and only if [needsAI] holds.  When the first
    grading fails the run goes on in the [catch] block and the model is
    not asked, whatever was selected. *)
Theorem ai_skip_condition :
  (forall color clothing,
      needsAI color clothing = true <-> color <> ORIGINAL \/ clothing <> NONE) /\
  (forall app w w' out,
      needsAI (selectedColor app) (selectedClothing app) = false ->
      run (handleProcess app) w = Some (out, w') ->
      filter is_generation (log w') = filter is_generation (log w)) /\
  (forall app w cropped enhanced sheet gs ss,
      needsAI (selectedColor app) (selectedClothing app) = false ->
      JS.truthy (croppedImage app) = Some cropped ->
      gradings w = Resolved enhanced :: gs ->
      sheets w = Resolved sheet :: ss ->
      exists app',
        run (handleProcess app) w
        = Some ((app', Resolved tt),
                composed (graded w gs (ApplyCurves cropped (curveSettings app))) ss
                         (GeneratePassportSheet enhanced)) /\
        processedImage app' = Some enhanced /\
        finalSheet app' = Some sheet /\
        state app' = PREVIEW /\
        error app' = None) /\
  (forall app w w' out cropped enhanced gs,
      needsAI (selectedColor app) (selectedClothing app) = true ->
      JS.truthy (croppedImage app) = Some cropped ->
      gradings w = Resolved enhanced :: gs ->
      run (handleProcess app) w = Some (out, w') ->
      In (GenerateContent (GeminiService.cleanBase64 enhanced)
            (selectedColor app) (selectedClothing app)) (log w')) /\
  (forall app w w' out cropped enhanced gs,
      JS.truthy (croppedImage app) = Some cropped ->
      gradings w = Resolved enhanced :: gs ->
      run (handleProcess app) w = Some (out, w') ->
      ((model_calls w < model_calls w')%nat
       <-> needsAI (selectedColor app) (selectedClothing app) = true)) /\
  (forall app w w' out cropped e gs,
      JS.truthy (croppedImage app) = Some cropped ->
      gradings w = Rejected e :: gs ->
      run (handleProcess app) w = Some (out, w') ->
      filter is_generation (log w') = filter is_generation (log w)).
Proof.
  split; [|split; [|split; [|split; [|split]]]].
  - intros color clothing. unfold needsAI.
    destruct color, clothing; cbn; split; intros H;
      try reflexivity; try discriminate;
      try (left; discriminate); try (right; discriminate).
    destruct H as [H | H]; contradiction.
  - intros app w w' out Hneeds Hrun.
    exact (offline_run _ (handleProcess_offline app Hneeds) _ _ _ Hrun).
  - intros app w cropped enhanced sheet gs ss Hneeds Hc Hg Hs. eexists.
    rewrite (handleProcess_unfold app cropped Hc).
    rewrite !run_bind.
    rewrite (try_block_plain (started app) _ _ _ _ _ _ _ _ _ Hneeds Hg Hs).
    cbn [snd fst run].
    split; [reflexivity|]. repeat split.
  - intros app w w' out cropped enhanced gs.
    apply handleProcess_calls_model.
  - intros app w w' out cropped enhanced gs Hc Hg Hrun.
    destruct (needsAI (selectedColor app) (selectedClothing app)) eqn:Hneeds.
    + split; [reflexivity|]. intros _.
      exact (handleProcess_counts_model app cropped enhanced w w' gs out Hneeds Hc Hg Hrun).
    + split; [|discriminate]. intros Hlt. exfalso.
      pose proof (offline_run _ (handleProcess_offline app Hneeds) _ _ _ Hrun) as E.
      unfold model_calls, generation_count in Hlt. rewrite E in Hlt. lia.
  - intros app w w' out cropped e gs.
    apply handleProcess_grading_rejected.
Qed.

End GeneratePipeline.

(** *** Sample runs *)

Definition ready (color : Types.BackgroundColor) : Pipeline.App :=
  {| Pipeline.state := Types.PROCESS;
     Pipeline.croppedImage := Some "data:image/png;base64,CROP"%string;
     Pipeline.processedImage := None;
     Pipeline.finalSheet := None;
     Pipeline.selectedColor := color;
     Pipeline.selectedClothing := Types.NONE;
     Pipeline.curveSettings := CurveAdjustment.DEFAULT_CURVES;
     Pipeline.isProcessing := false;
     Pipeline.error := None |}.

Definition bad_request : Async.Result Async.Response :=
  Async.Rejected {| Async.message := Some "400 Bad Request"%string |}.

(** The model refuses; grading and sheet generation work. *)
Definition model_down : Async.World :=
  {| Async.gradings := [Async.Resolved "GRADED"%string; Async.Resolved "GRADED"%string];
     Async.generations := [bad_request];
     Async.sheets := [Async.Resolved "SHEET"%string];
     Async.log := [] |}.

(** The model refuses and the second grading fails as well. *)
Definition all_down : Async.World :=
  {| Async.gradings := [Async.Resolved "GRADED"%string;
                        Async.Rejected {| Async.message := Some "decode"%string |}];
     Async.generations := [bad_request];
     Async.sheets := [Async.Resolved "SHEET"%string];
     Async.log := [] |}.

Lemma pipeline_fallback_witness :
  (exists app' w',
      Async.run (Pipeline.handleProcess (ready Types.WHITE)) model_down
        = Some ((app', Async.Resolved tt), w') /\
      Pipeline.finalSheet app' = Some "SHEET"%string /\
      Pipeline.processedImage app' = Some "GRADED"%string /\
      Pipeline.state app' = Types.PREVIEW /\
      Pipeline.error app'
        = Some "AI enhancement failed: 400 Bad Request. Colored photo used."%string) /\
  (exists app' w',
      Async.run (Pipeline.handleProcess (ready Types.WHITE)) all_down
        = Some ((app', Async.Resolved tt), w') /\
      Pipeline.finalSheet app' = None /\
      Pipeline.state app' = Types.PROCESS /\
      Pipeline.error app' = Some "Total failure: 400 Bad Request"%string).
Proof.
  split.
  - edestruct (pipeline_fallback (ready Types.WHITE) "data:image/png;base64,CROP" "GRADED"
                 model_down) as (_ & Hok & _ & _);
      [reflexivity | reflexivity | reflexivity | reflexivity |].
    destruct (Hok "GRADED"%string "SHEET"%string [] [])
      as (app' & Hrun & Hsheet & Hphoto & Hstate & Herr & _ & _);
      [reflexivity | reflexivity |].
    exists app'. eexists. split; [exact Hrun|]. auto.
  - edestruct (pipeline_fallback (ready Types.WHITE) "data:image/png;base64,CROP" "GRADED"
                 all_down) as (_ & _ & Hfail & _);
      [reflexivity | reflexivity | reflexivity | reflexivity |].
    destruct (Hfail {| Async.message := Some "decode"%string |} [])
      as (app' & Hrun & Hsheet & _ & Hstate & Herr & _ & _);
      [reflexivity|].
    exists app'. eexists. split; [exact Hrun|]. auto.
Defined.

(** Nothing to change: grading and sheet generation only. *)
Definition no_model : Async.World :=
  {| Async.gradings := [Async.Resolved "GRADED"%string];
     Async.generations := [];
     Async.sheets := [Async.Resolved "SHEET"%string];
     Async.log := [] |}.

Lemma ai_skip_condition_witness :
  (exists app' w',
      Async.run (Pipeline.handleProcess (ready Types.ORIGINAL)) no_model
        = Some ((app', Async.Resolved tt), w') /\
      Pipeline.processedImage app' = Some "GRADED"%string /\
      Async.log w' = [Async.GeneratePassportSheet "GRADED";
                      Async.ApplyCurves "data:image/png;base64,CROP"
                        CurveAdjustment.DEFAULT_CURVES] /\
      filter Async.is_generation (Async.log w') = []) /\
  (forall out w',
      Async.run (Pipeline.handleProcess (ready Types.WHITE)) model_down = Some (out, w') ->
      In (Async.GenerateContent "GRADED" Types.WHITE Types.NONE) (Async.log w')).
Proof.
  destruct ai_skip_condition as (_ & Hquiet & Hplain & Hcalls & _).
  split.
  - destruct (Hplain (ready Types.ORIGINAL) no_model
                "data:image/png;base64,CROP"%string "GRADED"%string "SHEET"%string [] [])
      as (app' & Hrun & Hphoto & _); try reflexivity.
    exists app'. eexists. split; [exact Hrun|].
    split; [exact Hphoto|]. split; [reflexivity|].
    apply (Hquiet (ready Types.ORIGINAL) no_model _ _ eq_refl Hrun).
  - intros out w' Hrun.
    apply (Hcalls (ready Types.WHITE) model_down w' out
             "data:image/png;base64,CROP"%string "GRADED"%string
             [Async.Resolved "GRADED"%string]); try reflexivity.
    exact Hrun.
Defined.

(** The first grading fails; the second one and the sheet generation
    work. *)
Definition grading_fails_once : Async.World :=
  {| Async.gradings := [Async.Rejected {| Async.message := Some "decode"%string |};
                        Async.Resolved "GRADED"%string];
     Async.generations := [an_image];
     Async.sheets := [Async.Resolved "SHEET"%string];
     Async.log := [] |}.

(** The claim of C10 fails when the grading of the cropped image fails:
    with a white background selected [needsAI] holds, and yet the run
    ends on the PREVIEW screen with a sheet and never asks the model.
    Its calls are the two gradings and the sheet generation. *)
Lemma ai_skipped_when_grading_fails :
  Pipeline.needsAI (Pipeline.selectedColor (ready Types.WHITE))
                   (Pipeline.selectedClothing (ready Types.WHITE)) = true /\
  exists app' w',
    Async.run (Pipeline.handleProcess (ready Types.WHITE)) grading_fails_once
      = Some ((app', Async.Resolved tt), w') /\
    Pipeline.state app' = Types.PREVIEW /\
    Pipeline.finalSheet app' = Some "SHEET"%string /\
    Pipeline.processedImage app' = Some "GRADED"%string /\
    filter Async.is_generation (Async.log w') = [] /\
    Async.calls w'
    = [ Async.ApplyCurves "data:image/png;base64,CROP" CurveAdjustment.DEFAULT_CURVES;
        Async.ApplyCurves "data:image/png;base64,CROP" CurveAdjustment.DEFAULT_CURVES;
        Async.GeneratePassportSheet "GRADED" ] /\
    Async.generations w' = [an_image].
Proof.
  split; [reflexivity|].
  eexists. eexists. split; [reflexivity|]. repeat split.
Qed.

(** ** The live preview *)

Section LivePreview.

Import Types Async Preview.

(** At most one timer is armed, and it is the one the ref holds, to be
    cleared by the cleanup of the effect.  Timer ids are positive. *)
Definition armed (s : State) : Prop :=
  (1 <= nextId s)%nat /\
  (timers s = [] \/
   (cleanup s = true /\
    exists t, timers s = [t] /\ previewUpdateTimeout s = Some (id t) /\ (1 <= id t)%nat)).

Lemma clearTimeout_own (t : Timer) : clearTimeout (id t) [t] = [].
Proof. unfold clearTimeout. cbn. rewrite Nat.eqb_refl. reflexivity. Qed.

Lemma clear_current_nil (ref : option nat) : clear_current ref [] = [].
Proof. destruct ref as [[|i]|]; reflexivity. Qed.

Lemma clear_current_own (t : Timer) :
  (1 <= id t)%nat -> clear_current (Some (id t)) [t] = [].
Proof.
  intros Hid. unfold clear_current.
  destruct (id t) as [|i] eqn:E; [lia|]. rewrite <- E. apply clearTimeout_own.
Qed.

Lemma clear_current_armed (s : State) :
  armed s ->
  (if cleanup s then clear_current (previewUpdateTimeout s) (timers s) else timers s) = [].
Proof.
  intros (_ & [Hnone | (Hc & t & Ht & Href & Hid)]).
  - rewrite Hnone, clear_current_nil. destruct (cleanup s); reflexivity.
  - rewrite Hc, Href, Ht. apply clear_current_own, Hid.
Qed.

Lemma effect_timers (s : State) :
  armed s ->
  (timers (effect s) = [] /\ nextId (effect s) = nextId s) \/
  (exists c, state s = PROCESS /\ JS.truthy (croppedImage s) = Some c /\
             isAuthenticated s = true /\
             timers (effect s)
             = [ {| id := nextId s; job := {| image := c; curves := curveSettings s |} |} ] /\
             previewUpdateTimeout (effect s) = Some (nextId s) /\
             cleanup (effect s) = true /\
             nextId (effect s) = S (nextId s)).
Proof.
  intros Ha. pose proof (clear_current_armed s Ha) as Hclear.
  unfold effect. rewrite Hclear.
  destruct (state s); try (left; split; reflexivity).
  destruct (JS.truthy (croppedImage s)) as [c|]; [|left; split; reflexivity].
  destruct (isAuthenticated s); [|left; split; reflexivity].
  right. exists c. cbn [timers previewUpdateTimeout cleanup nextId].
  rewrite clear_current_nil. cbn [app]. auto 10.
Qed.

Lemma effect_armed (s : State) : armed s -> armed (effect s).
Proof.
  intros Ha. pose proof Ha as (Hn & _).
  destruct (effect_timers s Ha)
    as [(Hnone & Hid) | (c & _ & _ & _ & Ht & Href & Hc & Hid)].
  - split; [lia|]. left. exact Hnone.
  - split; [lia|]. right. split; [exact Hc|].
    eexists. split; [exact Ht|]. split; [exact Href | exact Hn].
Qed.

Lemma step_armed (s : State) (e : Event) : armed s -> armed (step s e).
Proof.
  intros Ha. destruct e as [settings | cropped | st | i | n r]; cbn [step].
  - apply effect_armed. exact Ha.
  - destruct (AppState_eqb (state s) PROCESS && _); [exact Ha|].
    apply effect_armed. exact Ha.
  - destruct (AppState_eqb (state s) st); [exact Ha|].
    apply effect_armed. exact Ha.
  - destruct (find _ (timers s)) as [t|] eqn:Ef; [|exact Ha].
    destruct Ha as (Hn & [Hnone | (Hc & t0 & Ht & Href & Hid)]).
    + rewrite Hnone in Ef. discriminate.
    + split; [exact Hn|]. left. cbn [timers]. rewrite Ht in *. cbn [find] in Ef.
      destruct (Nat.eqb_spec (id t0) i) as [<- | Hne]; [|discriminate].
      apply clearTimeout_own.
  - destruct (nth_error (inflight s) n); exact Ha.
Qed.

Lemma steps_armed (es : list Event) : forall s, armed s -> armed (steps s es).
Proof.
  induction es as [|e es IH]; intros s Ha; [exact Ha|].
  cbn [steps fold_left]. apply IH, step_armed, Ha.
Qed.

Lemma armed_single (s : State) : armed s -> (length (timers s) <= 1)%nat.
Proof.
  intros (_ & [-> | (_ & t & -> & _)]); cbn; lia.
Qed.

(** *** An editing session *)

(** The guard of the effect holds. *)
Definition live (s : State) : Prop :=
  state s = PROCESS /\ isAuthenticated s = true /\
  exists c, JS.truthy (croppedImage s) = Some c.

(** The job that was scheduled last: the one of the armed timer, else the
    call started last, else the one on screen. *)
Definition latest (s : State) : option Job :=
  match timers s with
  | t :: _ => Some (job t)
  | [] => match rev (inflight s) with
          | j :: _ => Some j
          | [] => shown s
          end
  end.

Definition in_session (s : State) : Prop :=
  live s /\ armed s /\ latest s = current s.

(** The events of a session in which every call settles with a result and
    the calls settle in the order they were started. *)
Definition orderly (e : Event) : Prop :=
  match e with
  | Edit _ | Fires _ => True
  | Settles O (Resolved _) => True
  | _ => False
  end.

Lemma effect_keeps (s : State) :
  state (effect s) = state s /\ croppedImage (effect s) = croppedImage s /\
  isAuthenticated (effect s) = isAuthenticated s /\
  curveSettings (effect s) = curveSettings s /\
  inflight (effect s) = inflight s /\ shown (effect s) = shown s.
Proof.
  unfold effect.
  destruct (state s), (JS.truthy (croppedImage s)), (isAuthenticated s);
    repeat split; reflexivity.
Qed.

Lemma step_live (s : State) (e : Event) : live s -> orderly e -> live (step s e).
Proof.
  intros (Hst & Hauth & c & Hc) Ho.
  destruct e as [settings | cropped | st | i | [|n] [g | err]]; try contradiction;
    cbn [step].
  - destruct (effect_keeps
                {| state := state s; croppedImage := croppedImage s;
                   isAuthenticated := isAuthenticated s; curveSettings := settings;
                   gradedPreview := gradedPreview s;
                   previewUpdateTimeout := previewUpdateTimeout s;
                   cleanup := cleanup s; timers := timers s; nextId := nextId s;
                   inflight := inflight s; shown := shown s |})
      as (E1 & E2 & E3 & _).
    unfold live. rewrite E1, E2, E3. cbn. eauto.
  - destruct (find _ (timers s)); unfold live; cbn; eauto.
  - destruct (nth_error (inflight s) 0); unfold live; cbn; eauto.
Qed.

Lemma step_in_session (s : State) (e : Event) :
  in_session s -> orderly e -> in_session (step s e).
Proof.
  intros (Hlive & Ha & Hlatest) Ho.
  split; [apply step_live; assumption|].
  split; [apply step_armed; exact Ha|].
  destruct Hlive as (Hst & Hauth & c & Hc).
  destruct e as [settings | cropped | st | i | [|n] [g | err]]; try contradiction;
    cbn [step] in *.
  - (* an edit arms a timer for the new settings *)
    set (s1 := {| state := state s; croppedImage := croppedImage s;
                  isAuthenticated := isAuthenticated s; curveSettings := settings;
                  gradedPreview := gradedPreview s;
                  previewUpdateTimeout := previewUpdateTimeout s;
                  cleanup := cleanup s; timers := timers s; nextId := nextId s;
                  inflight := inflight s; shown := shown s |}).
    assert (Ha1 : armed s1) by exact Ha.
    destruct (effect_keeps s1) as (_ & E2 & _ & E4 & _).
    destruct (effect_timers s1 Ha1) as [(Hnone & _) | (c' & _ & Hc' & _ & Ht & _)].
    + exfalso. revert Hnone. unfold effect. cbn [state croppedImage isAuthenticated s1].
      rewrite Hst, Hc, Hauth. cbn [timers].
      intros E. apply app_eq_nil in E. destruct E as [_ E]. discriminate.
    + unfold latest, current. rewrite Ht, E2, E4, Hc'. reflexivity.
  - (* a timer fires *)
    destruct (find _ (timers s)) as [t|] eqn:Ef; [|exact Hlatest].
    destruct Ha as (_ & [Hnone | (_ & t0 & Ht & _)]);
      [rewrite Hnone in Ef; discriminate|].
    rewrite Ht in Ef. cbn [find] in Ef.
    destruct (Nat.eqb_spec (id t0) i) as [<- | Hne]; [|discriminate].
    injection Ef as <-.
    unfold latest, current in *. cbn [timers inflight shown croppedImage curveSettings].
    rewrite Ht in *. rewrite clearTimeout_own, rev_app_distr. exact Hlatest.
  - (* the oldest call settles *)
    destruct (inflight s) as [|j rest] eqn:Ei; cbn [nth_error]; [exact Hlatest|].
    unfold latest, current in *.
    cbn [timers inflight shown croppedImage curveSettings remove_nth firstn skipn app].
    rewrite Ei in Hlatest.
    destruct (timers s); [|exact Hlatest].
    cbn [rev] in Hlatest.
    destruct (rev rest) as [|j' rest']; exact Hlatest.
Qed.

Lemma steps_in_session (es : list Event) :
  forall s, in_session s -> Forall orderly es -> in_session (steps s es).
Proof.
  induction es as [|e es IH]; intros s Hs Ho; [exact Hs|].
  inversion Ho; subst. cbn [steps fold_left].
  apply IH; [apply step_in_session|]; assumption.
Qed.

Lemma start_armed : armed start.
Proof. split; [cbn; lia | left; reflexivity]. Qed.

Lemma cropped_in_session (cropped : string) :
  cropped <> EmptyString -> in_session (step start (CropComplete cropped)).
Proof.
  intros Hne. destruct cropped as [|ch rest]; [contradiction|].
  split; [|split].
  - unfold live. cbn. eauto.
  - apply step_armed, start_armed.
  - reflexivity.
Qed.

Lemma quiescent_latest (s : State) : quiescent s -> latest s = shown s.
Proof. intros [Ht Hi]. unfold latest. rewrite Ht, Hi. reflexivity. Qed.

(** *** A stale result on screen *)

(** The crop is committed and its first preview starts; the curve is
    edited and the second preview starts; the second call settles before
    the first. *)
Definition overtaken : list Event :=
  [ CropComplete "CROP"; Fires 1;
    Edit (shade 40); Fires 2;
    Settles 1 (Resolved "NEW"%string);
    Settles 0 (Resolved "OLD"%string) ].

(** The claim of C6 fails on that interleaving: when the newer call has
    settled the preview is the one for the edited curve, and the older
    call, settling later, replaces it.  Nothing is armed or in flight any
    more and the screen shows the preview of the default curves. *)
Lemma stale_recomputation_overwrites :
  up_to_date (steps start (firstn 5 overtaken)) /\
  gradedPreview (steps start (firstn 5 overtaken)) = Some "NEW"%string /\
  quiescent (steps start overtaken) /\
  curveSettings (steps start overtaken) = shade 40 /\
  gradedPreview (steps start overtaken) = Some "OLD"%string /\
  shown (steps start overtaken)
    = Some {| image := "CROP"; curves := CurveAdjustment.DEFAULT_CURVES |} /\
  ~ up_to_date (steps start overtaken).
Proof.
  split; [reflexivity|]. split; [reflexivity|].
  split; [split; reflexivity|].
  split; [reflexivity|]. split; [reflexivity|]. split; [reflexivity|].
  unfold up_to_date. cbn. discriminate.
Qed.

(** C6, amended.  Whatever the events, at most one timer is armed: every
    edit cancels the timer that has not fired.  A call that is in flight
    is not cancelled, and when it settles with a result that result
    becomes the preview, whichever call it is.  In a session after a crop
    in which the calls settle in the order they were started, each with
    a result, the preview shown once nothing is armed or in flight is the
    one computed from the most recent settings. *)
Theorem preview_last_commit_wins :
  (forall es, (length (timers (steps start es)) <= 1)%nat) /\
  (forall s n j graded,
      nth_error (inflight s) n = Some j ->
      gradedPreview (step s (Settles n (Resolved graded))) = Some graded /\
      shown (step s (Settles n (Resolved graded))) = Some j) /\
  (forall cropped es,
      cropped <> EmptyString ->
      Forall orderly es ->
      quiescent (steps (step start (CropComplete cropped)) es) ->
      up_to_date (steps (step start (CropComplete cropped)) es)).
Proof.
  split; [|split].
  - intros es. apply armed_single, steps_armed, start_armed.
  - intros s n j graded Hn. cbn [step]. rewrite Hn. split; reflexivity.
  - intros cropped es Hne Ho Hq.
    destruct (steps_in_session es _ (cropped_in_session cropped Hne) Ho) as (_ & _ & Hl).
    unfold up_to_date. rewrite <- Hl. symmetry. apply quiescent_latest, Hq.
Qed.

Definition in_order : list Event :=
  [ Fires 1; Edit (shade 40); Fires 2;
    Settles 0 (Resolved "OLD"%string);
    Settles 0 (Resolved "NEW"%string) ].

Lemma preview_last_commit_wins_witness :
  up_to_date (steps (step start (CropComplete "CROP")) in_order) /\
  gradedPreview (steps (step start (CropComplete "CROP")) in_order) = Some "NEW"%string /\
  shown (steps (step start (CropComplete "CROP")) in_order)
    = Some {| image := "CROP"; curves := shade 40 |}.
Proof.
  destruct preview_last_commit_wins as (_ & _ & Hwins).
  split; [|split; reflexivity].
  apply Hwins.
  - discriminate.
  - repeat constructor.
  - split; reflexivity.
Defined.

End LivePreview.

(** ** Panning and the crop region *)

Section PanAndCrop.

Import Cropper CropperControls.
Local Open Scope Q_scope.

(** A drag: the button goes down at [e0] and the pointer moves through
    [es]. *)
Definition dragged (e0 : PointerEvent) (es : list PointerEvent) (s : Session) : Session :=
  fold_left (fun s e => handlePointerMove e s) es (handlePointerDown e0 s).

Lemma moves_while_dragging (es : list PointerEvent) :
  forall s,
    isDragging s = true ->
    let s' := fold_left (fun s e => handlePointerMove e s) es s in
    isDragging s' = true /\ dragStartRef s' = dragStartRef s /\
    zoom (view s') = zoom (view s) /\ rotation (view s') = rotation (view s).
Proof.
  induction es as [|e es IH]; intros s Hd; cbn [fold_left].
  - auto.
  - assert (Hstep : isDragging (handlePointerMove e s) = true /\
                    dragStartRef (handlePointerMove e s) = dragStartRef s /\
                    zoom (view (handlePointerMove e s)) = zoom (view s) /\
                    rotation (view (handlePointerMove e s)) = rotation (view s)).
    { unfold handlePointerMove. rewrite Hd. cbn. auto. }
    destruct Hstep as (H1 & H2 & H3 & H4).
    destruct (IH _ H1) as (I1 & I2 & I3 & I4).
    cbn zeta in *. rewrite I2, I3, I4. auto.
Qed.

Lemma moves_while_idle (es : list PointerEvent) (s : Session) :
  isDragging s = false -> fold_left (fun s e => handlePointerMove e s) es s = s.
Proof.
  revert s. induction es as [|e es IH]; intros s Hd; cbn [fold_left]; [reflexivity|].
  assert (E : handlePointerMove e s = s) by (unfold handlePointerMove; rewrite Hd; reflexivity).
  rewrite E. apply IH, Hd.
Qed.

(** The viewport after a drag from [e0] to [e1]. *)
Lemma dragged_view (e0 e1 : PointerEvent) (es : list PointerEvent) (s : Session) :
  button e0 = 0%Z ->
  let s' := dragged e0 (es ++ [e1]) s in
  px (position (view s')) == px (position (view s)) + (clientX e1 - clientX e0) /\
  py (position (view s')) == py (position (view s)) + (clientY e1 - clientY e0) /\
  zoom (view s') = zoom (view s) /\
  rotation (view s') = rotation (view s).
Proof.
  intros Hb s'. subst s'. unfold dragged.
  rewrite fold_left_app. cbn [fold_left].
  set (s0 := handlePointerDown e0 s).
  assert (H0 : isDragging s0 = true /\ view s0 = view s /\
               dragStartRef s0 = {| px := clientX e0 - px (position (view s));
                                    py := clientY e0 - py (position (view s)) |}).
  { unfold s0, handlePointerDown. rewrite Hb. cbn. auto. }
  destruct H0 as (Hd & Hv & Hstart).
  destruct (moves_while_dragging es s0 Hd) as (I1 & I2 & I3 & I4). cbn zeta in *.
  set (s1 := fold_left (fun s e => handlePointerMove e s) es s0) in *.
  unfold handlePointerMove. rewrite I1.
  cbn [negb view setPosition position px py zoom rotation].
  rewrite I2, I3, I4, Hstart, Hv. cbn [px py].
  split; [ring|]. split; [ring|]. split; reflexivity.
Qed.

(** X1.  The pan follows the pointer.  After the primary button went
    down at [e0] and the pointer moved along any path that ends at [e1],
    the image is displaced from where it was by exactly the displacement
    of the pointer from [e0] to [e1]; zoom and rotation are untouched.
    Moves without a drag (before a press, after the release, or after a
    press of another button) leave the session as it is. *)
Theorem pan_follows_pointer (e0 e1 : PointerEvent) (es : list PointerEvent) (s : Session) :
  button e0 = 0%Z ->
  let s' := dragged e0 (es ++ [e1]) s in
  px (position (view s')) == px (position (view s)) + (clientX e1 - clientX e0) /\
  py (position (view s')) == py (position (view s)) + (clientY e1 - clientY e0) /\
  zoom (view s') = zoom (view s) /\
  rotation (view s') = rotation (view s) /\
  (forall up later,
      fold_left (fun s e => handlePointerMove e s) later (handlePointerUp up s')
      = handlePointerUp up s') /\
  (forall e later,
      isDragging s = false -> button e <> 0%Z ->
      dragged e later s = s).
Proof.
  intros Hb s'.
  destruct (dragged_view e0 e1 es s Hb) as (Hx & Hy & Hz & Hr).
  split; [exact Hx|]. split; [exact Hy|]. split; [exact Hz|]. split; [exact Hr|].
  split.
  - intros up later. apply moves_while_idle. reflexivity.
  - intros e later Hidle Hne. unfold dragged, handlePointerDown.
    destruct (Z.eqb_spec (button e) 0); [contradiction|]. cbn [negb].
    apply moves_while_idle, Hidle.
Qed.

Definition press : PointerEvent := {| button := 0; clientX := 300; clientY := 200 |}.
Definition halfway : PointerEvent := {| button := 0; clientX := 10; clientY := 900 |}.
Definition release_spot : PointerEvent := {| button := 0; clientX := 340; clientY := 170 |}.

Lemma pan_follows_pointer_witness :
  px (position (view (dragged press [halfway; release_spot] mounted))) == 40 /\
  py (position (view (dragged press [halfway; release_spot] mounted))) == - (30).
Proof.
  destruct (pan_follows_pointer press release_spot [halfway] mounted eq_refl)
    as (Hx & Hy & _).
  split; [rewrite Hx | rewrite Hy]; reflexivity.
Defined.

(** X2.  The shape of the crop region.  For an image of non-zero width
    and a non-zero zoom, the region handed to [getCroppedImg] has the
    size of the crop box divided by the zoom, hence the 35:45 aspect of
    the box; it starts at ((rendered size - box size) / 2 - pan) / zoom;
    and it does not depend on the size of the container. *)
Theorem crop_region_shape (img : Image) (c1 c2 : Container) (v : Viewport) :
  ~ naturalWidth img == 0 -> ~ zoom v == 0 ->
  exists r1 r2,
    handleCrop (Some img) (Some c1) v = Some (r1, rotation v) /\
    handleCrop (Some img) (Some c2) v = Some (r2, rotation v) /\
    width r1 == CROP_BOX_WIDTH / zoom v /\
    height r1 == CROP_BOX_HEIGHT / zoom v /\
    width r1 * 45 == height r1 * 35 /\
    x r1 == ((naturalWidth img * zoom v - CROP_BOX_WIDTH) / 2 - px (position v)) / zoom v /\
    y r1 == ((naturalHeight img * zoom v - CROP_BOX_HEIGHT) / 2 - py (position v)) / zoom v /\
    x r1 == x r2 /\ y r1 == y r2 /\ width r1 == width r2 /\ height r1 == height r2.
Proof.
  intros Hw Hz.
  eexists. eexists. split; [reflexivity|]. split; [reflexivity|].
  cbn [x y width height]. unfold CROP_BOX_WIDTH, CROP_BOX_HEIGHT, ASPECT_RATIO.
  repeat (split; [field; auto|]). field; auto.
Qed.

Lemma crop_region_shape_witness :
  exists r,
    handleCrop (Some portrait_photo) (Some preview_container)
      (setupAutoCrop portrait_photo initial) = Some (r, JS.Fin 0) /\
    width r * 45 == height r * 35 /\
    width r == 3000 # 7.
Proof.
  destruct (crop_region_shape portrait_photo preview_container preview_container
              (setupAutoCrop portrait_photo initial))
    as (r1 & _ & H1 & _ & Hw & _ & Ha & _); [discriminate | discriminate |].
  exists r1. split; [exact H1|]. split; [exact Ha|].
  rewrite Hw. reflexivity.
Defined.

(** X3.  Panning moves the crop window the other way, scaled by the
    zoom.  If the image is dragged by (dx, dy) screen pixels, the region
    cropped afterwards has the same size and starts dx / zoom source
    pixels further left and dy / zoom further up. *)
Theorem pan_shifts_crop (img : Image) (container : Container)
        (e0 e1 : PointerEvent) (es : list PointerEvent) (s : Session) :
  button e0 = 0%Z ->
  ~ naturalWidth img == 0 -> ~ zoom (view s) == 0 ->
  exists r r',
    crop (Some img) (Some container) s = Some (r, rotation (view s)) /\
    crop (Some img) (Some container) (dragged e0 (es ++ [e1]) s)
      = Some (r', rotation (view s)) /\
    x r' == x r - (clientX e1 - clientX e0) / zoom (view s) /\
    y r' == y r - (clientY e1 - clientY e0) / zoom (view s) /\
    width r' == width r /\ height r' == height r.
Proof.
  intros Hb Hw Hz.
  destruct (dragged_view e0 e1 es s Hb) as (Hx & Hy & Hzoom & Hrot).
  cbn zeta in *. set (s' := dragged e0 (es ++ [e1]) s) in *.
  eexists. eexists. unfold crop, handleCrop.
  split; [reflexivity|]. split; [rewrite Hrot; reflexivity|].
  cbn [x y width height]. rewrite Hx, Hy, Hzoom.
  unfold CROP_BOX_WIDTH, CROP_BOX_HEIGHT, ASPECT_RATIO.
  split; [field; auto|]. split; [field; auto|].
  split; reflexivity.
Qed.

Lemma pan_shifts_crop_witness :
  exists r r',
    crop (Some portrait_photo) (Some preview_container) mounted = Some (r, JS.Fin 0) /\
    crop (Some portrait_photo) (Some preview_container)
         (dragged press [halfway; release_spot] mounted) = Some (r', JS.Fin 0) /\
    x r' == x r - 40 /\ y r' == y r + 30.
Proof.
  destruct (pan_shifts_crop portrait_photo preview_container press release_spot
              [halfway] mounted eq_refl)
    as (r & r' & Hr & Hr' & Hx & Hy & _); [discriminate | discriminate |].
  exists r, r'. split; [exact Hr|]. split; [exact Hr'|].
  split; [rewrite Hx | rewrite Hy]; reflexivity.
Defined.

End PanAndCrop.

(** ** The rotation slider *)

Section RotationSlider.

Import Cropper CropperControls.
Local Open Scope Q_scope.














End RotationSlider.

(** ** Undo, redo and commits together *)

Section HistoryFlows.

Import CurveAdjustment CurveAdjustmentView.
Local Open Scope Z_scope.

Lemma emit_not_NoOp (entry : option CurveSettings) : emit entry <> NoOp.
Proof. destruct entry; discriminate. Qed.

(** X6.  The undo and redo buttons are disabled exactly when their
    handlers would do nothing: [undo] leaves the history alone and emits
    nothing if and only if [historyIndex <= 0], and [redo] if and only if
    [historyIndex >= history.length - 1]. *)
Theorem buttons_match_handlers (h : History) :
  (undo_disabled h = true <-> undo h = (h, NoOp)) /\
  (redo_disabled h = true <-> redo h = (h, NoOp)).
Proof.
  unfold undo_disabled, redo_disabled, undo, redo. split.
  - destruct (Z.leb_spec (historyIndex h) 0) as [Hle | Hgt];
      destruct (Z.ltb_spec 0 (historyIndex h)) as [Hlt | Hge];
      try lia; split; intros E; try reflexivity; try discriminate.
    injection E as _ E. apply emit_not_NoOp in E. contradiction.
  - rewrite Z.geb_leb.
    destruct (Z.leb_spec (Z.of_nat (length (history h)) - 1) (historyIndex h)) as [Hle | Hgt];
      destruct (Z.ltb_spec (historyIndex h) (Z.of_nat (length (history h)) - 1))
        as [Hlt | Hge];
      try lia; split; intros E; try reflexivity; try discriminate.
    injection E as _ E. apply emit_not_NoOp in E. contradiction.
Qed.

(** Right after the mount there is one entry: both buttons are disabled
    and neither handler does anything. *)
Lemma buttons_match_handlers_witness :
  undo (mount DEFAULT_CURVES empty_history) = (mount DEFAULT_CURVES empty_history, NoOp) /\
  redo (mount DEFAULT_CURVES empty_history) = (mount DEFAULT_CURVES empty_history, NoOp).
Proof.
  split.
  - apply (proj1 (proj1 (buttons_match_handlers (mount DEFAULT_CURVES empty_history)))).
    reflexivity.
  - apply (proj1 (proj2 (buttons_match_handlers (mount DEFAULT_CURVES empty_history)))).
    reflexivity.
Defined.

(** [undo] and [redo] clicked [k] times. *)
Definition undos (k : nat) (h : History) : History := Nat.iter k (fun h => fst (undo h)) h.
Definition redos (k : nat) (h : History) : History := Nat.iter k (fun h => fst (redo h)) h.

Lemma undo_index (h : History) :
  0 <= historyIndex h ->
  history (fst (undo h)) = history h /\
  historyIndex (fst (undo h)) = Z.max 0 (historyIndex h - 1).
Proof.
  intros Hi. unfold undo. destruct (Z.ltb_spec 0 (historyIndex h)); cbn; split; try reflexivity; lia.
Qed.

Lemma redo_index (h : History) :
  historyIndex h <= Z.of_nat (length (history h)) - 1 ->
  history (fst (redo h)) = history h /\
  historyIndex (fst (redo h))
    = Z.min (Z.of_nat (length (history h)) - 1) (historyIndex h + 1).
Proof.
  intros Hi. unfold redo.
  destruct (Z.ltb_spec (historyIndex h) (Z.of_nat (length (history h)) - 1));
    cbn; split; try reflexivity; lia.
Qed.

Lemma undos_index (k : nat) (h : History) :
  0 <= historyIndex h ->
  history (undos k h) = history h /\
  historyIndex (undos k h) = Z.max 0 (historyIndex h - Z.of_nat k).
Proof.
  intros Hi. induction k as [|k IH]; [cbn; split; [reflexivity | lia]|].
  destruct IH as [IHh IHi].
  change (undos (S k) h) with (fst (undo (undos k h))).
  destruct (undo_index (undos k h)) as [Eh Ei]; [lia|].
  rewrite Eh, Ei, IHh, IHi. split; [reflexivity | lia].
Qed.

Lemma redos_index (k : nat) (h : History) :
  historyIndex h <= Z.of_nat (length (history h)) - 1 ->
  history (redos k h) = history h /\
  historyIndex (redos k h)
    = Z.min (Z.of_nat (length (history h)) - 1) (historyIndex h + Z.of_nat k).
Proof.
  intros Hi. induction k as [|k IH]; [cbn; split; [reflexivity | lia]|].
  destruct IH as [IHh IHi].
  change (redos (S k) h) with (fst (redo (redos k h))).
  destruct (redo_index (redos k h)) as [Eh Ei];
    [rewrite IHh, IHi; lia|].
  rewrite Eh, Ei, IHh, IHi. split; [reflexivity | lia].
Qed.

(** X7.  Undo and redo walk along the stack and stop at its ends.  From
    a history whose index points at an entry, [k] undos lead to index
    max(0, index - k) and [k] redos to index min(last, index + k); the
    stack of snapshots is never changed by either; and [k] redos after
    [k] undos restore the history when there were [k] entries to go back
    over. *)
Theorem undo_redo_walk (h : History) (k : nat) :
  positioned h ->
  history (undos k h) = history h /\
  historyIndex (undos k h) = Z.max 0 (historyIndex h - Z.of_nat k) /\
  history (redos k h) = history h /\
  historyIndex (redos k h)
    = Z.min (Z.of_nat (length (history h)) - 1) (historyIndex h + Z.of_nat k) /\
  (Z.of_nat k <= historyIndex h -> redos k (undos k h) = h).
Proof.
  intros Hp. unfold positioned in Hp.
  destruct (undos_index k h) as [Uh Ui]; [lia|].
  destruct (redos_index k h) as [Rh Ri]; [lia|].
  split; [exact Uh|]. split; [exact Ui|]. split; [exact Rh|]. split; [exact Ri|].
  intros Hk.
  destruct (redos_index k (undos k h)) as [Bh Bi]; [rewrite Uh, Ui; lia|].
  rewrite Uh, Ui in *.
  destruct (redos k (undos k h)) as [st idx], h as [st0 idx0]; cbn in *.
  subst st. f_equal. lia.
Qed.

Definition fifty_at_tip : History :=
  {| history := skipn 10 sixty_shades; historyIndex := 49 |}.

Lemma undo_redo_walk_witness :
  historyIndex (undos 50 fifty_at_tip) = 0 /\
  historyIndex (undos 57 fifty_at_tip) = 0 /\
  redos 20 (undos 20 fifty_at_tip) = fifty_at_tip.
Proof.
  assert (Hp : positioned fifty_at_tip) by (unfold positioned; cbn; lia).
  split; [|split].
  - destruct (undo_redo_walk fifty_at_tip 50 Hp) as (_ & E & _). rewrite E. reflexivity.
  - destruct (undo_redo_walk fifty_at_tip 57 Hp) as (_ & E & _). rewrite E. reflexivity.
  - destruct (undo_redo_walk fifty_at_tip 20 Hp) as (_ & _ & _ & _ & E).
    apply E. cbn. lia.
Defined.

Lemma addToHistory_current (s : CurveSettings) (h : History) :
  -1 <= historyIndex h ->
  index (history (addToHistory s h)) (historyIndex (addToHistory s h)) = Some s.
Proof.
  intros Hi.
  destruct (same_json (index (history h) (historyIndex h)) s) eqn:Ej.
  - apply same_json_true in Ej. rewrite (addToHistory_duplicate s h Ej). exact Ej.
  - assert (Hne : index (history h) (historyIndex h) <> Some s).
    { intros E. apply same_json_true in E. congruence. }
    rewrite (addToHistory_fresh s h Hi Hne). cbn [history historyIndex].
    apply committed_tip.
Qed.

Lemma index_app_left {A : Type} (a b : list A) (i : Z) :
  0 <= i < Z.of_nat (length a) -> index (a ++ b) i = index a i.
Proof.
  intros Hi. unfold index. destruct (Z.ltb_spec i 0); [lia|].
  apply nth_error_app1. lia.
Qed.

Lemma index_firstn {A : Type} (a : list A) (n : nat) (i : Z) :
  0 <= i < Z.of_nat n -> index (firstn n a) i = index a i.
Proof.
  intros Hi. unfold index. destruct (Z.ltb_spec i 0); [lia|].
  rewrite nth_error_firstn.
  destruct (Nat.ltb_spec (Z.to_nat i) n); [reflexivity | lia].
Qed.

(** X8.  A commit after an undo replaces the undone branch.  In a
    history of at most 50 entries with the index above 0, undo and then
    commit a state that differs from the snapshot undone to.  Then the
    stack is the entries up to that snapshot followed by the new state,
    redo has nothing left to do, and one undo leads back to the same
    snapshot as before. *)
Theorem commit_after_undo (h : History) (s prev : CurveSettings) :
  positioned h -> (length (history h) <= 50)%nat ->
  0 < historyIndex h ->
  index (history h) (historyIndex h - 1) = Some prev -> s <> prev ->
  let h' := addToHistory s (fst (undo h)) in
  history h' = firstn (Z.to_nat (historyIndex h)) (history h) ++ [s] /\
  historyIndex h' = historyIndex h /\
  redo h' = (h', NoOp) /\
  undo h' = ({| history := history h'; historyIndex := historyIndex h - 1 |}, Emitted prev).
Proof.
  intros Hp Hlen Hi Hprev Hne h'. unfold positioned in Hp.
  assert (Hu : fst (undo h) = {| history := history h; historyIndex := historyIndex h - 1 |}).
  { unfold undo. destruct (Z.ltb_spec 0 (historyIndex h)); [reflexivity | lia]. }
  assert (Hh' : h' = {| history := firstn (Z.to_nat (historyIndex h)) (history h) ++ [s];
                        historyIndex := historyIndex h |}).
  { unfold h'. rewrite Hu.
    rewrite addToHistory_fresh; cbn [history historyIndex]; [| lia |].
    - unfold committed. cbn [history historyIndex].
      replace (historyIndex h - 1 + 1) with (historyIndex h) by lia.
      set (kept := firstn (Z.to_nat (historyIndex h)) (history h)).
      assert (Hk : length kept = Z.to_nat (historyIndex h)).
      { unfold kept. rewrite length_firstn. lia. }
      destruct (Z.ltb_spec 50 (Z.of_nat (length (kept ++ [s])))) as [Hlong | _];
        rewrite length_app in *; cbn [length] in *; [lia|].
      f_equal. lia.
    - rewrite Hprev. intros [= E]. apply Hne. symmetry. exact E. }
  rewrite Hh'. cbn [history historyIndex].
  set (kept := firstn (Z.to_nat (historyIndex h)) (history h)).
  assert (Hk : length kept = Z.to_nat (historyIndex h)).
  { unfold kept. rewrite length_firstn. lia. }
  split; [reflexivity|]. split; [reflexivity|]. split.
  - apply redo_at_tip. cbn [history historyIndex]. rewrite length_app. cbn [length]. lia.
  - unfold undo. cbn [history historyIndex].
    destruct (Z.ltb_spec 0 (historyIndex h)); [|lia].
    rewrite index_app_left by lia. unfold kept. rewrite index_firstn by lia.
    rewrite Hprev. reflexivity.
Qed.

Lemma commit_after_undo_witness :
  history (addToHistory (shade 7) (fst (undo three_entries_at_tip)))
    = [shade 0; shade 1; shade 7] /\
  redo (addToHistory (shade 7) (fst (undo three_entries_at_tip)))
    = (addToHistory (shade 7) (fst (undo three_entries_at_tip)), NoOp).
Proof.
  destruct (commit_after_undo three_entries_at_tip (shade 7) (shade 1))
    as (Hh & _ & Hr & _).
  - unfold positioned. cbn. lia.
  - cbn. lia.
  - cbn. lia.
  - reflexivity.
  - discriminate.
  - split; [rewrite Hh; reflexivity | exact Hr].
Defined.

End HistoryFlows.

(** ** The editor: history in step with the curves, whole gestures *)

Section EditorFlows.

Import CurveAdjustment CurveAdjustmentView.
Local Open Scope Z_scope.

(** The index points at an entry and that entry is the settings on
    screen. *)
Definition in_sync (ed : Editor) : Prop :=
  positioned (hist ed) /\
  index (history (hist ed)) (historyIndex (hist ed)) = Some (settings ed).

Lemma committed_in_sync (s : CurveSettings) (ed : Editor) :
  well_formed (hist ed) -> in_sync (commit s (onChange s ed)).
Proof.
  intros Hwf. unfold in_sync. cbn [hist settings commit onChange].
  split; [apply positioned_addToHistory; exact Hwf|].
  apply addToHistory_current.
  destruct Hwf as [Hp | ->]; [unfold positioned in Hp; lia | cbn; lia].
Qed.

Lemma moves_keep (es : list MouseEvent) (rect : option DOMRect) :
  forall ed ed',
    moves es rect ed = Some ed' ->
    hist ed' = hist ed /\ draggingPoint ed' = draggingPoint ed /\
    activeChannel ed' = activeChannel ed /\ hoveredPoint ed' = hoveredPoint ed.
Proof.
  induction es as [|e es IH]; intros ed ed' Hm; cbn [moves] in Hm.
  - injection Hm as <-. auto.
  - destruct (handleGlobalMove e rect ed) as [ed1|] eqn:E1; [|discriminate].
    destruct (IH _ _ Hm) as (H1 & H2 & H3 & H4).
    assert (K : hist ed1 = hist ed /\ draggingPoint ed1 = draggingPoint ed /\
                activeChannel ed1 = activeChannel ed /\ hoveredPoint ed1 = hoveredPoint ed).
    { unfold handleGlobalMove in E1.
      destruct (draggingPoint ed) eqn:Ed; [|injection E1 as <-; rewrite Ed; auto].
      destruct rect; [|injection E1 as <-; rewrite Ed; auto].
      cbn zeta in E1.
      match type of E1 with
      | match ?t with Some _ => _ | None => _ end = _ => destruct t; [|discriminate]
      end.
      injection E1 as <-. cbn. rewrite Ed. auto. }
    destruct K as (K1 & K2 & K3 & K4).
    rewrite H1, H2, H3, H4. auto.
Qed.

Lemma addToHistory_grows_by_one (s : CurveSettings) (h : History) :
  (length (history (addToHistory s h)) <= length (history h) + 1)%nat.
Proof.
  unfold addToHistory. destruct (same_json _ s); [lia|]. cbn [history].
  set (grown := slice0 (history h) (historyIndex h + 1) ++ [s]).
  assert (Hg : (length grown <= length (history h) + 1)%nat).
  { unfold grown, slice0. rewrite length_app. cbn [length].
    destruct (historyIndex h + 1 <? 0); rewrite length_firstn; lia. }
  destruct (50 <? Z.of_nat (length grown)); [|exact Hg].
  unfold shift. destruct grown; cbn [tl length] in *; lia.
Qed.

(** X9.  The history stays in step with the curves.  Once the component
    is mounted, the entry at the current index is the settings on screen,
    and every completed interaction keeps it so: a click on the canvas,
    the removal of a point, a click on undo or redo, and a whole drag
    (press, moves, release).  Only during a drag do the settings run ahead
    of the history. *)
Theorem history_in_step :
  (forall ed, hist ed = empty_history -> in_sync (mounted ed)) /\
  (forall e rect ed, in_sync ed -> in_sync (handleCanvasClick e rect ed)) /\
  (forall i ed, in_sync ed -> in_sync (removePoint i ed)) /\
  (forall ed, in_sync ed -> in_sync (clickUndo ed) /\ in_sync (clickRedo ed)) /\
  (forall i es rect ed ed',
      positioned (hist ed) -> gesture i es rect ed = Some ed' -> in_sync ed').
Proof.
  split; [|split; [|split; [|split]]].
  - intros ed He. unfold in_sync, mounted. cbn [hist settings]. rewrite He. cbn.
    unfold positioned. cbn. split; [lia | reflexivity].
  - intros e rect ed Hs. unfold handleCanvasClick.
    destruct (hoveredPoint ed); [exact Hs|]. destruct rect; [|exact Hs].
    apply committed_in_sync. left. apply Hs.
  - intros i ed Hs. unfold removePoint.
    destruct (_ || _); [exact Hs|].
    apply committed_in_sync. left. apply Hs.
  - intros ed (Hp & Hcur). split.
    + unfold clickUndo, undo_disabled.
      destruct (Z.leb_spec (historyIndex (hist ed)) 0) as [Hle | Hgt]; [split; assumption|].
      destruct (undo_moves_back (hist ed) Hp Hgt) as (prev & Hprev & ->).
      unfold in_sync, apply_emission, positioned. cbn.
      unfold positioned in Hp. split; [lia | exact Hprev].
    + unfold clickRedo, redo_disabled. rewrite Z.geb_leb.
      destruct (Z.leb_spec (Z.of_nat (length (history (hist ed))) - 1)
                           (historyIndex (hist ed))) as [Hle | Hgt]; [split; assumption|].
      unfold positioned in Hp.
      destruct (redo_moves_forward (hist ed)) as (next & Hnext & ->); [lia | lia |].
      unfold in_sync, apply_emission, positioned. cbn. split; [lia | exact Hnext].
  - intros i es rect ed ed' Hp Hg. unfold gesture in Hg.
    destruct (moves es rect (handleMouseDown i ed)) as [ed1|] eqn:Em; [|discriminate].
    injection Hg as <-.
    destruct (moves_keep es rect _ _ Em) as (Hh & Hd & _ & _).
    cbn [handleMouseDown setDraggingPoint hist draggingPoint] in Hh, Hd.
    unfold handleGlobalUp. rewrite Hd.
    unfold in_sync. cbn [setDraggingPoint commit hist settings]. rewrite Hh.
    split; [apply positioned_addToHistory; left; exact Hp|].
    apply addToHistory_current. unfold positioned in Hp. lia.
Qed.

Definition unmounted_editor : Editor :=
  {| settings := DEFAULT_CURVES; activeChannel := all;
     hoveredPoint := None; draggingPoint := None; hist := empty_history |}.

Lemma history_in_step_witness :
  in_sync (mounted unmounted_editor) /\
  in_sync clicked_twice /\
  in_sync (clickUndo clicked_twice) /\
  settings (clickUndo clicked_twice) = settings clicked_once.
Proof.
  destruct history_in_step as (Hmount & Hclick & _ & Hundo & _).
  assert (H0 : in_sync (mounted unmounted_editor)) by (apply Hmount; reflexivity).
  assert (H2 : in_sync clicked_twice).
  { unfold clicked_twice, clicked_once. apply Hclick, Hclick. exact H0. }
  split; [exact H0|]. split; [exact H2|].
  split; [apply (Hundo clicked_twice H2) | reflexivity].
Defined.

(** X10.  One commit per drag.  However many [mousemove] events a drag
    has, the release commits once: the history afterwards is the history
    before with the final settings committed, so it has at most one
    entry more; no handle is being dragged any more; and a drag that ends
    on the settings it started from adds no entry at all. *)
Theorem drag_commits_once (i : nat) (es : list MouseEvent) (rect : option DOMRect)
        (ed ed' : Editor) :
  gesture i es rect ed = Some ed' ->
  hist ed' = addToHistory (settings ed') (hist ed) /\
  (length (history (hist ed')) <= length (history (hist ed)) + 1)%nat /\
  draggingPoint ed' = None /\
  (in_sync ed -> settings ed' = settings ed -> hist ed' = hist ed).
Proof.
  intros Hg. unfold gesture in Hg.
  destruct (moves es rect (handleMouseDown i ed)) as [ed1|] eqn:Em; [|discriminate].
  injection Hg as <-.
  destruct (moves_keep es rect _ _ Em) as (Hh & Hd & _ & _).
  cbn [handleMouseDown setDraggingPoint hist draggingPoint] in Hh, Hd.
  assert (E : hist (handleGlobalUp ed1) = addToHistory (settings (handleGlobalUp ed1)) (hist ed)).
  { unfold handleGlobalUp. rewrite Hd. cbn [setDraggingPoint commit hist settings].
    rewrite Hh. reflexivity. }
  split; [exact E|]. split; [rewrite E; apply addToHistory_grows_by_one|].
  split; [reflexivity|].
  intros (_ & Hcur) Hsame. rewrite E, Hsame.
  apply addToHistory_duplicate. exact Hcur.
Qed.

Lemma drag_commits_once_witness :
  exists ed',
    gesture 1 [ {| clientX := 100; clientY := 60 |}; {| clientX := 90; clientY := 70 |};
                {| clientX := 64; clientY := 155 |} ] (Some canvas) clicked_once = Some ed' /\
    points ed' = [ {| x := 0; y := 0 |}; {| x := 64; y := 100 |}; {| x := 255; y := 255 |} ] /\
    length (history (hist ed')) = 3%nat.
Proof.
  eexists. split; [reflexivity|]. split; [reflexivity|].
  destruct (drag_commits_once 1
              [ {| clientX := 100; clientY := 60 |}; {| clientX := 90; clientY := 70 |};
                {| clientX := 64; clientY := 155 |} ] (Some canvas) clicked_once _ eq_refl)
    as (E & _).
  rewrite E. reflexivity.
Defined.

End EditorFlows.

(** ** Points on the canvas *)

Section PointsOnCanvas.

Import CurveAdjustment CurveAdjustmentView.
Local Open Scope Z_scope.

(** *** Sorting a curve that is sorted already *)

Lemma insert_by_x_front (p : Point) (l : list Point) :
  Forall (fun q => x p <= x q) l -> insert_by_x p l = p :: l.
Proof.
  intros Hall. destruct l as [|q l]; [reflexivity|].
  cbn [insert_by_x]. inversion Hall; subst.
  destruct (Z.leb_spec (x p) (x q)); [reflexivity | lia].
Qed.

Lemma strong_map_head (p : Point) (l : list Point) :
  StronglySorted Z.le (map x (p :: l)) ->
  StronglySorted Z.le (map x l) /\ Forall (fun q => x p <= x q) l.
Proof.
  cbn [map]. intros Hs. inversion Hs as [|? ? Hs' Hall]; subst.
  split; [exact Hs'|]. rewrite Forall_map in Hall. exact Hall.
Qed.

Lemma sort_by_x_sorted_id (l : list Point) :
  StronglySorted Z.le (map x l) -> sort_by_x l = l.
Proof.
  induction l as [|p l IH]; intros Hs; [reflexivity|].
  destruct (strong_map_head p l Hs) as [Hs' Hall].
  cbn [sort_by_x]. rewrite (IH Hs'). apply insert_by_x_front, Hall.
Qed.

(** A point appended to a sorted curve and sorted in goes behind the
    points with an [x] up to its own and in front of the others. *)
Lemma sort_by_x_appended (p : Point) (l : list Point) :
  StronglySorted Z.le (map x l) ->
  exists before after,
    sort_by_x (l ++ [p]) = before ++ p :: after /\
    before ++ after = l /\
    Forall (fun q => x q <= x p) before /\
    Forall (fun q => x p < x q) after.
Proof.
  induction l as [|a l IH]; intros Hs.
  - exists [], []. cbn. auto.
  - destruct (strong_map_head a l Hs) as [Hs' Hall].
    destruct (IH Hs') as (before & after & Esort & Eapp & Hb & Ha).
    cbn [app sort_by_x]. rewrite Esort.
    destruct before as [|t before].
    + cbn [app] in *. subst after.
      cbn [insert_by_x]. destruct (Z.leb_spec (x a) (x p)) as [Hle | Hgt].
      * exists [a], l. cbn [app].
        split; [reflexivity|]. split; [reflexivity|]. split; [|exact Ha].
        constructor; [exact Hle | constructor].
      * exists [], (a :: l). cbn [app]. rewrite (insert_by_x_front a l Hall).
        split; [reflexivity|]. split; [reflexivity|]. split; [constructor|].
        constructor; [lia | exact Ha].
    + cbn [app insert_by_x].
      assert (Hat : x a <= x t).
      { rewrite Forall_forall in Hall. apply Hall. rewrite <- Eapp. left. reflexivity. }
      destruct (Z.leb_spec (x a) (x t)); [|lia].
      exists (a :: t :: before), after. cbn [app]. rewrite <- Eapp.
      split; [reflexivity|]. split; [reflexivity|]. split; [|exact Ha].
      inversion Hb; subst. constructor; [lia | constructor; assumption].
Qed.

Lemma set_back (s : CurveSettings) (ch : Channel) (pts : list Point) :
  set (set s ch pts) ch (get s ch) = s.
Proof. destruct s, ch; reflexivity. Qed.

Lemma others_middle {A : Type} (before after : list A) (v : A) :
  others (length before) (before ++ v :: after) = before ++ after.
Proof.
  induction before as [|b before IH]; [reflexivity|].
  unfold others in *. cbn [length app firstn skipn] in *.
  rewrite IH. reflexivity.
Qed.

(** X11.  Removing the point just added gives the curves back.  On a
    set of valid curves, click on the canvas at an [x] that no point of
    the active curve has.  The new point lands at some position [i] of
    the active curve, strictly between the ends, and [removePoint i]
    then restores the settings exactly. *)
Theorem click_then_remove (e : MouseEvent) (rect : DOMRect) (ed : Editor) :
  hoveredPoint ed = None ->
  valid (settings ed) ->
  over_canvas e rect ->
  ~ In (curve_x e rect) (map x (points ed)) ->
  exists i,
    nth_error (points (handleCanvasClick e (Some rect) ed)) i
      = Some {| x := curve_x e rect; y := curve_y e rect |} /\
    (0 < i < length (points ed))%nat /\
    settings (removePoint i (handleCanvasClick e (Some rect) ed)) = settings ed.
Proof.
  intros Hhover Hvalid Hover Hfree.
  set (p := {| x := curve_x e rect; y := curve_y e rect |}).
  pose proof (Hvalid (activeChannel ed)) as Hc. fold (points ed) in Hc.
  pose proof (ChannelCurve_ordered _ Hc) as Ho.
  pose proof Ho as (_ & Hhd & Hlast & Hlen).
  apply OrderedCurve_by_contents in Ho. destruct Ho as (Hs & Hr & H0 & H255).
  destruct (sort_by_x_appended p (points ed) Hs) as (before & after & Esort & Eapp & Hb & Ha).
  pose proof (curve_x_in_range e rect Hover) as Hp. unfold in_range in Hp.
  assert (Eclick : points (handleCanvasClick e (Some rect) ed) = before ++ p :: after).
  { unfold handleCanvasClick. rewrite Hhover. unfold points at 1.
    cbn [settings activeChannel commit onChange]. rewrite get_set_same. exact Esort. }
  assert (Hbne : before <> []).
  { intros ->. cbn [app] in Eapp. rewrite <- Eapp in Hhd.
    destruct after as [|a after]; [cbn in Hhd; lia|].
    apply Forall_inv in Ha. cbn [map hd] in Hhd. subst p. cbn [x] in Ha. lia. }
  assert (Hane : after <> []).
  { intros ->. rewrite app_nil_r in Eapp. subst before.
    apply Hfree.
    assert (Hin : In 255 (map x (points ed))) by exact H255.
    rewrite Forall_forall in Hb. apply in_map_iff in Hin.
    destruct Hin as (q & Hq & Hin). specialize (Hb q Hin). subst p. cbn [x] in Hb.
    replace (curve_x e rect) with 255 by lia. exact H255. }
  exists (length before).
  split; [rewrite Eclick, nth_error_app2, Nat.sub_diag by lia; reflexivity|].
  split.
  { rewrite <- Eapp, length_app.
    destruct before; [contradiction|]. destruct after; [contradiction|]. cbn. lia. }
  unfold removePoint. rewrite Eclick.
  assert (Hlen' : length (before ++ p :: after) = S (length before + length after)).
  { rewrite length_app. cbn. lia. }
  destruct (Z.eqb_spec (Z.of_nat (length before)) 0) as [E0 | _].
  { destruct before; [contradiction | cbn [length] in E0; lia]. }
  destruct (Z.eqb_spec (Z.of_nat (length before))
                       (Z.of_nat (length (before ++ p :: after)) - 1)) as [El | _].
  { rewrite Hlen' in El. destruct after; [contradiction | cbn [length] in El; lia]. }
  cbn [orb settings commit onChange].
  rewrite filter_index_others by lia. rewrite Nat.sub_0_r, others_middle, Eapp.
  unfold handleCanvasClick. rewrite Hhover.
  cbn [settings activeChannel commit onChange].
  unfold points. apply set_back.
Qed.

Lemma click_then_remove_witness :
  exists i,
    nth_error (points clicked_once) i = Some {| x := 128; y := 200 |} /\
    settings (removePoint i clicked_once) = settings fresh_editor.
Proof.
  destruct (click_then_remove {| clientX := 128; clientY := 55 |} canvas fresh_editor)
    as (i & Hi & _ & Hback).
  - reflexivity.
  - exact fresh_editor_valid.
  - unfold over_canvas; cbn; repeat split; discriminate.
  - cbn. intros [H | [H | []]]; discriminate.
  - exists i. split; [exact Hi | exact Hback].
Defined.

(** *** Dragging an end point *)

(** X12.  An end point only moves up and down.  On curves in order,
    with the first or the last point grabbed, a pointer move anywhere
    replaces the height of that point by the clamped pointer height and
    changes nothing else: its [x] and its place are kept, and so is
    every other point. *)
Theorem end_point_moves_vertically
        (e : MouseEvent) (rect : DOMRect) (ed : Editor) (d : nat) (p : Point) :
  OrderedCurve (points ed) ->
  draggingPoint ed = Some d ->
  nth_error (points ed) d = Some p ->
  ~ interior d (points ed) ->
  exists ed',
    handleGlobalMove e (Some rect) ed = Some ed' /\
    points ed' = firstn d (points ed)
                   ++ {| x := x p; y := JS.clamp255 (curve_y e rect) |}
                   :: skipn (S d) (points ed).
Proof.
  intros Ho Hd Hp Hend.
  assert (Hlt : (d < length (points ed))%nat) by (apply nth_error_Some; congruence).
  set (q := {| x := x p; y := JS.clamp255 (curve_y e rect) |}).
  assert (Ea : assign (points ed) d q = Some (firstn d (points ed) ++ q :: skipn (S d) (points ed)))
    by (apply assign_inside; exact Hlt).
  assert (Exs : map x (firstn d (points ed) ++ q :: skipn (S d) (points ed))
                = map x (points ed)) by (apply (dragged_vertically _ _ d p _ Hp Ea)).
  assert (Esort : sort_by_x (firstn d (points ed) ++ q :: skipn (S d) (points ed))
                  = firstn d (points ed) ++ q :: skipn (S d) (points ed)).
  { apply sort_by_x_sorted_id. rewrite Exs.
    apply OrderedCurve_by_contents in Ho. apply Ho. }
  assert (Eb : negb (Z.of_nat d =? 0)
               && negb (Z.of_nat d =? Z.of_nat (length (points ed)) - 1) = false).
  { unfold interior in Hend.
    destruct (Z.eqb_spec (Z.of_nat d) 0); [reflexivity|].
    destruct (Z.eqb_spec (Z.of_nat d) (Z.of_nat (length (points ed)) - 1)); [reflexivity|].
    exfalso. apply Hend. split; [lia | assumption]. }
  unfold handleGlobalMove. rewrite Hd, Eb, Hp. fold q. rewrite Ea, Esort.
  eexists. split; [reflexivity|].
  unfold points at 1. cbn [settings activeChannel onChange]. apply get_set_same.
Qed.

Lemma end_point_moves_vertically_witness :
  exists ed',
    handleGlobalMove {| clientX := -40 # 1; clientY := 155 |} (Some canvas)
                     (handleMouseDown 2 clicked_once) = Some ed' /\
    points ed' = [ {| x := 0; y := 0 |}; {| x := 128; y := 200 |}; {| x := 255; y := 100 |} ].
Proof.
  apply (end_point_moves_vertically {| clientX := -40 # 1; clientY := 155 |} canvas
           (handleMouseDown 2 clicked_once) 2 {| x := 255; y := 255 |}).
  - apply ChannelCurve_ordered. exact (clicked_once_valid all).
  - reflexivity.
  - reflexivity.
  - unfold interior. cbn. lia.
Defined.

(** *** The 0..255 box *)

(** The pointer is over the canvas, in both directions. *)
Definition inside_canvas (e : MouseEvent) (rect : DOMRect) : Prop :=
  over_canvas e rect /\
  (0 < height rect /\ top rect <= clientY e /\ clientY e <= top rect + height rect)%Q.

Definition in_box (p : Point) : Prop := in_range (x p) /\ in_range (y p).

Definition boxed (s : CurveSettings) : Prop := forall ch, Forall in_box (get s ch).

Lemma curve_y_in_range (e : MouseEvent) (rect : DOMRect) :
  (0 < height rect /\ top rect <= clientY e /\ clientY e <= top rect + height rect)%Q ->
  in_range (curve_y e rect).
Proof.
  intros (Hh & Hlo & Hhi). unfold curve_y.
  assert (Hs : (0 <= 255 / height rect)%Q).
  { apply Qle_shift_div_l; [exact Hh|]. rewrite Qmult_0_l. discriminate. }
  assert (H0 : (0 <= (clientY e - top rect) * (255 / height rect))%Q).
  { apply Qmult_le_0_compat; [|exact Hs].
    apply (Qplus_le_l _ _ (top rect)). ring_simplify. exact Hlo. }
  assert (H255 : ((clientY e - top rect) * (255 / height rect) <= 255)%Q).
  { apply Qle_trans with (height rect * (255 / height rect))%Q.
    - apply Qmult_le_compat_r; [|exact Hs].
      apply (Qplus_le_l _ _ (top rect)). ring_simplify. exact Hhi.
    - assert (E : (height rect * (255 / height rect) == 255)%Q).
      { field. intros E. rewrite E in Hh. discriminate. }
      rewrite E. apply Qle_refl. }
  apply round_in_range; lra.
Qed.

Lemma boxed_set (s : CurveSettings) (ch : Channel) (pts : list Point) :
  boxed s -> Forall in_box pts -> boxed (set s ch pts).
Proof. exact (set_preserves (Forall in_box) s ch pts). Qed.

Lemma sort_by_x_Forall (P : Point -> Prop) (l : list Point) :
  Forall P l -> Forall P (sort_by_x l).
Proof.
  intros H. eapply Permutation_Forall; [symmetry; apply sort_by_x_perm | exact H].
Qed.

Lemma assign_Forall (P : Point -> Prop) (l np : list Point) (d : nat) (q : Point) :
  assign l d q = Some np -> Forall P l -> P q -> Forall P np.
Proof.
  revert d np. induction l as [|a l IH]; intros d np E Hl Hq.
  - destruct d; [|discriminate]. injection E as <-. constructor; [exact Hq | constructor].
  - inversion Hl as [|? ? Ha Hl']; subst. destruct d as [|d].
    + injection E as <-. constructor; assumption.
    + cbn [assign] in E. destruct (assign l d q) as [r|] eqn:Er; [|discriminate].
      injection E as <-. constructor; [exact Ha|]. exact (IH d r Er Hl' Hq).
Qed.

Lemma others_Forall {A : Type} (P : A -> Prop) (d : nat) (l : list A) :
  Forall P l -> Forall P (others d l).
Proof.
  intros H. unfold others. apply Forall_app. split.
  - rewrite <- (firstn_skipn d l) in H. apply Forall_app in H. apply H.
  - rewrite <- (firstn_skipn (S d) l) in H. apply Forall_app in H. apply H.
Qed.

(** X13.  Control points stay in the box.  With every point of every
    curve inside 0..255 in both coordinates, that is still so after a
    click with the pointer over the canvas, after any pointer move of a
    drag, wherever the pointer is, and after removing a point. *)
Theorem points_stay_in_box (ed : Editor) :
  boxed (settings ed) ->
  (forall e rect, inside_canvas e rect ->
     boxed (settings (handleCanvasClick e (Some rect) ed))) /\
  (forall e rect ed', handleGlobalMove e rect ed = Some ed' -> boxed (settings ed')) /\
  (forall i, boxed (settings (removePoint i ed))).
Proof.
  intros Hbox. split; [|split].
  - intros e rect (Hx & Hy). unfold handleCanvasClick.
    destruct (hoveredPoint ed); [exact Hbox|].
    cbn [settings commit onChange]. apply boxed_set; [exact Hbox|].
    apply sort_by_x_Forall, Forall_app. split; [apply Hbox|].
    constructor; [|constructor].
    split; [apply curve_x_in_range; exact Hx | apply curve_y_in_range; exact Hy].
  - intros e rect ed' E.
    destruct (handleGlobalMove_cases e rect ed ed' E)
      as [-> | (d & r & np & _ & _ & -> & [(_ & Ea) | (_ & p & Hp & Ea)])];
      [exact Hbox | |].
    + apply boxed_set; [exact Hbox|]. apply sort_by_x_Forall.
      apply (assign_Forall in_box _ _ _ _ Ea); [apply Hbox|].
      split; apply clamp255_in_range.
    + apply boxed_set; [exact Hbox|]. apply sort_by_x_Forall.
      apply (assign_Forall in_box _ _ _ _ Ea); [apply Hbox|].
      split; [|apply clamp255_in_range]. cbn [x].
      pose proof (Hbox (activeChannel ed)) as Hall. fold (points ed) in Hall.
      rewrite Forall_forall in Hall. apply (Hall p). eapply nth_error_In, Hp.
  - intros i. destruct (removePoint_cases i ed) as [-> | (_ & _ & ->)]; [exact Hbox|].
    apply boxed_set; [exact Hbox|]. apply others_Forall, Hbox.
Qed.

Lemma fresh_editor_boxed : boxed (settings fresh_editor).
Proof.
  intros ch. destruct ch; cbn; repeat constructor; cbn; lia.
Qed.

Lemma points_stay_in_box_witness :
  boxed (settings clicked_once) /\
  (forall ed', dragged_out = Some ed' -> boxed (settings ed')).
Proof.
  assert (H1 : boxed (settings clicked_once)).
  { apply (proj1 (points_stay_in_box fresh_editor fresh_editor_boxed)).
    unfold inside_canvas, over_canvas. cbn. repeat split; discriminate. }
  split; [exact H1|].
  intros ed' E.
  apply (proj1 (proj2 (points_stay_in_box grabbed H1))
           {| clientX := -40 # 1; clientY := 55 |} (Some canvas) ed' E).
Defined.

(** *** Where a handle is drawn *)

Lemma round_inject_Z (z : Z) : JS.round (inject_Z z) = z.
Proof.
  unfold JS.round.
  pose proof (Qfloor_le (inject_Z z + (1 # 2))) as Hle.
  pose proof (Qlt_floor (inject_Z z + (1 # 2))) as Hlt.
  set (f := Qfloor (inject_Z z + (1 # 2))) in *.
  rewrite inject_Z_plus in Hlt. change (inject_Z 1) with 1%Q in Hlt.
  apply Z.le_antisymm.
  - destruct (Z.le_gt_cases f z) as [H | H]; [exact H | exfalso].
    assert (Hq : (inject_Z (z + 1) <= inject_Z f)%Q) by (rewrite <- Zle_Qle; lia).
    rewrite inject_Z_plus in Hq. change (inject_Z 1) with 1%Q in Hq. lra.
  - destruct (Z.le_gt_cases z f) as [H | H]; [exact H | exfalso].
    assert (Hq : (inject_Z (f + 1) <= inject_Z z)%Q) by (rewrite <- Zle_Qle; lia).
    rewrite inject_Z_plus in Hq. change (inject_Z 1) with 1%Q in Hq. lra.
Qed.

(** X14.  A handle sits where its point is.  On a canvas of positive
    size, the centre of the handle drawn for a point, read back with the
    formula of a click, is that point: clicking the middle of a handle
    would give the coordinates the handle stands for. *)
Theorem handle_marks_its_point (p : Point) (rect : DOMRect) :
  (0 < width rect)%Q -> (0 < height rect)%Q ->
  curve_x (handle_centre p rect) rect = x p /\
  curve_y (handle_centre p rect) rect = y p.
Proof.
  intros Hw Hh.
  assert (Hw' : ~ (width rect == 0)%Q) by (intros E; rewrite E in Hw; discriminate).
  assert (Hh' : ~ (height rect == 0)%Q) by (intros E; rewrite E in Hh; discriminate).
  unfold curve_x, curve_y, handle_centre. cbn [clientX clientY]. split.
  - rewrite <- (round_inject_Z (x p)) at 2. unfold JS.round.
    apply Qfloor_comp. apply Qplus_comp; [|reflexivity]. field. exact Hw'.
  - rewrite <- (round_inject_Z (y p)) at 2. unfold JS.round.
    apply Qfloor_comp. apply Qplus_comp; [|reflexivity]. field. exact Hh'.
Qed.

Lemma handle_marks_its_point_witness :
  curve_x (handle_centre {| x := 128; y := 200 |}
             {| left := 10; top := 20; width := 300; height := 180 |})
          {| left := 10; top := 20; width := 300; height := 180 |} = 128 /\
  curve_y (handle_centre {| x := 128; y := 200 |}
             {| left := 10; top := 20; width := 300; height := 180 |})
          {| left := 10; top := 20; width := 300; height := 180 |} = 200.
Proof.
  apply (handle_marks_its_point {| x := 128; y := 200 |}
           {| left := 10; top := 20; width := 300; height := 180 |});
    reflexivity.
Defined.

End PointsOnCanvas.

(** ** What the AI service hands back *)

Section ServiceOutcomes.

Import Types Async GeminiService.

Lemma substring_whole (d : string) : String.substring 0 (String.length d) d = d.
Proof.
  induction d as [|c d IH]; [reflexivity|].
  cbn [String.length String.substring]. rewrite IH. reflexivity.
Qed.

Lemma prefix_own (pre d : string) : String.prefix pre (pre ++ d)%string = true.
Proof.
  induction pre as [|c pre IH]; [destruct d; reflexivity|].
  cbn [String.append String.prefix]. destruct (ascii_dec c c); [exact IH | contradiction].
Qed.

Lemma strip_own (pre d : string) : strip pre (pre ++ d)%string = Some d.
Proof.
  unfold strip. rewrite prefix_own. f_equal.
  induction pre as [|c pre IH].
  - cbn [String.append String.length]. rewrite Nat.sub_0_r. apply substring_whole.
  - cbn [String.append String.length String.substring Nat.sub]. exact IH.
Qed.

Lemma prefix_shorter (a b s : string) :
  String.prefix (a ++ b)%string s = true -> String.prefix a s = true.
Proof.
  revert s. induction a as [|c a IH]; intros s H; [destruct s; reflexivity|].
  destruct s as [|c' s]; [discriminate|].
  cbn [String.append String.prefix] in *.
  destruct (ascii_dec c c'); [apply IH; exact H | discriminate].
Qed.

Lemma strip_without (a b s : string) :
  String.prefix a s = false -> strip (a ++ b)%string s = None.
Proof.
  intros H. unfold strip.
  destruct (String.prefix (a ++ b) s) eqn:E; [|reflexivity].
  apply prefix_shorter in E. congruence.
Qed.

(** X15.  The cleaning of the image argument.  A data-URI header of one
    of the four image types png, jpeg, jpg and webp is cut off, so that
    the payload alone is sent to the model; a string that does not start
    with [data:image/] is sent as it is. *)
Theorem cleanBase64_strips_header :
  (forall mime d,
      In mime ["png"; "jpeg"; "jpg"; "webp"]%string ->
      cleanBase64 ("data:image/" ++ mime ++ ";base64," ++ d) = d) /\
  (forall s, String.prefix "data:image/" s = false -> cleanBase64 s = s).
Proof.
  split.
  - intros mime d [<- | [<- | [<- | [<- | []]]]]; unfold cleanBase64.
    + change ("data:image/" ++ "png" ++ ";base64," ++ d)%string
        with ("data:image/png;base64," ++ d)%string.
      rewrite strip_own. reflexivity.
    + change ("data:image/" ++ "jpeg" ++ ";base64," ++ d)%string
        with ("data:image/jpeg;base64," ++ d)%string.
      change (strip "data:image/png;base64," ("data:image/jpeg;base64," ++ d))
        with (@None string).
      rewrite strip_own. reflexivity.
    + change ("data:image/" ++ "jpg" ++ ";base64," ++ d)%string
        with ("data:image/jpg;base64," ++ d)%string.
      change (strip "data:image/png;base64," ("data:image/jpg;base64," ++ d))
        with (@None string).
      change (strip "data:image/jpeg;base64," ("data:image/jpg;base64," ++ d))
        with (@None string).
      rewrite strip_own. reflexivity.
    + change ("data:image/" ++ "webp" ++ ";base64," ++ d)%string
        with ("data:image/webp;base64," ++ d)%string.
      change (strip "data:image/png;base64," ("data:image/webp;base64," ++ d))
        with (@None string).
      change (strip "data:image/jpeg;base64," ("data:image/webp;base64," ++ d))
        with (@None string).
      change (strip "data:image/jpg;base64," ("data:image/webp;base64," ++ d))
        with (@None string).
      rewrite strip_own. reflexivity.
  - intros s H. unfold cleanBase64.
    pose proof (strip_without "data:image/" "png;base64," s H) as E1.
    pose proof (strip_without "data:image/" "jpeg;base64," s H) as E2.
    pose proof (strip_without "data:image/" "jpg;base64," s H) as E3.
    pose proof (strip_without "data:image/" "webp;base64," s H) as E4.
    cbn [String.append] in E1, E2, E3, E4.
    rewrite E1, E2, E3, E4. reflexivity.
Qed.

Lemma cleanBase64_strips_header_witness :
  cleanBase64 "data:image/webp;base64,UklGRg" = "UklGRg"%string /\
  cleanBase64 "iVBORw0KGgo" = "iVBORw0KGgo"%string.
Proof.
  split.
  - apply (proj1 cleanBase64_strips_header "webp"%string "UklGRg"%string).
    right. right. right. left. reflexivity.
  - apply (proj2 cleanBase64_strips_header). reflexivity.
Defined.

(** A data URI of a PNG with a payload, which the cleaning step takes
    apart again. *)
Definition image_uri (uri : string) : Prop :=
  exists data, data <> EmptyString /\
               uri = ("data:image/png;base64," ++ data)%string /\
               cleanBase64 uri = data.

(** How a call of [processBackground] may settle. *)
Definition settled_well (out : Result string) : Prop :=
  match out with
  | Resolved uri => image_uri uri
  | Rejected e => exists m, message e = Some m /\ m <> EmptyString
  end.

Lemma first_image_payload (parts : list Part) (data : string) :
  first_image parts = Some data -> data <> EmptyString.
Proof.
  induction parts as [|part rest IH]; [discriminate|].
  cbn [first_image]. destruct (inlineData part) as [[|c d]|]; try exact IH.
  intros [= <-]. discriminate.
Qed.

Lemma attempt_resolved (r : Result Response) (uri : string) :
  attempt r = Resolved uri -> image_uri uri.
Proof.
  unfold attempt. destruct r as [response | error]; [|discriminate].
  destruct (candidates response) as [[|first others]|]; try discriminate.
  destruct (first_image first) as [data|] eqn:E; [|discriminate].
  intros [= <-]. exists data. split; [exact (first_image_payload _ _ E)|].
  split; [reflexivity|].
  change (cleanBase64 ("data:image/png;base64," ++ data) = data).
  unfold cleanBase64. rewrite strip_own. reflexivity.
Qed.

Lemma or_else_given (a : option string) (b : string) :
  b <> EmptyString -> JS.or_else a b <> EmptyString.
Proof. intros Hb. destruct a as [[|c r]|]; cbn; try exact Hb. discriminate. Qed.

Lemma settled_well_fuel (imageBase64 : string) (color : BackgroundColor)
      (clothing : ClothingOption) (fuel : nat) :
  forall (retryCount : nat) (w w' : World) (out : Result string),
    run (processBackground_fuel fuel imageBase64 color clothing retryCount) w
      = Some (out, w') ->
    settled_well out.
Proof.
  induction fuel as [|fuel IH]; intros rc w w' out Hrun; [discriminate|].
  cbn [processBackground_fuel run answer] in Hrun.
  destruct (generations w) as [|r rest]; [discriminate|].
  destruct (attempt r) as [uri | error] eqn:Ea.
  - injection Hrun as <- _. exact (attempt_resolved r uri Ea).
  - destruct (rate_limited error && (rc <? MAX_RETRIES)%nat).
    + cbn [run answer] in Hrun. exact (IH _ _ _ _ Hrun).
    + injection Hrun as <- _. cbn [settled_well message]. eexists.
      split; [reflexivity|]. apply or_else_given. discriminate.
Qed.

(** X16.  What [processBackground] hands back.  However the model
    answers and however often the call is retried, a call that resolves
    gives a PNG data URI with a payload, one that the cleaning step of a
    later call would strip back to that payload; and a call that rejects
    gives an error with a message that is not empty. *)
Theorem processBackground_outcomes (imageBase64 : string) (color : BackgroundColor)
        (clothing : ClothingOption) (w w' : World) (out : Result string) :
  run (processBackground imageBase64 color clothing 0) w = Some (out, w') ->
  match out with
  | Resolved uri =>
      exists data, data <> EmptyString /\
                   uri = ("data:image/png;base64," ++ data)%string /\
                   cleanBase64 uri = data
  | Rejected e => exists m, message e = Some m /\ m <> EmptyString
  end.
Proof.
  intros Hrun. exact (settled_well_fuel _ _ _ _ _ _ _ _ Hrun).
Qed.

(** The model is busy once and then sends an image. *)
Definition busy_once : World :=
  {| gradings := []; sheets := []; log := [];
     generations :=
       [ Rejected {| message := Some "got status: 429 Too Many Requests"%string |};
         Resolved {| candidates := Some [[ {| inlineData := None |};
                                           {| inlineData := Some "iVBORw0KGgo"%string |} ]] |} ] |}.

Lemma processBackground_outcomes_witness :
  exists data,
    data <> EmptyString /\
    cleanBase64 "data:image/png;base64,iVBORw0KGgo" = data.
Proof.
  assert (Hrun : exists w',
             run (processBackground "data:image/jpeg;base64,AAAA" BLUE MALE_SHIRT 0) busy_once
             = Some (Resolved "data:image/png;base64,iVBORw0KGgo"%string, w'))
    by (eexists; reflexivity).
  destruct Hrun as (w' & Hrun).
  destruct (processBackground_outcomes _ _ _ _ _ _ Hrun) as (data & Hne & _ & Hclean).
  exists data. split; [exact Hne | exact Hclean].
Defined.

End ServiceOutcomes.

(** ** Every run of the generate pipeline *)

Section PipelineOutcomes.

Import Types Async Pipeline.

Lemma total_bind {A B : Type} (p : Prog A) (f : A -> Prog B) :
  total p -> (forall a, total (f a)) -> total (Async.bind p f).
Proof.
  intros Hp Hf. induction p as [a | c k IH |]; cbn [Async.bind total] in *.
  - apply Hf.
  - intros x. apply IH, Hp.
  - contradiction.
Qed.

(** The calls of a run, newest first, end with the composition of the
    sheet from [photo]. *)
Definition sheet_made_from (photo : string) (w : World) : Prop :=
  hd_error (log w) = Some (GeneratePassportSheet photo).

(** How the [try] block can end: with the sheet set; with an error
    before anything was set; or with an error of the sheet generation,
    the processed image set already. *)
Lemma try_block_outcome (cropped : string) (curves : CurveAdjustment.CurveSettings)
      (color : BackgroundColor) (clothing : ClothingOption)
      (app : App) (w w1 : World) (out : App * Result unit) :
  run (try_block cropped curves color clothing app) w = Some (out, w1) ->
  (exists photo sheet,
      out = (setState PREVIEW
               (setFinalSheet (Some sheet) (setProcessedImage (Some photo) app)),
             Resolved tt) /\
      sheet_made_from photo w1) \/
  (exists e, out = (app, Rejected e)) \/
  (exists photo e, out = (setProcessedImage (Some photo) app, Rejected e)).
Proof.
  intros Hrun.
  assert (Hsheet : forall photo w0,
             run (Async.bind (Await (GeneratePassportSheet photo) Ret)
                    (fun r : Result string =>
                       match r with
                       | Resolved sheet =>
                           Ret (setState PREVIEW
                                  (setFinalSheet (Some sheet)
                                     (setProcessedImage (Some photo) app)),
                                Resolved tt)
                       | Rejected e =>
                           Ret (setProcessedImage (Some photo) app, @Rejected unit e)
                       end)) w0 = Some (out, w1) ->
             (exists sheet,
                 out = (setState PREVIEW
                          (setFinalSheet (Some sheet) (setProcessedImage (Some photo) app)),
                        Resolved tt) /\
                 sheet_made_from photo w1) \/
             (exists e, out = (setProcessedImage (Some photo) app, Rejected e))).
  { intros photo w0 H. cbn [Async.bind run answer] in H.
    destruct (sheets w0) as [|[sheet | e] ss]; [discriminate | |].
    - injection H as <- <-. left. exists sheet. split; reflexivity.
    - injection H as <- <-. right. exists e. reflexivity. }
  unfold try_block, Pipeline.bind, awaiting, await, update, ret in Hrun.
  cbn [Async.bind run answer] in Hrun.
  destruct (gradings w) as [|[enhanced | e] gs]; [discriminate | |].
  - cbn [snd fst] in Hrun.
    destruct (needsAI color clothing).
    + apply run_bind_Some in Hrun. destruct Hrun as ([app1 r1] & w2 & Hai & Hrest).
      apply run_bind_Some in Hai. destruct Hai as (r & w3 & Hai & Hret).
      cbn [run] in Hret. injection Hret as <- <- <-.
      destruct r as [photo | e]; cbn [snd fst Async.bind run answer] in Hrest.
      * destruct (sheets w3) as [|[sheet | e] ss]; [discriminate | |].
        -- injection Hrest as <- <-. left. exists photo, sheet. split; reflexivity.
        -- injection Hrest as <- <-. right. right. exists photo, e. reflexivity.
      * injection Hrest as <- _. right. left. exists e. reflexivity.
    + cbn [snd fst Async.bind run answer gradings generations sheets log] in Hrun.
      destruct (sheets w) as [|[sheet | e] ss]; [discriminate | |].
      * injection Hrun as <- <-. left. exists enhanced, sheet. split; reflexivity.
      * injection Hrun as <- <-. right. right. exists enhanced, e. reflexivity.
  - cbn [snd fst run] in Hrun. injection Hrun as <- _. right. left. exists e. reflexivity.
Qed.

(** How the [catch] block can end: with the fallback sheet and the
    warning, or with the state as it was and "Total failure". *)
Lemma catch_block_outcome (cropped : string) (curves : CurveAdjustment.CurveSettings)
      (err : Error) (app : App) (w w1 : World) (out : App * Result unit) :
  run (catch_block cropped curves err app) w = Some (out, w1) ->
  (exists photo sheet,
      out = (setError (Some (warning err))
               (setState PREVIEW
                  (setProcessedImage (Some photo) (setFinalSheet (Some sheet) app))),
             Resolved tt) /\
      sheet_made_from photo w1) \/
  out = (setError (Some (fatal err)) app, Resolved tt).
Proof.
  intros Hrun.
  unfold catch_block, try_catch, Pipeline.bind, awaiting, await, update in Hrun.
  cbn [Async.bind run answer] in Hrun.
  destruct (gradings w) as [|[photo | e] gs]; [discriminate | |].
  - cbn [snd fst Async.bind run answer gradings generations sheets log] in Hrun.
    destruct (sheets w) as [|[sheet | e] ss]; [discriminate | |].
    + injection Hrun as <- <-. left. exists photo, sheet. split; reflexivity.
    + injection Hrun as <- _. right. reflexivity.
  - cbn [snd fst run] in Hrun. injection Hrun as <- _. right. reflexivity.
Qed.

(** *** Termination *)

(** A task that never runs out of fuel, whatever state it starts in. *)
Definition total_task {A : Type} (t : Task A) : Prop := forall app, total (t app).

Lemma total_ret {A : Type} (a : A) : total_task (ret a).
Proof. intros app. exact I. Qed.

Lemma total_update (f : App -> App) : total_task (update f).
Proof. intros app. exact I. Qed.

Lemma total_awaiting {A : Type} (p : Prog (Result A)) : total p -> total_task (awaiting p).
Proof. intros Hp app. apply total_bind; [exact Hp|]. intros r. exact I. Qed.

Lemma total_await (c : Call) : total (await c).
Proof. intros x. exact I. Qed.

Lemma total_task_bind {A B : Type} (t : Task A) (f : A -> Task B) :
  total_task t -> (forall a, total_task (f a)) -> total_task (Pipeline.bind t f).
Proof.
  intros Ht Hf app. apply total_bind; [apply Ht|].
  intros [app' [a | e]]; cbn [snd fst]; [apply Hf | exact I].
Qed.

Lemma total_try_catch {A : Type} (body : Task A) (handler : Error -> Task A) :
  total_task body -> (forall e, total_task (handler e)) -> total_task (try_catch body handler).
Proof.
  intros Hb Hh app. apply total_bind; [apply Hb|].
  intros [app' [a | e]]; cbn [snd fst]; [exact I | apply Hh].
Qed.

Lemma total_finally {A : Type} (body : Task A) (cleanup : App -> App) :
  total_task body -> total_task (finally body cleanup).
Proof. intros Hb app. apply total_bind; [apply Hb|]. intros r. exact I. Qed.

(** Sequences of updates and awaited calls. *)
Ltac task_total :=
  repeat first
    [ apply total_ret
    | apply total_update
    | apply total_awaiting, total_await
    | apply total_task_bind; [|intros ?] ].

Lemma try_block_total (cropped : string) (curves : CurveAdjustment.CurveSettings)
      (color : BackgroundColor) (clothing : ClothingOption) :
  total_task (try_block cropped curves color clothing).
Proof.
  unfold try_block.
  apply total_task_bind; [task_total|]. intros enhanced.
  apply total_task_bind; [|intros finalPhoto; task_total].
  destruct (needsAI color clothing); [|task_total].
  apply total_awaiting, processBackground_total.
Qed.

Lemma catch_block_total (cropped : string) (curves : CurveAdjustment.CurveSettings)
      (err : Error) :
  total_task (catch_block cropped curves err).
Proof.
  unfold catch_block. apply total_try_catch; [|intros e]; task_total.
Qed.

Lemma handleProcess_total (app : App) : total (handleProcess app).
Proof.
  unfold handleProcess.
  destruct (JS.truthy (croppedImage app)) as [cropped|]; [|exact I].
  apply total_task_bind; [task_total|]. intros _.
  apply total_task_bind; [task_total|]. intros _.
  apply total_finally, total_try_catch; [apply try_block_total|].
  intros e. apply catch_block_total.
Qed.

(** *** The outcome *)

(** X17.  Every run of [handleProcess] ends well.  The function never
    runs out of steps and never throws.  Without a cropped image it does
    nothing at all.  With one, whatever the three services answer, it
    ends with the busy flag off and the inputs (cropped image, colour,
    clothing, curves) as they were, in one of two ways: on the PREVIEW
    screen, with a sheet that was composed from the very photo now held
    as the processed image, and with no error or the warning "AI
    enhancement failed"; or on the screen it started from, the sheet
    untouched, with the error "Total failure". *)
Theorem handleProcess_outcomes (app : App) :
  total (handleProcess app) /\
  (forall w, JS.truthy (croppedImage app) = None ->
             run (handleProcess app) w = Some ((app, Resolved tt), w)) /\
  (forall cropped w w' app' r,
      JS.truthy (croppedImage app) = Some cropped ->
      run (handleProcess app) w = Some ((app', r), w') ->
      r = Resolved tt /\
      isProcessing app' = false /\
      croppedImage app' = croppedImage app /\
      selectedColor app' = selectedColor app /\
      selectedClothing app' = selectedClothing app /\
      curveSettings app' = curveSettings app /\
      ((state app' = PREVIEW /\
        (exists photo sheet,
            processedImage app' = Some photo /\
            finalSheet app' = Some sheet /\
            sheet_made_from photo w') /\
        (error app' = None \/ exists err, error app' = Some (warning err))) \/
       (state app' = state app /\
        finalSheet app' = finalSheet app /\
        exists err, error app' = Some (fatal err)))).
Proof.
  split; [apply handleProcess_total|]. split.
  - intros w Hc. unfold handleProcess. rewrite Hc. reflexivity.
  - intros cropped w w' app' r Hc Hrun.
    rewrite (handleProcess_unfold app cropped Hc) in Hrun.
    apply run_bind_Some in Hrun. destruct Hrun as ([app2 r2] & w2 & Hrun & Hfin).
    cbn [run fst snd] in Hfin. injection Hfin as <- <- <-.
    apply run_bind_Some in Hrun. destruct Hrun as ([app1 r1] & w1 & Htry & Hcatch).
    apply try_block_outcome in Htry.
    destruct Htry as [(photo & sheet & [= -> ->] & Hlog)
                     | [(e & [= -> ->]) | (photo & e & [= -> ->])]];
      cbn [snd fst run] in Hcatch.
    + injection Hcatch as <- <- <-.
      repeat (split; [reflexivity|]).
      left. split; [reflexivity|]. split; [|left; reflexivity].
      exists photo, sheet. split; [reflexivity|]. split; [reflexivity | exact Hlog].
    + apply catch_block_outcome in Hcatch.
      destruct Hcatch as [(photo & sheet & [= -> ->] & Hlog) | [= -> ->]].
      * repeat (split; [reflexivity|]).
        left. split; [reflexivity|]. split; [|right; exists e; reflexivity].
        exists photo, sheet. split; [reflexivity|]. split; [reflexivity | exact Hlog].
      * repeat (split; [reflexivity|]).
        right. split; [reflexivity|]. split; [reflexivity|]. exists e. reflexivity.
    + apply catch_block_outcome in Hcatch.
      destruct Hcatch as [(photo' & sheet & [= -> ->] & Hlog) | [= -> ->]].
      * repeat (split; [reflexivity|]).
        left. split; [reflexivity|]. split; [|right; exists e; reflexivity].
        exists photo', sheet. split; [reflexivity|]. split; [reflexivity | exact Hlog].
      * repeat (split; [reflexivity|]).
        right. split; [reflexivity|]. split; [reflexivity|]. exists e. reflexivity.
Qed.

(** The sheet generation fails once and works the second time. *)
Definition sheet_retry : World :=
  {| gradings := [Resolved "GRADED"%string; Resolved "AGAIN"%string];
     generations := [];
     sheets := [Rejected {| message := Some "canvas"%string |}; Resolved "SHEET"%string];
     log := [] |}.

Definition cropped_app : App :=
  {| state := PROCESS;
     croppedImage := Some "data:image/png;base64,CROP"%string;
     processedImage := None; finalSheet := None;
     selectedColor := ORIGINAL; selectedClothing := NONE;
     curveSettings := CurveAdjustment.DEFAULT_CURVES;
     isProcessing := false; error := None |}.

Lemma handleProcess_outcomes_witness :
  exists app' w',
    run (handleProcess cropped_app) sheet_retry = Some ((app', Resolved tt), w') /\
    isProcessing app' = false /\
    state app' = PREVIEW /\
    processedImage app' = Some "AGAIN"%string /\
    sheet_made_from "AGAIN" w'.
Proof.
  assert (Hrun : exists app' w',
             run (handleProcess cropped_app) sheet_retry = Some ((app', Resolved tt), w') /\
             state app' = PREVIEW /\ processedImage app' = Some "AGAIN"%string /\
             sheet_made_from "AGAIN" w')
    by (eexists; eexists; split; [reflexivity|]; repeat split).
  destruct Hrun as (app' & w' & Hrun & Hstate & Hphoto & Hlog).
  destruct (proj2 (proj2 (handleProcess_outcomes cropped_app))
              "data:image/png;base64,CROP"%string sheet_retry w' app' (Resolved tt)
              eq_refl Hrun) as (_ & Hbusy & _).
  exists app', w'. auto.
Defined.

End PipelineOutcomes.

(** ** The debounce of the live preview *)

Section PreviewDebounce.

Import Types Async Preview.

(** The state with new curve settings, before the effect re-runs. *)
Definition edited (settings : CurveAdjustment.CurveSettings) (s : State) : State :=
  {| state := state s; croppedImage := croppedImage s;
     isAuthenticated := isAuthenticated s; curveSettings := settings;
     gradedPreview := gradedPreview s;
     previewUpdateTimeout := previewUpdateTimeout s;
     cleanup := cleanup s; timers := timers s; nextId := nextId s;
     inflight := inflight s; shown := shown s |}.

(** One edit on the PROCESS screen leaves exactly the timer of that
    edit. *)
Lemma edit_rearms (settings : CurveAdjustment.CurveSettings) (s : State) (c : string) :
  armed s -> state s = PROCESS -> isAuthenticated s = true ->
  JS.truthy (croppedImage s) = Some c ->
  timers (step s (Edit settings))
  = [ {| id := nextId s; job := {| image := c; curves := settings |} |} ] /\
  nextId (step s (Edit settings)) = S (nextId s) /\
  inflight (step s (Edit settings)) = inflight s /\
  gradedPreview (step s (Edit settings)) = gradedPreview s /\
  state (step s (Edit settings)) = PROCESS /\
  isAuthenticated (step s (Edit settings)) = true /\
  croppedImage (step s (Edit settings)) = croppedImage s.
Proof.
  intros Ha Hst Hauth Hc. cbn [step]. fold (edited settings s).
  assert (Ha1 : armed (edited settings s)) by exact Ha.
  pose proof (clear_current_armed _ Ha1) as Hclear.
  unfold effect. rewrite Hclear.
  cbn [state croppedImage isAuthenticated edited]. rewrite Hst, Hc, Hauth.
  cbn [timers nextId inflight gradedPreview state isAuthenticated croppedImage
       curveSettings previewUpdateTimeout edited].
  rewrite clear_current_nil. cbn [app]. repeat split; assumption.
Qed.

(** The armed timer fires: its call starts and nothing stays armed. *)
Lemma fires_only_timer (s : State) (t : Timer) :
  timers s = [t] ->
  inflight (step s (Fires (id t))) = inflight s ++ [job t] /\
  timers (step s (Fires (id t))) = [].
Proof.
  intros Ht. cbn [step]. rewrite Ht. cbn [find]. rewrite Nat.eqb_refl.
  cbn [inflight timers]. split; [reflexivity | apply clearTimeout_own].
Qed.

(** X18.  The debounce.  On the PROCESS screen, signed in and with a
    cropped image, a burst of edits with no timer firing in between
    leaves exactly one timer armed, for the cropped image and the
    settings of the last edit.  No recomputation was started for the
    edits before it, and the preview on screen has not changed; when the
    timer fires, the one call it starts is for the last settings. *)
Theorem burst_of_edits_arms_one_timer
        (burst : list CurveAdjustment.CurveSettings) (final : CurveAdjustment.CurveSettings)
        (s : State) (c : string) :
  armed s -> state s = PROCESS -> isAuthenticated s = true ->
  JS.truthy (croppedImage s) = Some c ->
  let s' := steps s (map Edit (burst ++ [final])) in
  (exists i, timers s' = [ {| id := i; job := {| image := c; curves := final |} |} ] /\
             inflight (step s' (Fires i))
             = inflight s ++ [ {| image := c; curves := final |} ] /\
             timers (step s' (Fires i)) = []) /\
  inflight s' = inflight s /\
  gradedPreview s' = gradedPreview s.
Proof.
  revert s. induction burst as [|settings burst IH]; intros s Ha Hst Hauth Hc; cbn zeta.
  - cbn [app map steps fold_left].
    destruct (edit_rearms final s c Ha Hst Hauth Hc) as (Ht & _ & Hi & Hg & _).
    split; [|split; assumption].
    exists (nextId s). split; [exact Ht|].
    destruct (fires_only_timer _ _ Ht) as (Hf & Hnone). cbn [id job] in Hf, Hnone.
    rewrite Hf, Hi. split; [reflexivity | exact Hnone].
  - cbn [app map steps fold_left].
    destruct (edit_rearms settings s c Ha Hst Hauth Hc)
      as (_ & _ & Hi & Hg & Hst' & Hauth' & Hc').
    assert (Ha' : armed (step s (Edit settings))) by (apply step_armed, Ha).
    assert (Hc2 : JS.truthy (croppedImage (step s (Edit settings))) = Some c)
      by (rewrite Hc'; exact Hc).
    specialize (IH (step s (Edit settings)) Ha' Hst' Hauth' Hc2).
    cbn zeta in IH. unfold steps in IH.
    rewrite Hi, Hg in IH. exact IH.
Qed.

Lemma burst_of_edits_arms_one_timer_witness :
  timers (steps (step start (CropComplete "CROP"))
            (map Edit [shade 10; shade 20; shade 30]))
  = [ {| id := 4; job := {| image := "CROP"; curves := shade 30 |} |} ] /\
  inflight (steps (step start (CropComplete "CROP"))
              (map Edit [shade 10; shade 20; shade 30])) = [].
Proof.
  destruct (burst_of_edits_arms_one_timer [shade 10; shade 20] (shade 30)
              (step start (CropComplete "CROP")) "CROP"%string)
    as (_ & Hi & _).
  - apply step_armed, start_armed.
  - reflexivity.
  - reflexivity.
  - reflexivity.
  - split; [reflexivity | exact Hi].
Defined.

(** *** The pending timer is never stale *)

(** Every armed timer is for the values of the latest render, and the
    application is on the PROCESS screen. *)
Definition pending_current (s : State) : Prop :=
  forall t, In t (timers s) -> state s = PROCESS /\ current s = Some (job t).

Lemma effect_pending (s : State) : armed s -> pending_current (effect s).
Proof.
  intros Ha t Hin.
  destruct (effect_keeps s) as (Est & Ec & _ & Ecs & _).
  destruct (effect_timers s Ha) as [(Hnone & _) | (c & Hst & Hc & _ & Ht & _)].
  - rewrite Hnone in Hin. contradiction.
  - rewrite Ht in Hin. destruct Hin as [<- | []].
    split; [rewrite Est; exact Hst|].
    unfold current. rewrite Ec, Ecs, Hc. reflexivity.
Qed.

Lemma step_pending (s : State) (e : Event) :
  armed s -> pending_current s -> pending_current (step s e).
Proof.
  intros Ha Hp. destruct e as [settings | cropped | st | i | n r]; cbn [step].
  - apply effect_pending. exact Ha.
  - destruct (AppState_eqb (state s) PROCESS) eqn:Est; cbn [andb];
      [|apply effect_pending; exact Ha].
    destruct (croppedImage s) as [c|] eqn:Ec; [|apply effect_pending; exact Ha].
    destruct (String.eqb_spec c cropped) as [-> | Hne]; [|apply effect_pending; exact Ha].
    intros t Hin. cbn [timers] in Hin. destruct (Hp t Hin) as (Hst & Hcur).
    split; [reflexivity|].
    unfold current in *. cbn [croppedImage curveSettings]. rewrite Ec in Hcur. exact Hcur.
  - destruct (AppState_eqb (state s) st); [exact Hp|].
    apply effect_pending. exact Ha.
  - destruct (find _ (timers s)); [|exact Hp].
    intros t' Hin. cbn [timers] in Hin. unfold clearTimeout in Hin.
    apply filter_In in Hin. destruct Hin as [Hin _]. exact (Hp t' Hin).
  - destruct (nth_error (inflight s) n); exact Hp.
Qed.

Lemma steps_pending (es : list Event) :
  forall s, armed s -> pending_current s -> pending_current (steps s es).
Proof.
  induction es as [|e es IH]; intros s Ha Hp; [exact Hp|].
  cbn [steps fold_left]. apply IH; [apply step_armed | apply step_pending]; assumption.
Qed.

Lemma navigate_state (s : State) (st : AppState) : state (step s (Navigate st)) = st.
Proof.
  cbn [step]. destruct (AppState_eqb (state s) st) eqn:E.
  - destruct (state s), st; try discriminate; reflexivity.
  - apply effect_keeps.
Qed.

(** X19.  The pending recomputation is never stale.  Whatever happens
    from the start of the application on (crops, edits, changes of
    screen, timers firing, calls settling in any order), a timer that is
    armed belongs to the PROCESS screen and will compute the preview of
    the current cropped image with the current curve settings.  Leaving
    the PROCESS screen cancels the timer. *)
Theorem pending_timer_is_current (es : list Event) :
  (forall t, In t (timers (steps start es)) ->
             state (steps start es) = PROCESS /\
             current (steps start es) = Some (job t)) /\
  (forall st, st <> PROCESS -> timers (step (steps start es) (Navigate st)) = []).
Proof.
  assert (Hp : forall es', pending_current (steps start es')).
  { intros es'. apply steps_pending; [exact start_armed|]. intros t []. }
  split; [exact (Hp es)|].
  intros st Hne.
  destruct (timers (step (steps start es) (Navigate st))) as [|t ts] eqn:Et; [reflexivity|].
  exfalso. apply Hne. rewrite <- (navigate_state (steps start es) st).
  specialize (Hp (es ++ [Navigate st])). unfold steps in Hp.
  rewrite fold_left_app in Hp. cbn [fold_left] in Hp.
  apply (Hp t). fold (steps start es). rewrite Et. left. reflexivity.
Qed.

Lemma pending_timer_is_current_witness :
  current (steps start [CropComplete "CROP"; Fires 1; Edit (shade 40)])
  = Some {| image := "CROP"; curves := shade 40 |} /\
  timers (steps start [CropComplete "CROP"; Fires 1; Edit (shade 40); Navigate CROP]) = [].
Proof.
  split.
  - apply (proj1 (pending_timer_is_current
                    [CropComplete "CROP"; Fires 1; Edit (shade 40)])
             {| id := 2; job := {| image := "CROP"; curves := shade 40 |} |}).
    left. reflexivity.
  - apply (proj2 (pending_timer_is_current
                    [CropComplete "CROP"; Fires 1; Edit (shade 40)]) CROP).
    discriminate.
Defined.

End PreviewDebounce.

(** ** Sign-in, reset and the screens *)

Section SignInAndScreens.

Import Types Async AppShell.

(** What a reload of the page shows: the state is back to its defaults
    and the session check has run on what is stored. *)
Definition reloaded (storage : Storage) : Auth := checkSession storage initial_auth.

Lemma credentials_accepted (a : Auth) :
  (String.eqb (loginEmail a) VALID_EMAIL && String.eqb (loginPassword a) VALID_PASS)%bool = true
  <-> loginEmail a = VALID_EMAIL /\ loginPassword a = VALID_PASS.
Proof.
  rewrite andb_true_iff, !String.eqb_eq. reflexivity.
Qed.

(** X20.  Sessions.  A sign-in is accepted exactly for the one pair of
    credentials.  An accepted sign-in shows the main screen and clears
    the error flag; with "stay signed in" ticked the main screen is also
    what a reload shows, and without it the stored session is left as it
    was.  A refused sign-in sets the error flag and changes neither the
    signed-in flag nor the storage.  After a logout the login screen is
    shown, at once and after a reload, and the work is reset to the
    upload panel. *)
Theorem session_lifecycle (a : Auth) (storage : Storage) :
  isAuthChecking a = false ->
  (loginEmail a = VALID_EMAIL -> loginPassword a = VALID_PASS ->
     screen (fst (handleLogin a storage)) = MainScreen /\
     loginError (fst (handleLogin a storage)) = false /\
     (staySignedIn a = true -> screen (reloaded (snd (handleLogin a storage))) = MainScreen) /\
     (staySignedIn a = false -> snd (handleLogin a storage) = storage)) /\
  (loginEmail a <> VALID_EMAIL \/ loginPassword a <> VALID_PASS ->
     isAuthenticated (fst (handleLogin a storage)) = isAuthenticated a /\
     loginError (fst (handleLogin a storage)) = true /\
     snd (handleLogin a storage) = storage) /\
  (forall w,
     screen (fst (fst (handleLogout a w storage))) = LoginScreen /\
     screen (reloaded (snd (handleLogout a w storage))) = LoginScreen /\
     panel (snd (fst (handleLogout a w storage))) = UploadPanel).
Proof.
  intros Hcheck. split; [|split].
  - intros He Hp. unfold handleLogin.
    rewrite (proj2 (credentials_accepted a) (conj He Hp)). cbn [fst snd].
    split; [unfold screen; cbn; rewrite Hcheck; reflexivity|].
    split; [reflexivity|]. split; intros ->; reflexivity.
  - intros Hbad. unfold handleLogin.
    destruct (String.eqb (loginEmail a) VALID_EMAIL && String.eqb (loginPassword a) VALID_PASS)%bool
      eqn:E.
    + apply credentials_accepted in E. destruct E as [He Hp].
      destruct Hbad as [Hbad | Hbad]; contradiction.
    + cbn [fst snd]. repeat split.
  - intros w. unfold handleLogout. cbn [fst snd].
    split; [unfold screen; cbn; rewrite Hcheck; reflexivity|].
    split; reflexivity.
Qed.

(** The form filled in with the right credentials and the box ticked. *)
Definition filled_in : Auth :=
  {| isAuthenticated := false;
     loginEmail := "artcentrelive@gmail.com"; loginPassword := "gpcentre.art";
     staySignedIn := true; showPassword := false; loginError := true;
     isAuthChecking := false |}.

Lemma session_lifecycle_witness :
  screen (fst (handleLogin filled_in None)) = MainScreen /\
  screen (reloaded (snd (handleLogin filled_in None))) = MainScreen /\
  screen (reloaded (snd (handleLogout (fst (handleLogin filled_in None)) initial_work
                          (snd (handleLogin filled_in None))))) = LoginScreen.
Proof.
  destruct (session_lifecycle filled_in None eq_refl) as (Hok & _ & _).
  destruct (Hok eq_refl eq_refl) as (Hmain & _ & Hstay & _).
  split; [exact Hmain|]. split; [exact (Hstay eq_refl)|].
  apply (session_lifecycle (fst (handleLogin filled_in None))
           (snd (handleLogin filled_in None)) eq_refl).
Defined.

(** X21.  From the upload to the process panel.  After an image was
    chosen the cropper is shown on the preview made of it, or on the
    image itself if no preview could be made.  After the crop the process
    panel is shown for the cropped image, the preview on screen is that
    image, and [handleProcess] has what it needs to start.  After a
    reset the upload panel is shown, and [handleProcess] would do
    nothing. *)
Theorem panels_follow_the_work (w : Work) :
  (forall base64 preview,
      base64 <> EmptyString -> preview <> EmptyString ->
      panel (handleImageSelected base64 (Resolved preview) w) = CropPanel preview /\
      (forall e, panel (handleImageSelected base64 (Rejected e) w) = CropPanel base64)) /\
  (forall cropped,
      cropped <> EmptyString ->
      panel (handleCropComplete cropped w) = ProcessPanel cropped /\
      gradedPreview (handleCropComplete cropped w) = Some cropped /\
      JS.truthy (Pipeline.croppedImage (pipeline_view (handleCropComplete cropped w)))
        = Some cropped) /\
  (panel (handleReset w) = UploadPanel /\
   forall world,
     run (Pipeline.handleProcess (pipeline_view (handleReset w))) world
     = Some ((pipeline_view (handleReset w), Resolved tt), world)).
Proof.
  split; [|split].
  - intros base64 preview Hb Hp.
    destruct base64 as [|c1 r1]; [contradiction|].
    destruct preview as [|c2 r2]; [contradiction|].
    split; [reflexivity|]. intros e. reflexivity.
  - intros cropped Hc. destruct cropped as [|c r]; [contradiction|].
    repeat split.
  - split; [reflexivity|]. intros world. reflexivity.
Qed.

Lemma panels_follow_the_work_witness :
  panel (handleCropComplete "CROP"
           (handleImageSelected "PHOTO" (Rejected {| message := None |}) initial_work))
  = ProcessPanel "CROP".
Proof.
  apply (proj1 (proj2 (panels_follow_the_work
                         (handleImageSelected "PHOTO" (Rejected {| message := None |})
                            initial_work)))).
  discriminate.
Defined.

End SignInAndScreens.

(** ** Where the auto-framed crop window lies *)

Section AutoFrameWindow.

Import Cropper.
Local Open Scope Q_scope.

Lemma div_le_iff (a c z : Q) : 0 < z -> (a / z <= c <-> a <= c * z).
Proof.
  intros Hz. split; intros H.
  - assert (E : a == a / z * z) by (field; intros E; rewrite E in Hz; discriminate).
    rewrite E. apply Qmult_le_compat_r; [exact H | apply Qlt_le_weak, Hz].
  - apply Qle_shift_div_r; assumption.
Qed.

(** The zoom chosen by [setupAutoCrop] is at least the width ratio of
    box and image, unless the cap of 4 is below it. *)
Lemma auto_zoom_covers_width (img : Image) (v : Viewport) :
  0 < naturalWidth img -> CROP_BOX_WIDTH / 4 <= naturalWidth img ->
  CROP_BOX_WIDTH <= naturalWidth img * zoom (setupAutoCrop img v).
Proof.
  intros Hw Hcap. unfold setupAutoCrop. cbn [zoom].
  set (wz := CROP_BOX_WIDTH / naturalWidth img * (28 # 10)).
  set (hz := CROP_BOX_HEIGHT / naturalHeight img * (15 # 10)).
  assert (Ew : naturalWidth img * wz == CROP_BOX_WIDTH * (28 # 10)).
  { unfold wz. field. intros E. rewrite E in Hw. discriminate. }
  assert (Hbw : 0 < CROP_BOX_WIDTH) by reflexivity.
  apply (proj1 (div_le_iff _ _ 4 eq_refl)) in Hcap.
  destruct (Q.min_spec (Qmax wz hz) 4) as [(_ & ->) | (_ & ->)]; [|exact Hcap].
  apply Qle_trans with (naturalWidth img * wz).
  - rewrite Ew. lra.
  - rewrite !(Qmult_comm (naturalWidth img)).
    apply Qmult_le_compat_r; [apply Q.le_max_l | apply Qlt_le_weak, Hw].
Qed.

Lemma auto_zoom_covers_height (img : Image) (v : Viewport) :
  0 < naturalHeight img -> CROP_BOX_HEIGHT / 4 <= naturalHeight img ->
  CROP_BOX_HEIGHT <= naturalHeight img * zoom (setupAutoCrop img v).
Proof.
  intros Hh Hcap. unfold setupAutoCrop. cbn [zoom].
  set (wz := CROP_BOX_WIDTH / naturalWidth img * (28 # 10)).
  set (hz := CROP_BOX_HEIGHT / naturalHeight img * (15 # 10)).
  assert (Eh : naturalHeight img * hz == CROP_BOX_HEIGHT * (15 # 10)).
  { unfold hz. field. intros E. rewrite E in Hh. discriminate. }
  assert (Hbh : 0 < CROP_BOX_HEIGHT) by reflexivity.
  apply (proj1 (div_le_iff _ _ 4 eq_refl)) in Hcap.
  destruct (Q.min_spec (Qmax wz hz) 4) as [(_ & ->) | (_ & ->)]; [|exact Hcap].
  apply Qle_trans with (naturalHeight img * hz).
  - rewrite Eh. lra.
  - rewrite !(Qmult_comm (naturalHeight img)).
    apply Qmult_le_compat_r; [apply Q.le_max_r | apply Qlt_le_weak, Hh].
Qed.

(** X22.  The crop window right after the auto-frame.  For an image at
    least a quarter of the crop box in each direction (82 by 105
    pixels), cropping without touching the controls takes a window that
    lies inside the picture from left to right and starts inside it at
    the top.  Its lower edge is inside the picture exactly when the zoom
    is at least 1.5625 times the height ratio of box and image; when the
    height heuristic decides the zoom (wide pictures), the window ends
    one 75th of the picture's height below the picture. *)
Theorem auto_frame_window (img : Image) (container : Container) (v : Viewport) :
  0 < naturalWidth img -> 0 < naturalHeight img ->
  CROP_BOX_WIDTH / 4 <= naturalWidth img ->
  CROP_BOX_HEIGHT / 4 <= naturalHeight img ->
  let v' := setupAutoCrop img v in
  exists r,
    handleCrop (Some img) (Some container) v' = Some (r, rotation v) /\
    0 <= x r /\ x r + width r <= naturalWidth img /\
    0 <= y r /\
    (y r + height r <= naturalHeight img
     <-> CROP_BOX_HEIGHT <= (64 # 100) * naturalHeight img * zoom v') /\
    (zoom v' == heightZoomHeuristic (naturalHeight img) ->
     y r + height r == naturalHeight img + naturalHeight img / 75).
Proof.
  intros Hw Hh Hcw Hch v'.
  pose proof (auto_zoom_covers_width img v Hw Hcw) as Hzw.
  pose proof (auto_zoom_covers_height img v Hh Hch) as Hzh.
  fold v' in Hzw, Hzh.
  assert (Hz : 0 < zoom v').
  { subst v'. unfold setupAutoCrop. cbn [zoom].
    apply Q.min_glb_lt; [|reflexivity].
    apply Q.max_lt_iff. left.
    apply heuristic_positive; [reflexivity | exact Hw | reflexivity]. }
  assert (Hz0 : ~ zoom v' == 0) by (intros E; rewrite E in Hz; discriminate).
  assert (Hw0 : ~ naturalWidth img == 0) by (intros E; rewrite E in Hw; discriminate).
  assert (Hh0 : ~ naturalHeight img == 0) by (intros E; rewrite E in Hh; discriminate).
  assert (Hpx : px (position v') = 0) by reflexivity.
  assert (Hpy : py (position v') = - (naturalHeight img * zoom v' * (18 # 100)))
    by reflexivity.
  assert (Hrot : rotation v' = rotation v) by reflexivity.
  eexists. unfold handleCrop. rewrite Hrot. split; [reflexivity|].
  cbn [x y width height]. rewrite Hpx, Hpy.
  generalize dependent (zoom v'). intros z Hzw Hzh Hz Hz0 _.
  set (W := naturalWidth img) in *. set (H := naturalHeight img) in *.
  set (t := CROP_BOX_WIDTH / z). set (u := CROP_BOX_HEIGHT / z).
  assert (Ht : t <= W) by (apply div_le_iff; assumption).
  assert (Hu : u <= H) by (apply div_le_iff; assumption).
  assert (Ht0 : 0 <= t).
  { apply Qle_shift_div_l; [exact Hz|]. rewrite Qmult_0_l. discriminate. }
  assert (Hu0 : 0 <= u).
  { apply Qle_shift_div_l; [exact Hz|]. rewrite Qmult_0_l. discriminate. }
  assert (Ex : ((clientWidth container - CROP_BOX_WIDTH) / 2
                - ((clientWidth container - W * z) / 2 + 0)) * (W / (W * z))
               == (1 # 2) * (W - t)) by (unfold t; field; auto).
  assert (Ewd : CROP_BOX_WIDTH * (W / (W * z)) == t) by (unfold t; field; auto).
  assert (Ey : ((clientHeight container - CROP_BOX_HEIGHT) / 2
                - ((clientHeight container - H * z) / 2 + - (H * z * (18 # 100))))
               * (W / (W * z))
               == (68 # 100) * H - (1 # 2) * u) by (unfold u; field; auto).
  assert (Eht : CROP_BOX_HEIGHT * (W / (W * z)) == u) by (unfold u; field; auto).
  rewrite Ex, Ewd, Ey, Eht.
  split; [lra|]. split; [lra|]. split; [lra|]. split.
  - rewrite <- (div_le_iff CROP_BOX_HEIGHT ((64 # 100) * H) z Hz). fold u.
    split; intros; lra.
  - intros Ez.
    assert (Eu : u == (10 # 15) * H).
    { unfold u. rewrite Ez. unfold heightZoomHeuristic, CROP_BOX_HEIGHT. fold H.
      field. exact Hh0. }
    rewrite Eu. field.
Qed.

(** A picture in landscape format. *)
Definition wide_photo : Image := {| naturalWidth := 1920; naturalHeight := 1080 |}.

Lemma auto_frame_window_witness :
  exists r,
    handleCrop (Some wide_photo) (Some {| clientWidth := 768; clientHeight := 520 |})
               (setupAutoCrop wide_photo initial) = Some (r, JS.Fin 0) /\
    0 <= x r /\ x r + width r <= 1920 /\
    y r + height r == 1080 + (72 # 5).
Proof.
  destruct (auto_frame_window wide_photo {| clientWidth := 768; clientHeight := 520 |} initial)
    as (r & Hr & Hx0 & Hx1 & _ & _ & Hlow);
    [reflexivity | reflexivity | discriminate | discriminate |].
  exists r. split; [exact Hr|]. split; [exact Hx0|]. split; [exact Hx1|].
  rewrite Hlow; reflexivity.
Defined.

End AutoFrameWindow.

(** ** Undoing an edit *)

Section UndoRevertsEdits.

Import CurveAdjustment CurveAdjustmentView.
Local Open Scope Z_scope.

(** After a commit that was not a duplicate, the entry below the tip is
    the snapshot that was current before. *)
Lemma committed_previous (s cur : CurveSettings) (h : History) :
  positioned h ->
  index (history h) (historyIndex h) = Some cur ->
  index (committed s h) (Z.of_nat (length (committed s h)) - 2) = Some cur /\
  (2 <= length (committed s h))%nat.
Proof.
  intros Hp Hcur. unfold positioned in Hp. unfold committed.
  set (n := Z.to_nat (historyIndex h)).
  replace (Z.to_nat (historyIndex h + 1)) with (S n) by lia.
  assert (Hn : nth_error (history h) n = Some cur).
  { unfold index in Hcur. destruct (Z.ltb_spec (historyIndex h) 0); [lia | exact Hcur]. }
  assert (Hlen : length (firstn (S n) (history h)) = S n) by (rewrite length_firstn; lia).
  assert (Hk : nth_error (firstn (S n) (history h) ++ [s]) n = Some cur).
  { rewrite nth_error_app1 by lia. rewrite nth_error_firstn.
    destruct (Nat.ltb_spec n (S n)); [exact Hn | lia]. }
  assert (Hg : length (firstn (S n) (history h) ++ [s]) = S (S n)).
  { rewrite length_app, Hlen. cbn [length]. lia. }
  destruct (Z.ltb_spec 50 (Z.of_nat (length (firstn (S n) (history h) ++ [s]))))
    as [Hlong | Hshort].
  - destruct (firstn (S n) (history h) ++ [s]) as [|a grown] eqn:Eg; [discriminate|].
    cbn [tl length] in *. split; [|lia].
    unfold index. destruct (Z.ltb_spec (Z.of_nat (length grown) - 2) 0); [lia|].
    replace (Z.to_nat (Z.of_nat (length grown) - 2)) with (n - 1)%nat by lia.
    destruct n as [|n']; [lia|]. cbn [nth_error] in Hk.
    replace (S n' - 1)%nat with n' by lia. exact Hk.
  - rewrite Hg. split; [|lia].
    unfold index. destruct (Z.ltb_spec (Z.of_nat (S (S n)) - 2) 0); [lia|].
    replace (Z.to_nat (Z.of_nat (S (S n)) - 2)) with n by lia. exact Hk.
Qed.

(** An edit that changed the settings, undone and redone. *)
Lemma undo_redo_of_commit (s : CurveSettings) (ed : Editor) :
  in_sync ed -> s <> settings ed ->
  let ed1 := commit s (onChange s ed) in
  settings (clickUndo ed1) = settings ed /\
  clickRedo (clickUndo ed1) = ed1.
Proof.
  intros (Hp & Hcur) Hne ed1.
  assert (Hfresh : index (history (hist ed)) (historyIndex (hist ed)) <> Some s)
    by (rewrite Hcur; intros [= E]; apply Hne; symmetry; exact E).
  assert (Hlo : -1 <= historyIndex (hist ed)) by (unfold positioned in Hp; lia).
  pose proof (addToHistory_fresh s (hist ed) Hlo Hfresh) as Eh.
  destruct (committed_previous s (settings ed) (hist ed) Hp Hcur) as (Hprev & Hlen).
  pose proof (committed_tip s (hist ed)) as Htip.
  set (st := committed s (hist ed)) in *.
  assert (E1 : ed1 = {| settings := s; activeChannel := activeChannel ed;
                        hoveredPoint := hoveredPoint ed; draggingPoint := draggingPoint ed;
                        hist := {| history := st; historyIndex := Z.of_nat (length st) - 1 |} |}).
  { unfold ed1, commit, onChange. cbn [settings activeChannel hoveredPoint draggingPoint hist].
    rewrite Eh. reflexivity. }
  assert (E2 : clickUndo ed1
               = {| settings := settings ed; activeChannel := activeChannel ed;
                    hoveredPoint := hoveredPoint ed; draggingPoint := draggingPoint ed;
                    hist := {| history := st;
                               historyIndex := Z.of_nat (length st) - 1 - 1 |} |}).
  { rewrite E1. unfold clickUndo, undo_disabled, undo. cbn [hist historyIndex history].
    destruct (Z.leb_spec (Z.of_nat (length st) - 1) 0); [lia|].
    destruct (Z.ltb_spec 0 (Z.of_nat (length st) - 1)); [|lia].
    replace (Z.of_nat (length st) - 1 - 1) with (Z.of_nat (length st) - 2) by lia.
    rewrite Hprev. reflexivity. }
  split; [rewrite E2; reflexivity|].
  rewrite E2, E1. unfold clickRedo, redo_disabled, redo. cbn [hist historyIndex history].
  rewrite Z.geb_leb.
  destruct (Z.leb_spec (Z.of_nat (length st) - 1) (Z.of_nat (length st) - 1 - 1)); [lia|].
  destruct (Z.ltb_spec (Z.of_nat (length st) - 1 - 1) (Z.of_nat (length st) - 1)); [|lia].
  replace (Z.of_nat (length st) - 1 - 1 + 1) with (Z.of_nat (length st) - 1) by lia.
  rewrite Htip. reflexivity.
Qed.

Lemma set_changes_length (s : CurveSettings) (ch : Channel) (pts : list Point) :
  length pts <> length (get s ch) -> set s ch pts <> s.
Proof.
  intros Hlen E. apply Hlen. rewrite <- E, get_set_same. reflexivity.
Qed.

(** X23.  Undo takes back the last edit.  With the history in step
    with the curves, a click that adds a point, or the removal of a
    point between the ends, is taken back by one click on undo: the
    curves are what they were before the edit.  A click on redo after
    that brings the edit back, history included. *)
Theorem undo_takes_back_edit (ed : Editor) :
  in_sync ed ->
  (forall e rect,
      hoveredPoint ed = None ->
      let ed1 := handleCanvasClick e (Some rect) ed in
      settings (clickUndo ed1) = settings ed /\ clickRedo (clickUndo ed1) = ed1) /\
  (forall i,
      (0 < i)%nat -> (S i < length (points ed))%nat ->
      let ed1 := removePoint i ed in
      settings (clickUndo ed1) = settings ed /\ clickRedo (clickUndo ed1) = ed1).
Proof.
  intros Hs. split.
  - intros e rect Hhover ed1. subst ed1. unfold handleCanvasClick. rewrite Hhover.
    apply undo_redo_of_commit; [exact Hs|].
    apply set_changes_length. fold (points ed).
    rewrite (Permutation_length (sort_by_x_perm _)), length_app. cbn [length]. lia.
  - intros i Hi0 Hi1 ed1. subst ed1. unfold removePoint.
    destruct (Z.eqb_spec (Z.of_nat i) 0); [lia|].
    destruct (Z.eqb_spec (Z.of_nat i) (Z.of_nat (length (points ed)) - 1)); [lia|].
    cbn [orb].
    apply undo_redo_of_commit; [exact Hs|].
    apply set_changes_length. fold (points ed).
    rewrite filter_index_others by lia. rewrite Nat.sub_0_r.
    unfold others. rewrite length_app, length_firstn, length_skipn. lia.
Qed.

Lemma undo_takes_back_edit_witness :
  settings (clickUndo clicked_once) = DEFAULT_CURVES /\
  clickRedo (clickUndo clicked_once) = clicked_once.
Proof.
  apply (proj1 (undo_takes_back_edit fresh_editor
                  (conj (conj (Z.le_refl 0) eq_refl) eq_refl))
           {| clientX := 128; clientY := 55 |} canvas eq_refl).
Defined.

End UndoRevertsEdits.

(** ** One channel at a time *)

Section OneChannel.

Import CurveAdjustment CurveAdjustmentView.

Lemma move_keeps_channel (e : MouseEvent) (rect : option DOMRect) (ed ed' : Editor)
      (ch : Channel) :
  ch <> activeChannel ed ->
  handleGlobalMove e rect ed = Some ed' ->
  get (settings ed') ch = get (settings ed) ch /\ activeChannel ed' = activeChannel ed.
Proof.
  intros Hch E.
  assert (Ha : activeChannel ed' = activeChannel ed).
  { apply (moves_keep [e] rect ed ed'). cbn [moves]. rewrite E. reflexivity. }
  split; [|exact Ha].
  destruct (handleGlobalMove_cases e rect ed ed' E)
    as [-> | (d & r & np & _ & _ & -> & _)]; [reflexivity|].
  apply get_set_other. intros E'. apply Hch. symmetry. exact E'.
Qed.

Lemma moves_keep_channel (es : list MouseEvent) (rect : option DOMRect) (ch : Channel) :
  forall ed ed',
    ch <> activeChannel ed ->
    moves es rect ed = Some ed' ->
    get (settings ed') ch = get (settings ed) ch.
Proof.
  induction es as [|e es IH]; intros ed ed' Hch Hm; cbn [moves] in Hm.
  - injection Hm as <-. reflexivity.
  - destruct (handleGlobalMove e rect ed) as [ed1|] eqn:E1; [|discriminate].
    destruct (move_keeps_channel e rect ed ed1 ch Hch E1) as (Hg & Ha).
    rewrite <- Hg. apply IH; [rewrite Ha; exact Hch | exact Hm].
Qed.

(** X24.  Edits act on the active channel only.  A click on the
    canvas, the removal of a point and a whole drag leave the curves of
    the three channels that are not selected exactly as they were. *)
Theorem edits_keep_other_channels (ed : Editor) (ch : Channel) :
  ch <> activeChannel ed ->
  (forall e rect, get (settings (handleCanvasClick e rect ed)) ch = get (settings ed) ch) /\
  (forall i, get (settings (removePoint i ed)) ch = get (settings ed) ch) /\
  (forall i es rect ed',
      gesture i es rect ed = Some ed' -> get (settings ed') ch = get (settings ed) ch).
Proof.
  intros Hch.
  assert (Hne : activeChannel ed <> ch) by (intros E; apply Hch; symmetry; exact E).
  split; [|split].
  - intros e rect. unfold handleCanvasClick.
    destruct (hoveredPoint ed); [reflexivity|]. destruct rect; [|reflexivity].
    cbn [settings commit onChange]. apply get_set_other, Hne.
  - intros i. destruct (removePoint_cases i ed) as [-> | (_ & _ & ->)]; [reflexivity|].
    apply get_set_other, Hne.
  - intros i es rect ed' Hg. unfold gesture in Hg.
    destruct (moves es rect (handleMouseDown i ed)) as [ed1|] eqn:Em; [|discriminate].
    injection Hg as <-.
    assert (Hup : settings (handleGlobalUp ed1) = settings ed1).
    { unfold handleGlobalUp. destruct (draggingPoint ed1); reflexivity. }
    rewrite Hup.
    apply (moves_keep_channel es rect ch (handleMouseDown i ed) ed1 Hch Em).
Qed.

Lemma edits_keep_other_channels_witness :
  get (settings clicked_twice) red = identity_curve /\
  get (settings (removePoint 1 clicked_twice)) blue = identity_curve.
Proof.
  split.
  - unfold clicked_twice.
    rewrite (proj1 (edits_keep_other_channels clicked_once red ltac:(discriminate))
               {| clientX := 128; clientY := 205 |} (Some canvas)).
    reflexivity.
  - rewrite (proj1 (proj2 (edits_keep_other_channels clicked_twice blue ltac:(discriminate))) 1%nat).
    reflexivity.
Defined.

End OneChannel.

(** ** What the model is asked for *)

Section PromptInstructions.

Import Types Async GeminiPrompt.

(** X25.  The instructions of the prompt.  The background is named
    "pure white" for WHITE and "saturated blue" for every other choice,
    the choice to keep the original background included.  The clothing
    line says to keep the clothes exactly for NONE, and otherwise to
    replace them with an outfit that is described.  So a run of
    [handleProcess] with the original background and a change of clothes,
    once the grading has succeeded, sends the model a request for the
    colour ORIGINAL, whose prompt asks for a saturated blue
    background. *)
Theorem prompt_instructions :
  (forall color, colorName color = "pure white"%string <-> color = WHITE) /\
  (forall color, color <> WHITE -> colorName color = "saturated blue"%string) /\
  (forall clothing,
      clothingPrompt clothing = "3. CLOTHING: Keep original clothes exactly as they are."%string
      <-> clothing = NONE) /\
  (forall clothing,
      clothing <> NONE ->
      outfitDesc clothing <> EmptyString /\
      clothingPrompt clothing
      = ("3. CLOTHING: Replace current clothes with " ++ outfitDesc clothing
           ++ ". Ensure a realistic fit and natural neck transition.")%string) /\
  (forall app w w' out cropped enhanced gs,
      Pipeline.selectedColor app = ORIGINAL ->
      Pipeline.selectedClothing app <> NONE ->
      JS.truthy (Pipeline.croppedImage app) = Some cropped ->
      gradings w = Resolved enhanced :: gs ->
      run (Pipeline.handleProcess app) w = Some (out, w') ->
      In (GenerateContent (GeminiService.cleanBase64 enhanced) ORIGINAL
            (Pipeline.selectedClothing app)) (log w') /\
      String.prefix "2. BACKGROUND: Replace the background with a SOLID, UNIFORM saturated blue background."
                    (backgroundPrompt ORIGINAL) = true).
Proof.
  split; [|split; [|split; [|split]]].
  - intros color. destruct color; cbn; split; intros H; try reflexivity; discriminate.
  - intros color Hne. destruct color; [contradiction | reflexivity | reflexivity].
  - intros clothing. destruct clothing; cbn; split; intros H; try reflexivity; discriminate.
  - intros clothing Hne. destruct clothing; [contradiction | | | |];
      (split; [discriminate | reflexivity]).
  - intros app w w' out cropped enhanced gs Hcolor Hcloth Hc Hg Hrun.
    split; [|reflexivity].
    rewrite <- Hcolor.
    apply (handleProcess_calls_model app cropped enhanced w w' gs out); try assumption.
    unfold Pipeline.needsAI. rewrite Hcolor.
    destruct (Pipeline.selectedClothing app); [contradiction | | | |]; reflexivity.
Qed.

Lemma prompt_instructions_witness :
  colorName BLUE = "saturated blue"%string /\
  clothingPrompt MALE_SHIRT
  = ("3. CLOTHING: Replace current clothes with a crisp white formal button-down dress shirt"
       ++ ". Ensure a realistic fit and natural neck transition.")%string.
Proof.
  destruct prompt_instructions as (_ & Hcolor & _ & Hcloth & _).
  split; [apply Hcolor; discriminate|].
  apply (Hcloth MALE_SHIRT). discriminate.
Defined.

End PromptInstructions.
